(** * DebIDE: task execution and plugin subsystem

  A shallow embedding of the parts of [debide/tasks.py], [debide/app.py]
  and [debide/plugins.py] that register, validate and start tasks, together
  with the properties the design document states about them, and of the
  code around them: [debide/config.py], [debide/scaffold.py], and the
  saving of editors in [debide/editor.py] and [debide/app.py].

  Python [str] values are modelled as [string]: each [ascii] stands for the
  code point of the same number, so the model covers the strings whose code
  points are below 256. *)

From Stdlib Require Import String Ascii List Bool Arith ZArith Lia.
From Stdlib Require Import DecimalString.
From stdpp Require Import base decidable option list strings gmap.
Import ListNotations.

Set Warnings "-register-all".

Local Open Scope string_scope.
Local Open Scope list_scope.

(** ** Python string primitives used by the sources *)

Module PyStr.

Definition newline : ascii := "010"%char.
Definition dquote : ascii := "034"%char.
Definition squote : ascii := "039"%char.
Definition backslash : ascii := "092"%char.

(** [str.isspace] on one character: the code points 9-13, 28-32, 133 and
    160 are the whitespace of [str.strip()] below 256. *)
Definition isspace (c : ascii) : bool :=
  let n := nat_of_ascii c in
  (((9 <=? n) && (n <=? 13)) || ((28 <=? n) && (n <=? 32))
   || (n =? 133) || (n =? 160))%nat.

Definition is_empty (s : string) : bool :=
  match s with EmptyString => true | String _ _ => false end.

Fixpoint lstrip (s : string) : string :=
  match s with
  | EmptyString => EmptyString
  | String c rest => if isspace c then lstrip rest else s
  end.

Fixpoint rstrip (s : string) : string :=
  match s with
  | EmptyString => EmptyString
  | String c rest =>
      let rest' := rstrip rest in
      if isspace c && is_empty rest' then EmptyString else String c rest'
  end.

(** [s.strip()] *)
Definition strip (s : string) : string := rstrip (lstrip s).

(** [s.startswith(p)] *)
Fixpoint startswith (p s : string) : bool :=
  match p, s with
  | EmptyString, _ => true
  | String a p', String b s' => if Ascii.eqb a b then startswith p' s' else false
  | String _ _, EmptyString => false
  end.

(** [sep in s] *)
Fixpoint contains (sep s : string) : bool :=
  startswith sep s
  || match s with
     | EmptyString => false
     | String _ rest => contains sep rest
     end.

(** [s.split(sep, 1)[0]] for a non-empty [sep]: the text before the first
    occurrence of [sep], or all of [s] when there is none. *)
Fixpoint split_head (sep s : string) : string :=
  if startswith sep s then EmptyString
  else match s with
       | EmptyString => EmptyString
       | String c rest => String c (split_head sep rest)
       end.

(** [str.lower] on one character below 256: A-Z and the Latin-1 capitals
    192-222 (but not the multiplication sign, 215) move up by 32. *)
Definition lower_char (c : ascii) : ascii :=
  let n := nat_of_ascii c in
  if (((65 <=? n) && (n <=? 90))
      || ((192 <=? n) && (n <=? 222) && negb (n =? 215)))%nat
  then ascii_of_nat (n + 32) else c.

Fixpoint lower (s : string) : string :=
  match s with
  | EmptyString => EmptyString
  | String c rest => String (lower_char c) (lower rest)
  end.

(** Appending one character, as [token += nextchar]. *)
Definition snoc (s : string) (c : ascii) : string :=
  String.append s (String c EmptyString).

End PyStr.

(** ** [shlex.split(s, posix=True)]

  The standard library's lexer as [shlex.split] configures it: POSIX mode,
  [whitespace_split] on, no comment characters, no punctuation characters.
  [read_token]'s loop over [self.state] becomes one pass over the input;
  the token in progress and the [quoted] flag start afresh whenever a token
  is emitted. *)

Module Shlex.
Import PyStr.

(** [self.state]: whitespace, inside a word, inside quotes opened by [q],
    or after the escape character (with [escapedstate], the state to
    return to). *)
Inductive state : Type :=
| InWhitespace
| InWord
| InQuotes (q : ascii)
| InEscape (escapedstate : state).

(** [self.whitespace]: space, tab, carriage return, line feed. *)
Definition is_whitespace (c : ascii) : bool :=
  let n := nat_of_ascii c in
  ((n =? 32) || (n =? 9) || (n =? 13) || (n =? 10))%nat.

(** [self.quotes] *)
Definition is_quote (c : ascii) : bool :=
  Ascii.eqb c squote || Ascii.eqb c dquote.

(** [self.escape] *)
Definition is_escape (c : ascii) : bool := Ascii.eqb c backslash.

(** [self.escapedquotes]: the double quote only. *)
Definition is_escapedquote (c : ascii) : bool := Ascii.eqb c dquote.

(** What [read_token] hands back when it stops with [token]: [None] (end
    of input) for an unquoted empty token. *)
Definition emit (token : string) (quoted : bool) : list string :=
  if negb quoted && is_empty token then [] else [token].

(** [None] stands for the [ValueError] of an unclosed quotation or a
    trailing escape character. *)
Fixpoint lex (st : state) (token : string) (quoted : bool)
    (input : string) : option (list string) :=
  match input with
  | EmptyString =>
      match st with
      | InWhitespace => Some []
      | InWord => Some (emit token quoted)
      | InQuotes _ => None
      | InEscape _ => None
      end
  | String nextchar rest =>
      match st with
      | InWhitespace =>
          if is_whitespace nextchar then
            lex InWhitespace token quoted rest
          else if is_escape nextchar then
            lex (InEscape InWord) token quoted rest
          else if is_quote nextchar then
            lex (InQuotes nextchar) token quoted rest
          else
            lex InWord (String nextchar EmptyString) quoted rest
      | InWord =>
          if is_whitespace nextchar then
            if negb (is_empty token) || quoted then
              option_map (cons token) (lex InWhitespace EmptyString false rest)
            else lex InWhitespace token quoted rest
          else if is_quote nextchar then
            lex (InQuotes nextchar) token quoted rest
          else if is_escape nextchar then
            lex (InEscape InWord) token quoted rest
          else
            lex InWord (snoc token nextchar) quoted rest
      | InQuotes q =>
          if Ascii.eqb nextchar q then
            lex InWord token true rest
          else if is_escape nextchar && is_escapedquote q then
            lex (InEscape (InQuotes q)) token true rest
          else
            lex (InQuotes q) (snoc token nextchar) true rest
      | InEscape escapedstate =>
          let token :=
            match escapedstate with
            | InQuotes q =>
                if negb (Ascii.eqb nextchar backslash)
                   && negb (Ascii.eqb nextchar q)
                then snoc token backslash else token
            | _ => token
            end in
          lex escapedstate (snoc token nextchar) quoted rest
      end
  end.

Definition split (s : string) : option (list string) :=
  lex InWhitespace EmptyString false s.

End Shlex.

(** ** The executable pre-flight check of [debide/app.py] *)

Module Preflight.
Import PyStr.

Definition separators : list string :=
  ["&&"; "||"; "|"; ";"; String newline EmptyString].

(** One round of the loop over the separators:
    [if separator in stripped: stripped = stripped.split(separator, 1)[0].strip()] *)
Definition truncate_at (stripped separator : string) : string :=
  if contains separator stripped
  then strip (split_head separator stripped)
  else stripped.

(** [token.startswith] on the pair of the two quote characters. *)
Definition starts_with_quote (token : string) : bool :=
  startswith (String squote EmptyString) token
  || startswith (String dquote EmptyString) token.

(** The loop over the tokens. *)
Fixpoint first_command (tokens : list string) : option string :=
  match tokens with
  | [] => None
  | token :: rest =>
      if contains "=" token && negb (starts_with_quote token) then
        let key := split_head "=" token in
        if negb (is_empty key) then first_command rest else Some token
      else Some token
  end.

(** [DebIDEApp._extract_primary_command] *)
Definition _extract_primary_command (command : string) : option string :=
  let stripped := strip command in
  if is_empty stripped then None
  else
    let stripped := fold_left truncate_at separators stripped in
    match Shlex.split stripped with
    | None => None
    | Some tokens => first_command tokens
    end.

(** The design document's wording of the truncation: the text before the
    first place where any of the operators starts. *)
Definition starts_operator (s : string) : bool :=
  existsb (fun separator => startswith separator s) separators.

Fixpoint first_segment (s : string) : string :=
  if starts_operator s then EmptyString
  else match s with
       | EmptyString => EmptyString
       | String c rest => String c (first_segment rest)
       end.

(** [s.endswith(c)] for one character. *)
Fixpoint ends_with (c : ascii) (s : string) : bool :=
  match s with
  | EmptyString => false
  | String a EmptyString => Ascii.eqb a c
  | String _ rest => ends_with c rest
  end.

(** *** Notions used in the statements below *)

(** The operators of one character. *)
Definition operator_char (c : ascii) : bool :=
  Ascii.eqb "|" c || Ascii.eqb ";" c || Ascii.eqb newline c.

(** A token the walk passes over: it holds [=], does not begin with a quote
    character, and has text before its first [=]. *)
Definition is_assignment (token : string) : bool :=
  contains "=" token && negb (starts_with_quote token)
  && negb (is_empty (split_head "=" token)).

(** The command whose first word is [A=1] written inside double quotes,
    followed by [ls]. *)
Definition quoted_assignment_command : string :=
  String dquote ("A=1" +:+ String dquote " ls").

End Preflight.


(** ** Python objects, as far as the sources look at them *)

Module Py.
Import PyStr.

(** A value handed to the host by configuration files or by plugin code.
    The sources only ask a value whether it is [None], what [str()] makes
    of it, whether it is true in a condition, and whether it is a
    [Mapping] (and then for its items): [shown] is the text [str()]
    returns, [truthy] the outcome of a truth test. *)
Inductive PyValue : Type :=
| PyNone
| PyString (s : string)
| PyMapping (shown : string) (items : list (PyValue * PyValue))
| PyOther (shown : string) (truthy : bool).

(** The items of a mapping, in order. *)
Definition Mapping : Type := list (PyValue * PyValue).

(** [str(value)] *)
Definition str (value : PyValue) : string :=
  match value with
  | PyNone => "None"
  | PyString s => s
  | PyMapping shown _ => shown
  | PyOther shown _ => shown
  end.

(** The truth value of [value] in [value or default] and [if value]. *)
Definition truth (value : PyValue) : bool :=
  match value with
  | PyNone => false
  | PyString s => negb (is_empty s)
  | PyMapping _ items => match items with [] => false | _ :: _ => true end
  | PyOther _ truthy => truthy
  end.

(** [value or default] *)
Definition or_else (value default : PyValue) : PyValue :=
  if truth value then value else default.

(** [isinstance(value, Mapping)] *)
Definition is_mapping (value : PyValue) : bool :=
  match value with PyMapping _ _ => true | _ => false end.

Definition is_key (key : string) (k : PyValue) : bool :=
  match k with PyString s => String.eqb s key | _ => false end.

(** [mapping.get(key, default)] for a string [key]. *)
Fixpoint get (mapping : Mapping) (key : string) (default : PyValue) : PyValue :=
  match mapping with
  | [] => default
  | (k, v) :: rest => if is_key key k then v else get rest key default
  end.

(** The empty [dict] literal. *)
Definition empty_dict : PyValue := PyMapping "{}" [].

(** An exception object, by its [repr()]. *)
Inductive PyException : Type := Raised (repr : string).

Definition repr_of (e : PyException) : string :=
  match e with Raised repr => repr end.

End Py.

(** ** [debide/tasks.py] *)

Module Tasks.
Import PyStr Py.

Record TaskSpec : Type := {
  name : string;
  command : string;
  description : string;
  working_dir : option string;
  env : gmap string string
}.

Inductive TaskConfigurationError : Type :=
| MkTaskConfigurationError (message : string).

(** [{str(k): str(v) for k, v in env_mapping.items()}]: a later item
    replaces an earlier one under the same key. *)
Definition coerce_env (items : Mapping) : gmap string string :=
  fold_left (fun acc kv => <[str (fst kv) := str (snd kv)]> acc) items ∅.

(** The body of the loop of [coerce_tasks] for one item: the error raised,
    or the task appended and the new [seen]. *)
Definition coerce_item (item : Mapping) (seen : gset string)
  : TaskConfigurationError + (TaskSpec * gset string) :=
  let name := strip (str (get item "name" (PyString ""))) in
  let command := strip (str (get item "command" (PyString ""))) in
  if is_empty name then
    inl (MkTaskConfigurationError "Task definition missing 'name'")
  else if is_empty command then
    inl (MkTaskConfigurationError ("Task '" +:+ name +:+ "' missing 'command'"))
  else if bool_decide (name ∈ seen) then
    inl (MkTaskConfigurationError
           ("Duplicate task name '" +:+ name +:+ "' detected"))
  else
    let seen := {[name]} ∪ seen in
    let description :=
      strip (str (or_else (get item "description" (PyString "")) (PyString ""))) in
    let working_dir := get item "working_dir" PyNone in
    let env_mapping := or_else (get item "env" PyNone) empty_dict in
    let working_dir :=
      match working_dir with
      | PyNone => None
      | value => Some (str value)
      end in
    match env_mapping with
    | PyMapping _ items =>
        inr ({| name := name; command := command; description := description;
                working_dir := working_dir; env := coerce_env items |}, seen)
    | _ =>
        inl (MkTaskConfigurationError
               ("Task '" +:+ name +:+ "' provided 'env' but it is not a mapping"))
    end.

Fixpoint coerce_loop (items : list Mapping) (tasks : list TaskSpec)
    (seen : gset string) : TaskConfigurationError + list TaskSpec :=
  match items with
  | [] => inr tasks
  | item :: rest =>
      match coerce_item item seen with
      | inl error => inl error
      | inr (task, seen) => coerce_loop rest (tasks ++ [task]) seen
      end
  end.

(** [coerce_tasks(items)] *)
Definition coerce_tasks (items : list Mapping)
  : TaskConfigurationError + list TaskSpec :=
  coerce_loop items [] ∅.

(** What the validation of [coerce_tasks] reads off one item. *)
Definition item_name (item : Mapping) : string :=
  strip (str (get item "name" (PyString ""))).

Definition item_command (item : Mapping) : string :=
  strip (str (get item "command" (PyString ""))).

Definition item_env (item : Mapping) : PyValue := get item "env" PyNone.

(** An item passes when its name and command are not blank and its [env],
    if true in a condition, is a mapping. *)
Definition item_ok (item : Mapping) : Prop :=
  item_name item <> "" /\ item_command item <> ""
  /\ (truth (item_env item) = true -> is_mapping (item_env item) = true).

Definition items_ok (items : list Mapping) : Prop :=
  Forall item_ok items /\ NoDup (item_name <$> items).

(** Neither the name nor the command of the item is given as [None]. The
    two [str()] calls that read them have no guard for it, unlike the
    reading of the description, the working directory and the [env]. *)
Definition without_none (item : Mapping) : Prop :=
  get item "name" (PyString "") <> PyNone
  /\ get item "command" (PyString "") <> PyNone.

(** *** Notions used in the statements below *)

(** What the loop needs of the items still to come. *)
Definition acceptable (items : list Mapping) (seen : gset string) : Prop :=
  Forall item_ok items /\ NoDup (item_name <$> items)
  /\ (forall item, item ∈ items -> item_name item ∉ seen).

(** The document's wording for the [env] entry: any item whose [env] is
    given and is not a mapping makes [coerce_tasks] raise. *)
Definition rejects_every_non_mapping_env : Prop :=
  forall items : list Mapping,
    (exists item, item ∈ items /\ item_env item <> PyNone
                  /\ is_mapping (item_env item) = false) ->
    exists failure, coerce_tasks items = inl failure.

Definition sample_items : list Mapping :=
  [[(PyString "name", PyString " build "); (PyString "command", PyString "make")];
   [(PyString "name", PyString "test"); (PyString "command", PyString "make check");
    (PyString "env", PyMapping "{'CI': 1}" [(PyString "CI", PyOther "1" true)])]].

End Tasks.

(** ** The task runner of [debide/app.py]

  The application object is modelled together with the part of the asyncio
  event loop it relies on: the tasks made by [asyncio.create_task], which
  [self._running_task] refers to by position, and the done callbacks the
  loop has scheduled (with [call_soon]) but not yet run. The widgets are
  kept as what the runner reads from them and writes to them. *)

Module App.
Import PyStr Py Tasks Preflight.

(** The [severity] argument of [App.notify]. *)
Inductive Severity : Type := information | warning | error.

Record DebIDEConfig : Type := {
  tasks : list TaskSpec;
  autosave : bool;
  default_task : option string
}.

Record EditorPane : Type := {
  text : string;
  _loaded_text : string;
  current_path : option string
}.

Inductive EditorError : Type := MkEditorError (message : string).

(** What the host system answers: [shutil.which], [Path.write_text] (the
    text of the [OSError], if it raises one) and, for the process of the
    task at a handle, the return code that [process.wait()] gives and the
    text of the seconds elapsed, as [{duration:.2f}] formats them. *)
Record Host : Type := {
  which : string -> option string;
  write_text : string -> string -> option string;
  return_code : nat -> Z;
  duration : nat -> string
}.

(** [EditorPane.is_dirty] *)
Definition is_dirty (editor : EditorPane) : bool :=
  negb (String.eqb (text editor) (_loaded_text editor)).

(** [EditorPane.save()], called without a path. The [FileSaved] message it
    posts is delivered by the framework later. *)
Definition save (host : Host) (editor : EditorPane)
  : EditorError + EditorPane :=
  match current_path editor with
  | None => inl (MkEditorError "No file selected to save")
  | Some target =>
      match write_text host target (text editor) with
      | Some failure =>
          inl (MkEditorError
                 ("Unable to save file " +:+ target +:+ ": " +:+ failure))
      | None =>
          inr {| text := text editor; _loaded_text := text editor;
                 current_path := Some target |}
      end
  end.

(** An [asyncio.Task] wrapping [_execute_task(task)]: still running, ended
    (with the text of the exception it raised, if any), or cancelled. *)
Inductive TaskStatus : Type :=
| Pending
| Finished (exception : option string)
| Cancelled.

Record AsyncTask : Type := {
  coro : TaskSpec;
  status : TaskStatus
}.

Record DebIDEApp : Type := {
  config : DebIDEConfig;
  editor : EditorPane;
  console_view : list string;
  notifications : list (string * Severity);
  _running_task : option nat;
  loop_tasks : list AsyncTask;
  loop_ready : list nat
}.

(** [DebIDEApp.__init__] *)
Definition new_app (config : DebIDEConfig) : DebIDEApp :=
  {| config := config;
     editor := {| text := ""; _loaded_text := ""; current_path := None |};
     console_view := ["DebIDE console ready. Select a task to run"];
     notifications := [];
     _running_task := None;
     loop_tasks := [];
     loop_ready := [] |}.

(** [self.notify(message, severity=severity)] *)
Definition notify (message : string) (severity : Severity)
    (app : DebIDEApp) : DebIDEApp :=
  {| config := config app; editor := editor app;
     console_view := console_view app;
     notifications := notifications app ++ [(message, severity)];
     _running_task := _running_task app;
     loop_tasks := loop_tasks app; loop_ready := loop_ready app |}.

(** [self._log(message)] and [self.console_view.write(message)] *)
Definition _log (message : string) (app : DebIDEApp) : DebIDEApp :=
  {| config := config app; editor := editor app;
     console_view := console_view app ++ [message];
     notifications := notifications app;
     _running_task := _running_task app;
     loop_tasks := loop_tasks app; loop_ready := loop_ready app |}.

Definition set_editor (editor' : EditorPane) (app : DebIDEApp) : DebIDEApp :=
  {| config := config app; editor := editor';
     console_view := console_view app;
     notifications := notifications app;
     _running_task := _running_task app;
     loop_tasks := loop_tasks app; loop_ready := loop_ready app |}.

Definition set_running_task (handle : option nat) (app : DebIDEApp)
  : DebIDEApp :=
  {| config := config app; editor := editor app;
     console_view := console_view app;
     notifications := notifications app;
     _running_task := handle;
     loop_tasks := loop_tasks app; loop_ready := loop_ready app |}.

Definition task_done (task : AsyncTask) : bool :=
  match status task with Pending => false | _ => true end.

(** [task.done()] for the task at [handle]. *)
Definition done (app : DebIDEApp) (handle : nat) : bool :=
  match loop_tasks app !! handle with
  | Some task => task_done task
  | None => true
  end.

(** [self._running_task = asyncio.create_task(self._execute_task(task))],
    with [_handle_task_completion] added as its done callback. *)
Definition create_task (task : TaskSpec) (app : DebIDEApp) : DebIDEApp :=
  {| config := config app; editor := editor app;
     console_view := console_view app;
     notifications := notifications app;
     _running_task := Some (length (loop_tasks app));
     loop_tasks := loop_tasks app ++ [{| coro := task; status := Pending |}];
     loop_ready := loop_ready app |}.

(** The truth value of an optional string in a condition. *)
Definition truthy (value : option string) : bool :=
  match value with
  | Some s => negb (is_empty s)
  | None => false
  end.

(** [DebIDEApp._detect_missing_executable] *)
Definition _detect_missing_executable (host : Host) (command : string)
  : option string :=
  match _extract_primary_command command with
  | None => None
  | Some snippet => if truthy (which host snippet) then None else Some snippet
  end.

Definition missing_message (missing : string) : string :=
  "Command '" +:+ missing +:+ "' is not available on PATH. "
  +:+ "Check that required packages are installed.".

(** The autosave at the start of [_start_task]. *)
Definition autosave_first (host : Host) (app : DebIDEApp) : DebIDEApp :=
  if autosave (config app) && is_dirty (editor app)
     && bool_decide (current_path (editor app) <> None)
  then
    match save host (editor app) with
    | inr saved => set_editor saved app
    | inl (MkEditorError failure) =>
        notify ("Autosave failed: " +:+ failure) error app
    end
  else app.

(** [DebIDEApp._start_task] *)
Definition _start_task (host : Host) (app : DebIDEApp) (task : TaskSpec)
  : DebIDEApp :=
  if match _running_task app with
     | Some handle => negb (done app handle)
     | None => false
     end
  then notify "A task is already running" warning app
  else
    let app := autosave_first host app in
    let missing := _detect_missing_executable host (command task) in
    if truthy missing then
      let message := missing_message (default "" missing) in
      notify message error (_log ("[red]" +:+ message +:+ "[/red]") app)
    else create_task task app.

(** [DebIDEApp._handle_task_completion], called with the task at [handle]. *)
Definition _handle_task_completion (app : DebIDEApp) (handle : nat)
  : DebIDEApp :=
  match status <$> loop_tasks app !! handle with
  | Some Cancelled =>
      set_running_task None (_log "[yellow]Task cancelled[/yellow]" app)
  | Some (Finished (Some exception)) =>
      set_running_task None
        (notify exception error
           (_log ("[red]Task failed: " +:+ exception +:+ "[/red]") app))
  | Some (Finished None) => set_running_task None app
  | _ => app
  end.

(** [str(n)] for an [int]. *)
Definition int_text (n : Z) : string :=
  NilZero.string_of_int (Z.to_int n).

(** The last lines of [DebIDEApp._execute_task], from the return of
    [process.wait()] on, for the task at [handle]. The marks U+2714 and
    U+2716 of the two lines are code points above 255; they stand here as
    the bytes of their UTF-8 encoding. *)
Definition report_exit (host : Host) (handle : nat) (task : TaskSpec)
    (app : DebIDEApp) : DebIDEApp :=
  if (return_code host handle =? 0)%Z then
    _log ("[green]✔[/green] " +:+ name task +:+ " finished in "
          +:+ duration host handle +:+ "s") app
  else
    notify (name task +:+ " failed") error
      (_log ("[red]✖[/red] " +:+ name task +:+ " failed with code "
             +:+ int_text (return_code host handle) +:+ " ("
             +:+ duration host handle +:+ "s)") app).

(** What can happen on the event loop: a handler calls [_start_task]; the
    coroutine of a running task ends, which marks the task done and
    schedules its done callback; the loop runs the oldest scheduled
    callback. A coroutine that ends without an exception has gone through
    the last lines of [_execute_task]; what it wrote to the console before
    them (the heading, the command and the output of the process) is not
    followed. *)
Inductive Event : Type :=
| StartTask (task : TaskSpec)
| TaskEnds (handle : nat) (outcome : TaskStatus)
| RunDoneCallback.

Definition end_task (host : Host) (handle : nat) (outcome : TaskStatus)
    (app : DebIDEApp) : DebIDEApp :=
  match loop_tasks app !! handle, outcome with
  | Some task, (Finished _ | Cancelled) =>
      if done app handle then app
      else
        let app :=
          match outcome with
          | Finished None => report_exit host handle (coro task) app
          | _ => app
          end in
        {| config := config app; editor := editor app;
           console_view := console_view app;
           notifications := notifications app;
           _running_task := _running_task app;
           loop_tasks :=
             <[handle := {| coro := coro task; status := outcome |}]>
               (loop_tasks app);
           loop_ready := loop_ready app ++ [handle] |}
  | _, _ => app
  end.

Definition run_done_callback (app : DebIDEApp) : DebIDEApp :=
  match loop_ready app with
  | [] => app
  | handle :: rest =>
      _handle_task_completion
        {| config := config app; editor := editor app;
           console_view := console_view app;
           notifications := notifications app;
           _running_task := _running_task app;
           loop_tasks := loop_tasks app; loop_ready := rest |}
        handle
  end.

Definition step (host : Host) (app : DebIDEApp) (event : Event) : DebIDEApp :=
  match event with
  | StartTask task => _start_task host app task
  | TaskEnds handle outcome => end_task host handle outcome app
  | RunDoneCallback => run_done_callback app
  end.

Definition run (host : Host) (events : list Event) (app : DebIDEApp)
  : DebIDEApp :=
  fold_left (step host) events app.

(** The tasks in flight: started and not yet ended. *)
Definition in_flight (app : DebIDEApp) : list TaskSpec :=
  map coro (List.filter (fun task => negb (task_done task)) (loop_tasks app)).

(** *** Notions used in the statements below *)

Definition sample_config : DebIDEConfig :=
  {| tasks := []; autosave := false; default_task := None |}.

Definition sample_task (name command : string) : TaskSpec :=
  {| Tasks.name := name; Tasks.command := command; description := "";
     working_dir := None; env := ∅ |}.

(** A host on which every executable is found; every process exits with
    code 0. *)
Definition host_with_all : Host :=
  {| which := fun name => Some ("/usr/bin/" +:+ name);
     write_text := fun _ _ => None;
     return_code := fun _ => 0%Z; duration := fun _ => "0.25" |}.

(** A host on which no executable is found. *)
Definition host_with_none : Host :=
  {| which := fun _ => None; write_text := fun _ _ => None;
     return_code := fun _ => 127%Z; duration := fun _ => "0.01" |}.

(** Every start in [events] is handled while no done callback is waiting
    to run. *)
Fixpoint prompt (host : Host) (events : list Event) (app : DebIDEApp)
  : Prop :=
  match events with
  | [] => True
  | event :: rest =>
      match event with
      | StartTask _ => loop_ready app = []
      | _ => True
      end
      /\ prompt host rest (step host app event)
  end.

(** Every task in flight is the one the handle refers to, and no done
    callback is waiting while a task is in flight. *)
Definition tracked (app : DebIDEApp) : Prop :=
  forall (handle : nat) (task : AsyncTask),
    loop_tasks app !! handle = Some task -> task_done task = false ->
    _running_task app = Some handle /\ loop_ready app = [].

End App.

(** ** [debide/plugins.py]

  Plugin code is modelled by what it does to the host: a callable of a
  plugin (its registration callable, a task provider, an app hook) makes
  calls on the [PluginAPI] it was given and then returns or raises. An
  exception here is an instance of a subclass of [Exception], the class the
  [except] clauses of the manager name. *)

Module Plugins.
Import PyStr Py.

Record PluginMessage : Type := {
  source : string;
  level : string;
  text : string
}.

(** One run of a callable of a plugin: the calls it makes on its API, in
    order, and how it ends. A call that raises ends the run with that
    exception; the calls after it are not made. *)
Record Run (Call Result : Type) : Type := {
  calls : list Call;
  result : PyException + Result
}.
Arguments calls {Call Result} _.
Arguments result {Call Result} _.

(** What a task provider hands back: [None], an object that cannot be
    iterated ([iter()] raises [error]), or an iterable that yields [items]
    and then ends, or raises [failure] instead of ending. The calls a
    provider makes on the API are taken to come before its first item. *)
Inductive Provided : Type :=
| ReturnsNone
| NotIterable (error : PyException)
| Yields (items : list PyValue) (failure : option PyException).

(** The methods of [PluginAPI]; [info], [warning] and [error] are [log]
    with that level. An argument that is not callable is [None]. *)
Inductive ApiCall : Type :=
| add_task (mapping : PyValue)
| provide_tasks (provider : option (string -> Run ApiCall Provided))
| on_app_ready (callback : option (App.DebIDEApp -> Run ApiCall unit))
| log (message level : string).

Definition TaskProvider : Type := string -> Run ApiCall Provided.
Definition AppHook : Type := App.DebIDEApp -> Run ApiCall unit.

Record PluginManager : Type := {
  _loaded_plugins : list string;
  _messages : list PluginMessage;
  _static_tasks : list (string * Mapping);
  _task_providers : list (string * TaskProvider);
  _app_hooks : list (string * AppHook);
  _app_hooks_dispatched : bool
}.

(** [PluginManager.__init__] *)
Definition new_manager : PluginManager :=
  {| _loaded_plugins := []; _messages := []; _static_tasks := [];
     _task_providers := []; _app_hooks := [];
     _app_hooks_dispatched := false |}.

Definition set_messages (messages : list PluginMessage) (m : PluginManager)
  : PluginManager :=
  {| _loaded_plugins := _loaded_plugins m; _messages := messages;
     _static_tasks := _static_tasks m; _task_providers := _task_providers m;
     _app_hooks := _app_hooks m;
     _app_hooks_dispatched := _app_hooks_dispatched m |}.

Definition levels : list string := ["info"; "warning"; "error"].

(** [PluginManager._add_message] *)
Definition _add_message (m : PluginManager) (source text level : string)
  : PluginManager :=
  let level := lower level in
  let level := if bool_decide (level ∈ levels) then level else "info" in
  set_messages
    (_messages m ++ [{| source := source; level := level; text := text |}]) m.

(** [PluginManager._register_task] *)
Definition _register_task (m : PluginManager) (source : string)
    (mapping : PyValue) : PyException + PluginManager :=
  match mapping with
  | PyMapping _ items =>
      inr {| _loaded_plugins := _loaded_plugins m; _messages := _messages m;
             _static_tasks := _static_tasks m ++ [(source, items)];
             _task_providers := _task_providers m;
             _app_hooks := _app_hooks m;
             _app_hooks_dispatched := _app_hooks_dispatched m |}
  | _ => inl (Raised "TypeError('Task definition must be a mapping')")
  end.

(** [PluginManager._register_task_provider] *)
Definition _register_task_provider (m : PluginManager) (source : string)
    (provider : option TaskProvider) : PyException + PluginManager :=
  match provider with
  | Some provider =>
      inr {| _loaded_plugins := _loaded_plugins m; _messages := _messages m;
             _static_tasks := _static_tasks m;
             _task_providers := _task_providers m ++ [(source, provider)];
             _app_hooks := _app_hooks m;
             _app_hooks_dispatched := _app_hooks_dispatched m |}
  | None => inl (Raised "TypeError('Task provider must be callable')")
  end.

(** [PluginManager._register_app_hook] *)
Definition _register_app_hook (m : PluginManager) (source : string)
    (callback : option AppHook) : PyException + PluginManager :=
  match callback with
  | Some callback =>
      inr {| _loaded_plugins := _loaded_plugins m; _messages := _messages m;
             _static_tasks := _static_tasks m;
             _task_providers := _task_providers m;
             _app_hooks := _app_hooks m ++ [(source, callback)];
             _app_hooks_dispatched := _app_hooks_dispatched m |}
  | None => inl (Raised "TypeError('App hook must be callable')")
  end.

(** A method of the [PluginAPI] made for [source]. *)
Definition api_call (source : string) (call : ApiCall) (m : PluginManager)
  : PyException + PluginManager :=
  match call with
  | add_task mapping => _register_task m source mapping
  | provide_tasks provider => _register_task_provider m source provider
  | on_app_ready callback => _register_app_hook m source callback
  | log message level => inr (_add_message m source message level)
  end.

Fixpoint run_calls (source : string) (todo : list ApiCall)
    (m : PluginManager) : PluginManager * option PyException :=
  match todo with
  | [] => (m, None)
  | call :: rest =>
      match api_call source call m with
      | inl error => (m, Some error)
      | inr m => run_calls source rest m
      end
  end.

(** Calling a callable of the plugin [source]. *)
Definition invoke {Result : Type} (source : string)
    (run : Run ApiCall Result) (m : PluginManager)
  : PluginManager * (PyException + Result) :=
  match run_calls source (calls run) m with
  | (m, Some error) => (m, inl error)
  | (m, None) => (m, result run)
  end.

(** The object an entry point loads to: one with a callable [register]
    attribute, one that is callable itself, or neither. *)
Inductive PluginObject : Type :=
| HasRegister (register : Run ApiCall unit)
| IsCallable (call : Run ApiCall unit)
| NoEntryPoint.

Definition register_callable (plugin_obj : PluginObject)
  : option (Run ApiCall unit) :=
  match plugin_obj with
  | HasRegister register => Some register
  | IsCallable call => Some call
  | NoEntryPoint => None
  end.

(** [PluginManager._activate_plugin] *)
Definition _activate_plugin (m : PluginManager) (plugin_obj : PluginObject)
    (source : string) : PluginManager :=
  match register_callable plugin_obj with
  | None =>
      _add_message m source
        "Plugin exposes no callable entry point; expected 'register(api)'"
        "warning"
  | Some register =>
      match invoke source register m with
      | (m, inl error) =>
          _add_message m source
            ("Plugin raised " +:+ repr_of error +:+ " during registration")
            "error"
      | (m, inr _) =>
          _add_message
            {| _loaded_plugins := _loaded_plugins m ++ [source];
               _messages := _messages m; _static_tasks := _static_tasks m;
               _task_providers := _task_providers m;
               _app_hooks := _app_hooks m;
               _app_hooks_dispatched := _app_hooks_dispatched m |}
            source "Registered plugin" "info"
      end
  end.

(** An entry point of the group: its name and what [load()] does. *)
Definition EntryPoint : Type := string * (PyException + PluginObject).

(** [PluginManager.discover], over the entry points of the group. *)
Fixpoint discover (m : PluginManager) (entry_points : list EntryPoint)
  : PluginManager :=
  match entry_points with
  | [] => m
  | (name, load) :: rest =>
      match load with
      | inl error =>
          discover
            (_add_message m name
               ("Failed to import plugin: " +:+ repr_of error) "error")
            rest
      | inr plugin_obj => discover (_activate_plugin m plugin_obj name) rest
      end
  end.

(** The loop of [collect_tasks] over the items of one provider. *)
Fixpoint collect_items (source : string) (items : list PyValue)
    (tasks : list Mapping) (m : PluginManager)
  : list Mapping * PluginManager :=
  match items with
  | [] => (tasks, m)
  | item :: rest =>
      match item with
      | PyMapping _ content => collect_items source rest (tasks ++ [content]) m
      | _ =>
          collect_items source rest tasks
            (_add_message m source
               "Task provider returned a non-mapping item" "error")
      end
  end.

(** What [collect_tasks] gives: the list it returns or the exception that
    leaves it, the manager afterwards, and the sources of the providers it
    called, in order. *)
Record Collected : Type := {
  outcome : PyException + list Mapping;
  after : PluginManager;
  called : list string
}.

(** The loop of [collect_tasks] over the providers. *)
Fixpoint collect_loop (providers : list (string * TaskProvider))
    (workspace : string) (tasks : list Mapping) (m : PluginManager)
    (seen : list string) : Collected :=
  match providers with
  | [] => {| outcome := inr tasks; after := m; called := seen |}
  | (source, provider) :: rest =>
      let seen := seen ++ [source] in
      match invoke source (provider workspace) m with
      | (m, inl error) =>
          collect_loop rest workspace tasks
            (_add_message m source
               ("Task provider raised " +:+ repr_of error) "error")
            seen
      | (m, inr ReturnsNone) => collect_loop rest workspace tasks m seen
      | (m, inr (NotIterable error)) =>
          {| outcome := inl error; after := m; called := seen |}
      | (m, inr (Yields items failure)) =>
          let (tasks, m) := collect_items source items tasks m in
          match failure with
          | Some error => {| outcome := inl error; after := m; called := seen |}
          | None => collect_loop rest workspace tasks m seen
          end
      end
  end.

(** [PluginManager.collect_tasks] *)
Definition collect_tasks (m : PluginManager) (workspace : string)
  : Collected :=
  collect_loop (_task_providers m) workspace (map snd (_static_tasks m)) m [].

(** The loop of [dispatch_app_ready] over the hooks. *)
Fixpoint dispatch_loop (hooks : list (string * AppHook))
    (app : App.DebIDEApp) (m : PluginManager) (seen : list string)
  : PluginManager * list string :=
  match hooks with
  | [] => (m, seen)
  | (source, hook) :: rest =>
      let seen := seen ++ [source] in
      match invoke source (hook app) m with
      | (m, inl error) =>
          dispatch_loop rest app
            (_add_message m source
               ("App hook raised " +:+ repr_of error) "error")
            seen
      | (m, inr _) => dispatch_loop rest app m seen
      end
  end.

(** [PluginManager.dispatch_app_ready]: the manager afterwards and the
    sources of the hooks it called, in order. *)
Definition dispatch_app_ready (m : PluginManager) (app : App.DebIDEApp)
  : PluginManager * list string :=
  if _app_hooks_dispatched m then (m, [])
  else
    dispatch_loop (_app_hooks m) app
      {| _loaded_plugins := _loaded_plugins m; _messages := _messages m;
         _static_tasks := _static_tasks m;
         _task_providers := _task_providers m;
         _app_hooks := _app_hooks m;
         _app_hooks_dispatched := true |}
      [].

(** [PluginManager.consume_messages] *)
Definition consume_messages (m : PluginManager)
  : list PluginMessage * PluginManager :=
  (_messages m, set_messages [] m).

(** The public operations of the manager. *)
Inductive Operation : Type :=
| Discover (entry_points : list EntryPoint)
| CollectTasks (workspace : string)
| DispatchAppReady (app : App.DebIDEApp)
| ConsumeMessages.

Definition perform (m : PluginManager) (operation : Operation)
  : PluginManager :=
  match operation with
  | Discover entry_points => discover m entry_points
  | CollectTasks workspace => after (collect_tasks m workspace)
  | DispatchAppReady app => fst (dispatch_app_ready m app)
  | ConsumeMessages => snd (consume_messages m)
  end.

(** The managers a host can hold: a new one, after any operations. *)
Definition reachable (m : PluginManager) : Prop :=
  exists operations, m = fold_left perform operations new_manager.

(** *** What a run of plugin code comes to, read off its calls *)

(** The level [_add_message] stores for [level]. *)
Definition stored_level (level : string) : string :=
  if bool_decide (lower level ∈ levels) then lower level else "info".

(** The message [_add_message] appends. *)
Definition message (source text level : string) : PluginMessage :=
  {| source := source; level := stored_level level; text := text |}.

(** The exception the API raises on [call], if it raises. *)
Definition rejection (call : ApiCall) : option PyException :=
  match call with
  | add_task (PyMapping _ _) => None
  | add_task _ => Some (Raised "TypeError('Task definition must be a mapping')")
  | provide_tasks (Some _) => None
  | provide_tasks None => Some (Raised "TypeError('Task provider must be callable')")
  | on_app_ready (Some _) => None
  | on_app_ready None => Some (Raised "TypeError('App hook must be callable')")
  | log _ _ => None
  end.

(** The calls that are carried out: those before the first one the API
    rejects. *)
Fixpoint executed (todo : list ApiCall) : list ApiCall :=
  match todo with
  | [] => []
  | call :: rest =>
      match rejection call with
      | Some _ => []
      | None => call :: executed rest
      end
  end.

(** The first rejection among the calls. *)
Fixpoint failure (todo : list ApiCall) : option PyException :=
  match todo with
  | [] => None
  | call :: rest =>
      match rejection call with
      | Some error => Some error
      | None => failure rest
      end
  end.

(** How a run ends: with the first rejection of a call, else as the
    callable itself ends. *)
Definition ending {Result : Type} (run : Run ApiCall Result)
  : PyException + Result :=
  match failure (calls run) with
  | Some error => inl error
  | None => result run
  end.

(** What carried-out calls of the plugin [source] leave in the manager. *)
Definition logged (source : string) (todo : list ApiCall)
  : list PluginMessage :=
  flat_map
    (fun call =>
       match call with
       | log text level => [message source text level]
       | _ => []
       end) todo.

Definition added_tasks (source : string) (todo : list ApiCall)
  : list (string * Mapping) :=
  flat_map
    (fun call =>
       match call with
       | add_task (PyMapping _ items) => [(source, items)]
       | _ => []
       end) todo.

Definition added_providers (source : string) (todo : list ApiCall)
  : list (string * TaskProvider) :=
  flat_map
    (fun call =>
       match call with
       | provide_tasks (Some provider) => [(source, provider)]
       | _ => []
       end) todo.

Definition added_hooks (source : string) (todo : list ApiCall)
  : list (string * AppHook) :=
  flat_map
    (fun call =>
       match call with
       | on_app_ready (Some callback) => [(source, callback)]
       | _ => []
       end) todo.

(** The manager with what the calls [todo] of [source] leave added. *)
Definition contribute (source : string) (todo : list ApiCall)
    (m : PluginManager) : PluginManager :=
  {| _loaded_plugins := _loaded_plugins m;
     _messages := _messages m ++ logged source todo;
     _static_tasks := _static_tasks m ++ added_tasks source todo;
     _task_providers := _task_providers m ++ added_providers source todo;
     _app_hooks := _app_hooks m ++ added_hooks source todo;
     _app_hooks_dispatched := _app_hooks_dispatched m |}.

(** The mappings among yielded items, copied as [dict(item)] does. *)
Definition mappings_of (items : list PyValue) : list Mapping :=
  flat_map
    (fun item =>
       match item with
       | PyMapping _ content => [content]
       | _ => []
       end) items.

(** One error message for each yielded item that is not a mapping. *)
Definition item_errors (source : string) (items : list PyValue)
  : list PluginMessage :=
  flat_map
    (fun item =>
       match item with
       | PyMapping _ _ => []
       | _ => [message source "Task provider returned a non-mapping item"
                 "error"]
       end) items.

(** A provider whose hand-back can be iterated to its end. *)
Definition iterates (ended : PyException + Provided) : Prop :=
  match ended with
  | inr (NotIterable _) => False
  | inr (Yields _ (Some _)) => False
  | _ => True
  end.

(** What one provider adds to the list [collect_tasks] returns. *)
Definition provider_tasks (workspace : string)
    (entry : string * TaskProvider) : list Mapping :=
  match ending (snd entry workspace) with
  | inr (Yields items _) => mappings_of items
  | _ => []
  end.

(** The messages the turn of one provider leaves: what the provider logs,
    then what the manager records about it. *)
Definition provider_messages (workspace : string)
    (entry : string * TaskProvider) : list PluginMessage :=
  logged (fst entry) (executed (calls (snd entry workspace)))
  ++ match ending (snd entry workspace) with
     | inl error =>
         [message (fst entry) ("Task provider raised " +:+ repr_of error)
            "error"]
     | inr (Yields items _) => item_errors (fst entry) items
     | _ => []
     end.

(** The messages the turn of one app hook leaves. *)
Definition hook_messages (app : App.DebIDEApp) (entry : string * AppHook)
  : list PluginMessage :=
  logged (fst entry) (executed (calls (snd entry app)))
  ++ match ending (snd entry app) with
     | inl error =>
         [message (fst entry) ("App hook raised " +:+ repr_of error) "error"]
     | inr _ => []
     end.

(** *** The failure bound on providers as the design document words it *)

(** A provider fails when it raises, hands back what cannot be iterated,
    or yields an item that is not a mapping. *)
Definition fails (ended : PyException + Provided) : Prop :=
  match ended with
  | inl _ => True
  | inr (NotIterable _) => True
  | inr (Yields items _) => Exists (fun item => is_mapping item = false) items
  | inr ReturnsNone => False
  end.

(** The error-level messages recorded under [source]. *)
Definition errors_for (name : string) (messages : list PluginMessage)
  : list PluginMessage :=
  List.filter
    (fun msg => String.eqb (source msg) name && String.eqb (level msg) "error")
    messages.

(** A new manager with one registered provider. *)
Definition with_provider (name : string) (provider : TaskProvider)
  : PluginManager :=
  {| _loaded_plugins := [name]; _messages := []; _static_tasks := [];
     _task_providers := [(name, provider)]; _app_hooks := [];
     _app_hooks_dispatched := false |}.

(** The document's wording: a failing provider costs exactly one error
    message, contributes nothing, and no exception leaves
    [collect_tasks]. *)
Definition failure_bounded_as_stated : Prop :=
  forall (name : string) (provider : TaskProvider) (workspace : string),
    fails (ending (provider workspace)) ->
    let collected := collect_tasks (with_provider name provider) workspace in
    outcome collected = inr []
    /\ length (errors_for name (_messages (after collected))) = 1.

(** *** Sample plugins *)

Definition boom : PyException := Raised "RuntimeError('boom')".

(** The task of the document's example. *)
Definition lint_task : PyValue :=
  PyMapping "{'name': 'lint', 'command': 'flake8'}"
    [(PyString "name", PyString "lint");
     (PyString "command", PyString "flake8")].

Definition build_items : Mapping :=
  [(PyString "name", PyString "build"); (PyString "command", PyString "make")].

(** A provider that raises, and one that returns the lint task. *)
Definition raising_provider : TaskProvider :=
  fun _ => {| calls := []; result := inl boom |}.

Definition lint_provider : TaskProvider :=
  fun _ => {| calls := []; result := inr (Yields [lint_task] None) |}.

(** A provider that yields the lint task and two numbers. *)
Definition mixed_provider : TaskProvider :=
  fun _ =>
    {| calls := [];
       result := inr (Yields [lint_task; PyOther "3" true; PyOther "4" true]
                        None) |}.

(** A manager with one static task and the two providers of the
    document's example. *)
Definition two_providers : PluginManager :=
  {| _loaded_plugins := ["core"; "bad"; "good"]; _messages := [];
     _static_tasks := [("core", build_items)];
     _task_providers := [("bad", raising_provider); ("good", lint_provider)];
     _app_hooks := []; _app_hooks_dispatched := false |}.

(** A hook that raises, and one that logs and registers a further hook. *)
Definition raising_hook : AppHook :=
  fun _ => {| calls := []; result := inl boom |}.

Definition greeting_hook : AppHook :=
  fun _ =>
    {| calls := [log "ready" "info"; on_app_ready (Some raising_hook)];
       result := inr tt |}.

Definition two_hooks : PluginManager :=
  {| _loaded_plugins := ["bad"; "good"]; _messages := [];
     _static_tasks := []; _task_providers := [];
     _app_hooks := [("bad", raising_hook); ("good", greeting_hook)];
     _app_hooks_dispatched := false |}.

Definition sample_app : App.DebIDEApp :=
  App.new_app
    {| App.tasks := []; App.autosave := false; App.default_task := None |}.

(** A registration callable that adds a task, registers a provider, logs,
    and then raises. *)
Definition half_done_register : Run ApiCall unit :=
  {| calls := [add_task lint_task; provide_tasks (Some lint_provider);
               log "about to fail" "info"];
     result := inl boom |}.

Definition half_done_plugin : PluginObject := HasRegister half_done_register.

(** *** Notions used in the statements below *)

(** [m'] holds the queue of [m] followed by messages of valid level. *)
Definition extends (m m' : PluginManager) : Prop :=
  exists new,
    _messages m' = _messages m ++ new
    /\ Forall (fun msg => level msg ∈ levels) new.

(** Every queued message has one of the three levels. *)
Definition valid_levels (m : PluginManager) : Prop :=
  Forall (fun msg => level msg ∈ levels) (_messages m).

(** A plugin that logs at a level that does not exist and at one written
    in capitals, next to an entry point that fails to load. *)
Definition noisy_plugin : PluginObject :=
  HasRegister
    {| calls := [log "hello" "LOUD"; log "careful" "WARNING"];
       result := inr tt |}.

Definition noisy_operations : list Operation :=
  [Discover [("noisy", inr noisy_plugin);
             ("broken", inl (Raised "ImportError('no module')"))]].

(** [m] with [queue] put in front of its messages. *)
Definition prefixed (queue : list PluginMessage) (m : PluginManager)
  : PluginManager :=
  set_messages (queue ++ _messages m) m.

Definition prefixed_result (queue : list PluginMessage)
    (r : PyException + PluginManager) : PyException + PluginManager :=
  match r with
  | inl failure => inl failure
  | inr m => inr (prefixed queue m)
  end.

(** The operation is [consume_messages]. *)
Definition is_consume (operation : Operation) : bool :=
  match operation with ConsumeMessages => true | _ => false end.

End Plugins.

(** ** Plugin discovery, read off the entry points

  Notions for the statements about [discover] and about what the manager
  keeps across operations. *)

Module Registry.
Import PyStr Py Plugins.

(** The calls of the registration callable of an entry point that are
    carried out: none when [load()] raises or the object loaded has no
    callable to register with. *)
Definition registered (entry : EntryPoint) : list ApiCall :=
  match snd entry with
  | inl _ => []
  | inr plugin_obj =>
      match register_callable plugin_obj with
      | None => []
      | Some register => executed (calls register)
      end
  end.

(** The entry point loads, has a callable to register with, and that
    callable returns. *)
Definition activates (entry : EntryPoint) : bool :=
  match snd entry with
  | inl _ => false
  | inr plugin_obj =>
      match register_callable plugin_obj with
      | None => false
      | Some register =>
          match ending register with
          | inl _ => false
          | inr _ => true
          end
      end
  end.

(** What the manager itself records about an entry point. *)
Definition verdict (entry : EntryPoint) : PluginMessage :=
  match snd entry with
  | inl error =>
      message (fst entry) ("Failed to import plugin: " +:+ repr_of error)
        "error"
  | inr plugin_obj =>
      match register_callable plugin_obj with
      | None =>
          message (fst entry)
            "Plugin exposes no callable entry point; expected 'register(api)'"
            "warning"
      | Some register =>
          match ending register with
          | inl error =>
              message (fst entry)
                ("Plugin raised " +:+ repr_of error +:+ " during registration")
                "error"
          | inr _ => message (fst entry) "Registered plugin" "info"
          end
      end
  end.

(** The messages the turn of one entry point leaves: what the plugin logs,
    then the verdict. *)
Definition entry_messages (entry : EntryPoint) : list PluginMessage :=
  logged (fst entry) (registered entry) ++ [verdict entry].

(** [m'] keeps every registration of [m], in place, and the dispatch flag
    if it is set. *)
Definition keeps (m m' : PluginManager) : Prop :=
  _loaded_plugins m `prefix_of` _loaded_plugins m'
  /\ _static_tasks m `prefix_of` _static_tasks m'
  /\ _task_providers m `prefix_of` _task_providers m'
  /\ _app_hooks m `prefix_of` _app_hooks m'
  /\ (_app_hooks_dispatched m = true -> _app_hooks_dispatched m' = true).

(** A plugin that registers an app hook when it is loaded. *)
Definition late_plugin : PluginObject :=
  HasRegister
    {| calls := [on_app_ready (Some greeting_hook)]; result := inr tt |}.

End Registry.

(** ** Notions for the statements about [coerce_tasks] *)

Module Validation.
Import PyStr Py Tasks.

(** The value a dict built from [items] by the comprehension of
    [coerce_tasks] holds under [key]: that of the last item whose key reads
    [key] under [str()]. *)
Definition binding (key : string) (items : Mapping) : option string :=
  option_map (fun kv => str (snd kv))
    (List.find (fun kv => String.eqb (str (fst kv)) key) (rev items)).

(** The text has no white space at either end. *)
Definition trimmed (s : string) : Prop := strip s = s.

(** An item whose [env] counts the same key twice: once as a number, once
    as text. *)
Definition colliding_env : Mapping :=
  [(PyOther "1" true, PyString "number"); (PyString "1", PyString "text")].

Definition colliding_item : Mapping :=
  [(PyString "name", PyString "build"); (PyString "command", PyString "make");
   (PyString "env", PyMapping "{1: 'number', '1': 'text'}" colliding_env)].

(** The task [coerce_tasks] makes of it. *)
Definition colliding_task : TaskSpec :=
  {| name := "build"; command := "make"; description := "";
     working_dir := None; env := coerce_env colliding_env |}.

(** The tasks [coerce_tasks] returns, none if it raises. *)
Definition accepted_tasks (items : list Mapping) : list TaskSpec :=
  match coerce_tasks items with
  | inr tasks => tasks
  | inl _ => []
  end.

End Validation.

(** ** Notions for the statements about the pre-flight check *)

Module Words.
Import PyStr Preflight App.

(** Every character of the text passes the test. *)
Fixpoint every (test : ascii -> bool) (s : string) : bool :=
  match s with
  | EmptyString => true
  | String c rest => test c && every test rest
  end.

(** A character that neither the truncation nor the lexer treats
    specially: no white space, quote, backslash, operator character or
    ampersand. *)
Definition plain (c : ascii) : bool :=
  negb (isspace c) && negb (Shlex.is_quote c) && negb (Shlex.is_escape c)
  && negb (operator_char c) && negb (Ascii.eqb "&" c).

(** A plain character other than the equals sign. *)
Definition key_char (c : ascii) : bool := plain c && negb (Ascii.eqb "=" c).

(** No task is running: the guard at the head of [_start_task] passes. *)
Definition idle (app : DebIDEApp) : Prop :=
  match _running_task app with
  | Some handle => done app handle = true
  | None => True
  end.

End Words.

(** ** Notions for the statements about the task runner *)

Module Runner.
Import PyStr Preflight Tasks App Words.



(** A configuration with autosave on, and an editor with unsaved text. *)
Definition autosave_config : DebIDEConfig :=
  {| tasks := []; autosave := true; default_task := None |}.

Definition edited_app : DebIDEApp :=
  set_editor {| text := "new"; _loaded_text := "old";
                current_path := Some "/work/notes.txt" |}
    (new_app autosave_config).

(** A host on which writing a file fails. *)
Definition read_only_host : Host :=
  {| which := fun name => Some ("/usr/bin/" +:+ name);
     write_text := fun _ _ => Some "[Errno 30] Read-only file system";
     return_code := fun _ => 0%Z; duration := fun _ => "0.25" |}.


End Runner.

(** ** Paths *)

Module Paths.

(** A resolved absolute path, as its components from the last to the
    first; the root directory is the empty list. *)
Abbreviation Path := (list string) (only parsing).

(** [path / name] *)
Definition child (path : Path) (name : string) : Path := name :: path.

Fixpoint path_text_below (path : Path) : string :=
  match path with
  | [] => ""
  | name :: parent => path_text_below parent +:+ "/" +:+ name
  end.

(** [str(path)] *)
Definition path_text (path : Path) : string :=
  match path with
  | [] => "/"
  | _ :: _ => path_text_below path
  end.

(** The workspace of the examples. *)
Definition work : Path := ["work"].

End Paths.

(** ** [debide/config.py], and the actions of [debide/app.py] that
    pick the task to run

  A loaded YAML document is kept as what [load_config] asks of it; the
  file system is kept as what it answers. *)

Module Config.
Import PyStr Py Tasks App Paths.

(** A value of a loaded YAML document, as far as [load_config] looks at
    it: a list (with the text [str()] makes of it and its items), or any
    other value. *)
Inductive Loaded : Type :=
| Scalar (value : PyValue)
| Sequence (shown : string) (items : list PyValue).

(** What [yaml.safe_load] returns for a file: a [dict] with its entries, or
    another value with its truth value. *)
Inductive Document : Type :=
| DocMapping (entries : list (PyValue * Loaded))
| DocOther (truthy : bool).

(** What the file system answers: [Path.exists], and opening and parsing a
    file (with the exception that leaves [yaml.safe_load] or [open], if
    any). *)
Record Files : Type := {
  exists_ : Path -> bool;
  safe_load : Path -> PyException + Document
}.

(** The exceptions that leave [load_config]. *)
Inductive LoadError : Type :=
| FileNotFoundError (message : string)
| Configuration (error : TaskConfigurationError)
| AttributeError
| Escaped (error : PyException).

Definition DEFAULT_CONFIG_FILENAMES : list string :=
  [".debide.yaml"; ".debide.yml"].

(** [config_mapping.get(key)], [None] standing for an absent key. *)
Fixpoint lookup (entries : list (PyValue * Loaded)) (key : string)
  : option Loaded :=
  match entries with
  | [] => None
  | (k, v) :: rest => if is_key key k then Some v else lookup rest key
  end.

Definition loaded_str (value : Loaded) : string :=
  match value with
  | Scalar value => str value
  | Sequence shown _ => shown
  end.

Definition loaded_truth (value : Loaded) : bool :=
  match value with
  | Scalar value => truth value
  | Sequence _ items => match items with [] => false | _ :: _ => true end
  end.

(** [_load_yaml_file] *)
Definition _load_yaml_file (files : Files) (path : Path)
  : LoadError + list (PyValue * Loaded) :=
  match safe_load files path with
  | inl failure => inl (Escaped failure)
  | inr (DocMapping entries) => inr entries
  | inr (DocOther truthy) =>
      if truthy then
        inl (Configuration
               (MkTaskConfigurationError
                  ("Configuration at " +:+ path_text path
                   +:+ " must be a mapping")))
      else inr []
  end.

(** [_load_user_tasks] *)
Definition _load_user_tasks (config_mapping : list (PyValue * Loaded))
  : LoadError + list PyValue :=
  match lookup config_mapping "tasks" with
  | None => inr []
  | Some (Scalar PyNone) => inr []
  | Some (Sequence _ items) => inr items
  | Some (Scalar _) =>
      inl (Configuration
             (MkTaskConfigurationError
                "'tasks' must be a list in configuration"))
  end.

(** The items in front of the first one that is not a mapping, and
    whether all of them are mappings. *)
Fixpoint mappings_before (items : list PyValue) : list Mapping * bool :=
  match items with
  | [] => ([], true)
  | PyMapping _ content :: rest =>
      let (mappings, all) := mappings_before rest in (content :: mappings, all)
  | _ :: _ => ([], false)
  end.

(** [coerce_tasks(raw_tasks)] on the items as loaded: an item that is not
    a mapping has no [get], so reaching it raises [AttributeError]. *)
Definition coerce_raw (raw_tasks : list PyValue) : LoadError + list TaskSpec :=
  let (mappings, all) := mappings_before raw_tasks in
  match coerce_tasks mappings with
  | inl failure => inl (Configuration failure)
  | inr tasks => if all then inr tasks else inl AttributeError
  end.

(** The choice of the configuration file at the head of [load_config]. *)
Definition choose_config (files : Files) (workspace : Path)
    (override_config : option Path) : LoadError + option Path :=
  match override_config with
  | Some config_path =>
      if exists_ files config_path then inr (Some config_path)
      else
        inl (FileNotFoundError
               ("Config file " +:+ path_text config_path
                +:+ " does not exist"))
  | None =>
      inr (List.find (exists_ files)
             (map (child workspace) DEFAULT_CONFIG_FILENAMES))
  end.

(** What [load_config] reads from the chosen file: the user's tasks,
    [autosave] and [default_task]. *)
Definition read_config (files : Files) (config_path : option Path)
  : LoadError + (list PyValue * bool * option string) :=
  match config_path with
  | None => inr ([], false, None)
  | Some config_path =>
      match _load_yaml_file files config_path with
      | inl failure => inl failure
      | inr config_mapping =>
          match _load_user_tasks config_mapping with
          | inl failure => inl failure
          | inr user_tasks =>
              inr (user_tasks,
                   match lookup config_mapping "autosave" with
                   | Some value => loaded_truth value
                   | None => false
                   end,
                   option_map loaded_str (lookup config_mapping "default_task"))
          end
      end
  end.

(** [load_config], with the tasks of the packaged [default_tasks.yaml] as
    [defaults]. *)
Definition load_config (files : Files) (defaults : list PyValue)
    (workspace : Path) (override_config : option Path)
  : LoadError + DebIDEConfig :=
  match choose_config files workspace override_config with
  | inl failure => inl failure
  | inr config_path =>
      match read_config files config_path with
      | inl failure => inl failure
      | inr (user_tasks, autosave, default_task) =>
          match coerce_raw (defaults ++ user_tasks) with
          | inl failure => inl failure
          | inr tasks =>
              if truthy default_task
                 && negb (bool_decide (default "" default_task ∈ name <$> tasks))
              then
                inl (Configuration
                       (MkTaskConfigurationError
                          ("default_task '" +:+ default "" default_task
                           +:+ "' is not defined in tasks list")))
              else
                inr {| tasks := tasks; autosave := autosave;
                       default_task := default_task |}
          end
      end
  end.

(** [DebIDEApp._get_selected_task], with what
    [self.task_list.get_selected_task()] returns as [selected]. *)
Definition _get_selected_task (selected : option TaskSpec) (app : DebIDEApp)
  : option TaskSpec :=
  match selected with
  | Some task => Some task
  | None =>
      if truthy (default_task (config app)) then
        List.find
          (fun candidate =>
             String.eqb (name candidate)
               (default "" (default_task (config app))))
          (tasks (config app))
      else None
  end.

(** [DebIDEApp.action_run_task] *)
Definition action_run_task (host : Host) (selected : option TaskSpec)
    (app : DebIDEApp) : DebIDEApp :=
  match _get_selected_task selected app with
  | None => notify "No task selected" warning app
  | Some task => _start_task host app task
  end.

(** *** Sample configuration *)

Definition build_entry : PyValue :=
  PyMapping "{'name': 'build', 'command': 'make'}"
    [(PyString "name", PyString "build"); (PyString "command", PyString "make")].

Definition packaged_defaults : list PyValue := [build_entry].

(** A workspace whose [.debide.yaml] sets [default_task] to [build] and
    turns autosave on. *)
Definition sample_document : Document :=
  DocMapping
    [(PyString "autosave", Scalar (PyOther "True" true));
     (PyString "default_task", Scalar (PyString "build"))].

Definition sample_files : Files :=
  {| exists_ := fun path => bool_decide (path = child work ".debide.yaml");
     safe_load := fun _ => inr sample_document |}.

(** A workspace whose [.debide.yaml] defines a task named like a packaged
    one. *)
Definition clashing_files : Files :=
  {| exists_ := fun path => bool_decide (path = child work ".debide.yaml");
     safe_load := fun _ =>
       inr (DocMapping
              [(PyString "tasks",
                Sequence "[{'name': ' build', 'command': 'ninja'}]"
                  [PyMapping "{'name': ' build', 'command': 'ninja'}"
                     [(PyString "name", PyString " build");
                      (PyString "command", PyString "ninja")]])]) |}.

(** A workspace whose [.debide.yaml] reads [default_task: null]. *)
Definition null_default_files : Files :=
  {| exists_ := fun path => bool_decide (path = child work ".debide.yaml");
     safe_load := fun _ =>
       inr (DocMapping [(PyString "default_task", Scalar PyNone)]) |}.

(** The configuration [load_config] returns for [sample_files]. *)
Definition sample_loaded : DebIDEConfig :=
  {| tasks := [sample_task "build" "make"]; autosave := true;
     default_task := Some "build" |}.

End Config.

(** ** [debide/scaffold.py]

  The module is modelled over a file system given as a finite map from
  paths to nodes. The texts of the four rendered files are kept as the
  functions that make them: the statements below hold whatever they
  return. *)

Module Scaffold.
Import PyStr Paths.

Record PackageMetadata : Type := {
  name : string;
  version : string;
  revision : string;
  maintainer_name : string;
  maintainer_email : string;
  summary : string;
  description : string;
  homepage : option string;
  section : string;
  priority : string;
  architecture : string;
  standards_version : string;
  build_depends : list string
}.

(** [PackageMetadata.full_version] *)
Definition full_version (metadata : PackageMetadata) : string :=
  version metadata +:+ "-" +:+ revision metadata.

(** The four functions that render file contents from the metadata. *)
Record Renderers : Type := {
  _render_control : PackageMetadata -> string;
  _render_changelog : PackageMetadata -> string;
  _render_rules : PackageMetadata -> string;
  _render_watch : PackageMetadata -> string
}.

(** A file system on which every operation is permitted: a regular file
    with its text and the mode set by [chmod] (none while it has the mode
    it was created with), or a directory, under each path that exists. The
    root directory always exists. *)
Inductive Node : Type :=
| File (content : string) (mode : option nat)
| Directory.

Abbreviation FileSystem := (gmap Path Node) (only parsing).

Inductive OSError : Type :=
| FileExistsError (message : string)
| FileExistsErrno (path : Path)
| FileNotFoundError
| NotADirectoryError
| IsADirectoryError.

Definition node_at (fs : FileSystem) (path : Path) : option Node :=
  match path with
  | [] => Some Directory
  | _ :: _ => fs !! path
  end.

(** [path.parent] *)
Definition parent (path : Path) : Path :=
  match path with
  | [] => []
  | _ :: above => above
  end.

(** [path.exists()] *)
Definition exists_ (fs : FileSystem) (path : Path) : bool :=
  match node_at fs path with
  | Some _ => true
  | None => false
  end.

(** [path.mkdir(parents=True, exist_ok=True)]: [os.mkdir] fails with
    [FileExistsError] where something exists (which is let pass for a
    directory), with [NotADirectoryError] below a regular file, and with
    [FileNotFoundError] below a path that does not exist, in which case the
    parent is made first. *)
Fixpoint mkdir (path : Path) (fs : FileSystem) : OSError + FileSystem :=
  match path with
  | [] => inr fs
  | _ :: above =>
      match fs !! path with
      | Some Directory => inr fs
      | Some (File _ _) => inl (FileExistsErrno path)
      | None =>
          match node_at fs above with
          | Some Directory => inr (<[path := Directory]> fs)
          | Some (File _ _) => inl NotADirectoryError
          | None =>
              match mkdir above fs with
              | inl failure => inl failure
              | inr fs => inr (<[path := Directory]> fs)
              end
          end
      end
  end.

(** [path.write_text(content)] *)
Definition write_text (path : Path) (content : string) (fs : FileSystem)
  : OSError + FileSystem :=
  match node_at fs path with
  | Some Directory => inl IsADirectoryError
  | Some (File _ mode) => inr (<[path := File content mode]> fs)
  | None =>
      match node_at fs (parent path) with
      | Some Directory => inr (<[path := File content None]> fs)
      | Some (File _ _) => inl NotADirectoryError
      | None => inl FileNotFoundError
      end
  end.

(** [path.chmod(mode)] *)
Definition chmod (path : Path) (mode : nat) (fs : FileSystem)
  : OSError + FileSystem :=
  match node_at fs path with
  | Some (File content _) => inr (<[path := File content (Some mode)]> fs)
  | Some Directory => inr fs
  | None => inl FileNotFoundError
  end.

(** A step that reads and changes the file system and returns a value or
    raises; the file system stays as the step left it. *)
Definition IO (A : Type) : Type := FileSystem -> (OSError + A) * FileSystem.

Definition ret {A : Type} (value : A) : IO A := fun fs => (inr value, fs).

Definition bind {A B : Type} (step : IO A) (next : A -> IO B) : IO B :=
  fun fs =>
    match step fs with
    | (inl failure, fs) => (inl failure, fs)
    | (inr value, fs) => next value fs
    end.

(** A file operation as a step: on failure the file system is unchanged. *)
Definition attempt {A : Type} (value : A)
    (operation : FileSystem -> OSError + FileSystem) : IO A :=
  fun fs =>
    match operation fs with
    | inl failure => (inl failure, fs)
    | inr fs => (inr value, fs)
    end.

Definition raise {A : Type} (failure : OSError) : IO A :=
  fun fs => (inl failure, fs).

Notation "'let*' x ':=' step 'in' next" := (bind step (fun x => next))
  (at level 10, x name, step at level 100, next at level 200).

(** [_write_file] *)
Definition _write_file (path : Path) (content : string) (overwrite : bool)
  : IO Path :=
  let* _ := attempt tt (mkdir (parent path)) in
  fun fs =>
    if exists_ fs path && negb overwrite then
      raise (FileExistsError (path_text path +:+ " already exists")) fs
    else attempt path (write_text path content) fs.

Definition line (s : string) : string := s +:+ String newline EmptyString.

Definition readme (metadata : PackageMetadata) : string :=
  line (name metadata +:+ " for Debian")
  +:+ line "====================="
  +:+ line ""
  +:+ line "Describe package specifics here.".

(** [scaffold_debian_packaging], for a resolved [workspace]. *)
Definition scaffold_debian_packaging (render : Renderers) (workspace : Path)
    (metadata : PackageMetadata) : IO (list Path) :=
  let debian_dir := child workspace "debian" in
  let* control :=
    _write_file (child debian_dir "control")
      (_render_control render metadata) false in
  let* changelog :=
    _write_file (child debian_dir "changelog")
      (_render_changelog render metadata) false in
  let* rules :=
    _write_file (child debian_dir "rules")
      (_render_rules render metadata) false in
  let* _ := attempt tt (chmod (child debian_dir "rules") 493) in
  let* watch :=
    _write_file (child debian_dir "watch")
      (_render_watch render metadata) false in
  let* format :=
    _write_file (child (child debian_dir "source") "format")
      (line "3.0 (quilt)") false in
  let* readme_path :=
    _write_file (child debian_dir "README.Debian") (readme metadata) false in
  ret [control; changelog; rules; watch; format; readme_path].

(** *** Sample workspace *)

Definition sample_render : Renderers :=
  {| _render_control := fun metadata => line ("Source: " +:+ name metadata);
     _render_changelog := fun metadata =>
       line (name metadata +:+ " (" +:+ full_version metadata +:+ ")");
     _render_rules := fun _ => line "#!/usr/bin/make -f";
     _render_watch := fun _ => line "version=4" |}.

Definition sample_metadata : PackageMetadata :=
  {| name := "hello"; version := "0.1.0"; revision := "1";
     maintainer_name := "Debian Maintainer";
     maintainer_email := "maintainer@example.com";
     summary := "hello package";
     description := "Initial Debian package generated via DebIDE.";
     homepage := None; section := "misc"; priority := "optional";
     architecture := "any"; standards_version := "4.7.0";
     build_depends := ["debhelper-compat (= 13)"] |}.

(** A workspace directory with nothing in it. *)
Definition empty_workspace : FileSystem := {[ work := Directory ]}.

(** A workspace in which [debian/changelog] exists already. *)
Definition with_changelog : FileSystem :=
  <[child (child work "debian") "changelog" := File "kept" None]>
    (<[child work "debian" := Directory]> empty_workspace).

(** *** Notions used in the statements below *)

(** Whatever the step does, every file and directory that was there is
    still there afterwards, with the same content and mode. *)
Definition grows {A : Type} (step : IO A) : Prop :=
  forall fs : FileSystem, fs ⊆ snd (step fs).

(** Nothing exists at [top] or below it. *)
Definition vacant (fs : FileSystem) (top : Path) : Prop :=
  forall below : Path, fs !! (below ++ top) = None.

End Scaffold.

(** ** Saving editors: [EditorPane.save] and [action_save_all] *)

Module Saving.
Import PyStr App.

(** [str(n)] for a count. *)
Definition decimal (n : nat) : string :=
  NilEmpty.string_of_uint (Nat.to_uint n).

(** [EditorPane.save(path)]: the target is [path], or the current path
    when [path] is [None]. *)
Definition save (host : Host) (path : option string) (editor : EditorPane)
  : EditorError + EditorPane :=
  match (match path with
         | Some target => Some target
         | None => current_path editor
         end) with
  | None => inl (MkEditorError "No file selected to save")
  | Some target =>
      match write_text host target (text editor) with
      | Some failure =>
          inl (MkEditorError
                 ("Unable to save file " +:+ target +:+ ": " +:+ failure))
      | None =>
          inr {| text := text editor; _loaded_text := text editor;
                 current_path := Some target |}
      end
  end.

(** The counters of [action_save_all]. *)
Record Tally : Type := {
  saved : nat;
  skipped : nat;
  errors : list string
}.

(** The body of the loop of [action_save_all] for one editor; [answer] is
    what the Save As dialog returns if it is asked. *)
Definition save_one (host : Host) (answer : option string)
    (editor : EditorPane) (tally : Tally) : EditorPane * Tally :=
  if negb (is_dirty editor) then (editor, tally)
  else
    match (match current_path editor with
           | Some target_path => Some target_path
           | None => answer
           end) with
    | None =>
        (editor,
         {| saved := saved tally; skipped := skipped tally + 1;
            errors := errors tally |})
    | Some target_path =>
        match save host (Some target_path) editor with
        | inr written =>
            (written,
             {| saved := saved tally + 1; skipped := skipped tally;
                errors := errors tally |})
        | inl (MkEditorError message) =>
            (editor,
             {| saved := saved tally; skipped := skipped tally;
                errors := errors tally ++ [message] |})
        end
    end.

(** The loop over the editors; [prompt] gives the answer of the dialog for
    the editor at each position. *)
Fixpoint save_each (host : Host) (prompt : nat -> option string)
    (position : nat) (editors : list EditorPane) (tally : Tally)
  : list EditorPane * Tally :=
  match editors with
  | [] => ([], tally)
  | editor :: rest =>
      let (editor, tally) := save_one host (prompt position) editor tally in
      let (rest, tally) := save_each host prompt (S position) rest tally in
      (editor :: rest, tally)
  end.

(** The notifications and log lines at the end of [action_save_all]. *)
Definition report (tally : Tally) (app : DebIDEApp) : DebIDEApp :=
  let app :=
    if (0 <? saved tally)%nat then
      notify ("Saved " +:+ decimal (saved tally) +:+ " file(s)")
        information app
    else app in
  let app :=
    if (0 <? skipped tally)%nat then
      notify ("Skipped " +:+ decimal (skipped tally)
              +:+ " buffer(s) without a saved path") warning app
    else app in
  let app :=
    match errors tally with
    | [] => app
    | _ :: _ =>
        notify ("Failed to save " +:+ decimal (length (errors tally))
                +:+ " file(s). Check console for details.") error
          (fold_left
             (fun app message => _log ("[red]" +:+ message +:+ "[/red]") app)
             (errors tally) app)
    end in
  if (0 <? saved tally)%nat || (0 <? skipped tally)%nat
     || match errors tally with [] => false | _ :: _ => true end
  then app
  else notify "All files already saved" information app.

(** [DebIDEApp.action_save_all], over the editors the query returns. *)
Definition action_save_all (host : Host) (prompt : nat -> option string)
    (editors : list EditorPane) (app : DebIDEApp)
  : list EditorPane * DebIDEApp :=
  match editors with
  | [] => ([], notify "No editors available to save" warning app)
  | _ :: _ =>
      let (editors, tally) :=
        save_each host prompt 0 editors
          {| saved := 0; skipped := 0; errors := [] |} in
      (editors, report tally app)
  end.

(** *** Notions used in the statements below *)

(** The editors with unsaved changes. *)
Definition unsaved (editors : list EditorPane) : list EditorPane :=
  List.filter is_dirty editors.

(** Three editors: one saved, one edited with a path, one edited without. *)
Definition three_editors : list EditorPane :=
  [{| text := "a"; _loaded_text := "a"; current_path := Some "/work/a" |};
   {| text := "b2"; _loaded_text := "b"; current_path := Some "/work/b" |};
   {| text := "c"; _loaded_text := ""; current_path := None |}].

End Saving.

(** ** Facts about the string primitives *)

Module PyStrFacts.
Import PyStr.

Lemma rstrip_cons_nonspace (a : ascii) (s : string) :
  isspace a = false -> rstrip (String a s) = String a (rstrip s).
Proof. intros Ha. simpl. rewrite Ha. reflexivity. Qed.

Lemma lstrip_head (s : string) :
  lstrip s = EmptyString
  \/ exists a r, lstrip s = String a r /\ isspace a = false.
Proof.
  induction s as [|c s IH]; simpl.
  - left; reflexivity.
  - destruct (isspace c) eqn:Hc; [exact IH|].
    right. exists c, s. split; [reflexivity|exact Hc].
Qed.

Lemma lstrip_idem (s : string) : lstrip (lstrip s) = lstrip s.
Proof.
  destruct (lstrip_head s) as [->|(a & r & -> & Ha)]; simpl; [reflexivity|].
  rewrite Ha. reflexivity.
Qed.

Lemma rstrip_idem (s : string) : rstrip (rstrip s) = rstrip s.
Proof.
  induction s as [|c s IH]; simpl; [reflexivity|].
  destruct (isspace c && is_empty (rstrip s)) eqn:E; simpl; [reflexivity|].
  rewrite IH, E. reflexivity.
Qed.

Lemma lstrip_strip (s : string) : lstrip (strip s) = strip s.
Proof.
  unfold strip.
  destruct (lstrip_head s) as [->|(a & r & -> & Ha)]; [reflexivity|].
  rewrite rstrip_cons_nonspace by exact Ha. simpl. rewrite Ha. reflexivity.
Qed.

Lemma rstrip_strip (s : string) : rstrip (strip s) = strip s.
Proof. unfold strip. apply rstrip_idem. Qed.

Lemma strip_idem (s : string) : strip (strip s) = strip s.
Proof.
  unfold strip at 1. rewrite lstrip_strip. apply rstrip_strip.
Qed.

Lemma strip_empty_iff (s : string) :
  strip s = EmptyString <-> lstrip s = EmptyString.
Proof.
  unfold strip.
  destruct (lstrip_head s) as [->|(a & r & -> & Ha)]; [tauto|].
  rewrite rstrip_cons_nonspace by exact Ha. split; discriminate.
Qed.

Lemma lstrip_app (s t : string) :
  lstrip s <> EmptyString -> lstrip (String.append s t) = String.append (lstrip s) t.
Proof.
  induction s as [|c s IH]; simpl; [congruence|].
  destruct (isspace c); [exact IH|reflexivity].
Qed.

(** [startswith p s] is the prefix order. *)
Lemma startswith_refl (s : string) : startswith s s = true.
Proof.
  induction s as [|c s IH]; simpl; [reflexivity|].
  rewrite Ascii.eqb_refl. exact IH.
Qed.

Lemma startswith_trans (p q s : string) :
  startswith p q = true -> startswith q s = true -> startswith p s = true.
Proof.
  revert q s. induction p as [|a p IH]; intros q s Hpq Hqs; [reflexivity|].
  destruct q as [|b q]; [discriminate|].
  destruct s as [|c s]; [discriminate|].
  simpl in *.
  destruct (Ascii.eqb_spec a b) as [->|]; [|discriminate].
  destruct (Ascii.eqb_spec b c) as [->|]; [|discriminate].
  eauto.
Qed.

Lemma startswith_nil (p : string) :
  startswith p EmptyString = true -> p = EmptyString.
Proof. destruct p; [reflexivity|discriminate]. Qed.

Lemma contains_prefix (x p s : string) :
  startswith p s = true -> contains x p = true -> contains x s = true.
Proof.
  revert s. induction p as [|a p IH]; intros s Hps Hx.
  - simpl in Hx. rewrite orb_false_r in Hx.
    apply startswith_nil in Hx. subst x. destruct s; reflexivity.
  - destruct s as [|c s]; [discriminate|].
    simpl in Hps. destruct (Ascii.eqb_spec a c) as [->|]; [|discriminate].
    change (contains x (String c p)) with
      (startswith x (String c p) || contains x p) in Hx.
    change (contains x (String c s)) with
      (startswith x (String c s) || contains x s).
    apply orb_true_iff in Hx as [Hx|Hx]; apply orb_true_iff.
    + left. eapply startswith_trans; [exact Hx|].
      simpl. rewrite Ascii.eqb_refl. exact Hps.
    + right. eauto.
Qed.

Lemma contains_cons (x : string) (c : ascii) (s : string) :
  contains x s = true -> contains x (String c s) = true.
Proof.
  intros H.
  change (contains x (String c s)) with
    (startswith x (String c s) || contains x s).
  rewrite H. apply orb_true_r.
Qed.

Lemma contains_lstrip (x s : string) :
  contains x (lstrip s) = true -> contains x s = true.
Proof.
  induction s as [|c s IH]; simpl lstrip; [tauto|].
  destruct (isspace c); [|tauto].
  intros H. apply contains_cons. auto.
Qed.

Lemma startswith_rstrip (s : string) : startswith (rstrip s) s = true.
Proof.
  induction s as [|c s IH]; simpl; [reflexivity|].
  destruct (isspace c && is_empty (rstrip s)); simpl; [reflexivity|].
  rewrite Ascii.eqb_refl. exact IH.
Qed.

Lemma startswith_split_head (sep s : string) :
  startswith (split_head sep s) s = true.
Proof.
  induction s as [|c s IH]; simpl.
  - destruct (startswith sep EmptyString); reflexivity.
  - destruct (startswith sep (String c s)); simpl; [reflexivity|].
    rewrite Ascii.eqb_refl. exact IH.
Qed.

Lemma contains_strip (x s : string) :
  contains x (strip s) = true -> contains x s = true.
Proof.
  intros H. apply contains_lstrip.
  eapply contains_prefix; [apply startswith_rstrip|exact H].
Qed.

Lemma contains_split_head (x sep s : string) :
  contains x (split_head sep s) = true -> contains x s = true.
Proof. apply contains_prefix, startswith_split_head. Qed.

(** The text before the first occurrence of [sep] holds no [sep]. *)
Lemma split_head_free (a : ascii) (sep' s : string) :
  contains (String a sep') (split_head (String a sep') s) = false.
Proof.
  set (sep := String a sep').
  induction s as [|c s IH].
  - reflexivity.
  - change (split_head sep (String c s)) with
      (if startswith sep (String c s) then EmptyString
       else String c (split_head sep s)).
    destruct (startswith sep (String c s)) eqn:E; [reflexivity|].
    change (contains sep (String c (split_head sep s))) with
      (startswith sep (String c (split_head sep s))
       || contains sep (split_head sep s)).
    rewrite IH, orb_false_r.
    destruct (startswith sep (String c (split_head sep s))) eqn:E'; [|reflexivity].
    rewrite <- E. symmetry.
    eapply startswith_trans; [exact E'|].
    simpl. rewrite Ascii.eqb_refl. apply startswith_split_head.
Qed.

End PyStrFacts.

(** ** Facts about the pre-flight check *)

Module PreflightFacts.
Import PyStr PyStrFacts Preflight.

Local Arguments Ascii.eqb : simpl never.

Lemma starts_operator_nil : starts_operator EmptyString = false.
Proof. reflexivity. Qed.

Lemma startswith_cons_cons (a : ascii) (p : string) (c : ascii) (r : string) :
  startswith (String a p) (String c r)
  = if Ascii.eqb a c then startswith p r else false.
Proof. reflexivity. Qed.

Lemma starts_operator_cons (c : ascii) (r : string) :
  starts_operator (String c r)
  = operator_char c || (Ascii.eqb "&" c && startswith "&" r).
Proof.
  unfold starts_operator, operator_char, separators. cbn [existsb].
  rewrite !startswith_cons_cons.
  change (startswith EmptyString r) with true.
  destruct (Ascii.eqb "&" c), (Ascii.eqb "|" c), (Ascii.eqb ";" c),
    (Ascii.eqb newline c), (startswith "&" r), (startswith "|" r);
    reflexivity.
Qed.

Lemma first_segment_cons (c : ascii) (r : string) :
  first_segment (String c r)
  = if starts_operator (String c r) then EmptyString
    else String c (first_segment r).
Proof. reflexivity. Qed.

Lemma separator_starts_operator (separator s : string) :
  In separator separators -> startswith separator s = true ->
  starts_operator s = true.
Proof.
  intros Hin Hs. unfold starts_operator. apply existsb_exists.
  exists separator. split; assumption.
Qed.

Lemma startswith_amp_rstrip (r : string) :
  startswith "&" (rstrip r) = startswith "&" r.
Proof.
  destruct r as [|d r]; [reflexivity|].
  simpl. destruct (Ascii.eqb_spec "&"%char d) as [<-|Hd].
  - reflexivity.
  - destruct (isspace d && is_empty (rstrip r)); simpl; [reflexivity|].
    destruct (Ascii.eqb_spec "&"%char d); [contradiction|reflexivity].
Qed.

(** Trailing whitespace does not change the first segment, up to its own
    trailing whitespace. *)
Lemma rstrip_first_segment_rstrip (y : string) :
  rstrip (first_segment (rstrip y)) = rstrip (first_segment y).
Proof.
  induction y as [|c r IH]; [reflexivity|].
  rewrite (first_segment_cons c r).
  change (rstrip (String c r)) with
    (if isspace c && is_empty (rstrip r) then EmptyString
     else String c (rstrip r)).
  destruct (isspace c && is_empty (rstrip r)) eqn:E.
  - apply andb_true_iff in E as [Hc He].
    destruct (rstrip r) eqn:Hr; [|discriminate].
    destruct (starts_operator (String c r)); [reflexivity|].
    simpl in IH. simpl. rewrite <- IH, Hc. reflexivity.
  - rewrite first_segment_cons.
    rewrite !starts_operator_cons, startswith_amp_rstrip.
    destruct (operator_char c || Ascii.eqb "&" c && startswith "&" r);
      [reflexivity|].
    simpl. rewrite IH. reflexivity.
Qed.

Lemma amp_split_head (separator : string) (c : ascii) (r : string) :
  In separator separators ->
  startswith separator (String c r) = false ->
  Ascii.eqb "&" c && startswith "&" (split_head separator r)
  = Ascii.eqb "&" c && startswith "&" r.
Proof.
  intros Hin Hs.
  destruct r as [|d r].
  - simpl. destruct (startswith separator EmptyString); reflexivity.
  - change (split_head separator (String d r)) with
      (if startswith separator (String d r) then EmptyString
       else String d (split_head separator r)).
    destruct (startswith separator (String d r)) eqn:E; [|reflexivity].
    simpl. destruct (Ascii.eqb_spec "&"%char c) as [<-|]; [|reflexivity].
    destruct (Ascii.eqb_spec "&"%char d) as [<-|]; [|reflexivity].
    simpl in Hin.
    destruct Hin as [<-|[<-|[<-|[<-|[<-|[]]]]]]; simpl in *; congruence.
Qed.

(** Cutting at the first occurrence of one separator keeps the first
    segment. *)
Lemma first_segment_split_head (separator s : string) :
  In separator separators ->
  first_segment (split_head separator s) = first_segment s.
Proof.
  intros Hin. induction s as [|c r IH].
  - simpl. destruct (startswith separator EmptyString); reflexivity.
  - change (split_head separator (String c r)) with
      (if startswith separator (String c r) then EmptyString
       else String c (split_head separator r)).
    destruct (startswith separator (String c r)) eqn:E.
    + rewrite first_segment_cons.
      rewrite (separator_starts_operator _ _ Hin E). reflexivity.
    + rewrite !first_segment_cons, !starts_operator_cons.
      rewrite (amp_split_head _ _ _ Hin E), IH. reflexivity.
Qed.

Lemma first_segment_free (s : string) :
  (forall separator, In separator separators ->
     contains separator s = false) ->
  first_segment s = s.
Proof.
  induction s as [|c r IH]; intros Hfree; [reflexivity|].
  rewrite first_segment_cons.
  destruct (starts_operator (String c r)) eqn:E.
  - apply existsb_exists in E as (separator & Hin & Hs).
    specialize (Hfree separator Hin).
    change (contains separator (String c r)) with
      (startswith separator (String c r) || contains separator r) in Hfree.
    rewrite Hs in Hfree. discriminate.
  - f_equal. apply IH. intros separator Hin.
    specialize (Hfree separator Hin).
    change (contains separator (String c r)) with
      (startswith separator (String c r) || contains separator r) in Hfree.
    apply orb_false_iff in Hfree. tauto.
Qed.

Lemma lstrip_fixed_inv (s : string) :
  lstrip s = s ->
  s = EmptyString \/ exists a r, s = String a r /\ isspace a = false.
Proof.
  intros H. destruct (lstrip_head s) as [E|(a & r & E & Ha)];
    rewrite H in E; eauto.
Qed.

Lemma lstrip_split_head (separator s : string) :
  lstrip s = s -> lstrip (split_head separator s) = split_head separator s.
Proof.
  intros H. destruct (lstrip_fixed_inv s H) as [->|(a & r & -> & Ha)].
  - simpl. destruct (startswith separator EmptyString); reflexivity.
  - change (split_head separator (String a r)) with
      (if startswith separator (String a r) then EmptyString
       else String a (split_head separator r)).
    destruct (startswith separator (String a r)); [reflexivity|].
    simpl. rewrite Ha. reflexivity.
Qed.

Lemma truncate_at_stripped (s separator : string) :
  strip s = s -> strip (truncate_at s separator) = truncate_at s separator.
Proof.
  intros H. unfold truncate_at.
  destruct (contains separator s); [apply strip_idem|exact H].
Qed.

Lemma truncate_at_free_self (s separator : string) :
  In separator separators -> contains separator (truncate_at s separator) = false.
Proof.
  intros Hin. unfold truncate_at.
  destruct (contains separator s) eqn:E; [|exact E].
  destruct (contains separator (strip (split_head separator s))) eqn:E';
    [|reflexivity].
  apply contains_strip in E'.
  assert (exists a r, separator = String a r) as (a & r & ->).
  { simpl in Hin. destruct Hin as [<-|[<-|[<-|[<-|[<-|[]]]]]]; eauto. }
  rewrite split_head_free in E'. discriminate.
Qed.

Lemma truncate_at_free_other (s separator other : string) :
  contains other s = false -> contains other (truncate_at s separator) = false.
Proof.
  intros H. unfold truncate_at.
  destruct (contains separator s); [|exact H].
  destruct (contains other (strip (split_head separator s))) eqn:E;
    [|reflexivity].
  apply contains_strip, contains_split_head in E. congruence.
Qed.

Lemma truncate_at_first_segment (s separator : string) :
  In separator separators -> lstrip s = s ->
  rstrip (first_segment (truncate_at s separator))
  = rstrip (first_segment s).
Proof.
  intros Hin H. unfold truncate_at.
  destruct (contains separator s); [|reflexivity].
  unfold strip. rewrite (lstrip_split_head _ _ H).
  rewrite rstrip_first_segment_rstrip.
  rewrite (first_segment_split_head _ _ Hin). reflexivity.
Qed.

Lemma fold_truncate_at (todo : list string) (s : string) :
  (forall separator, In separator todo -> In separator separators) ->
  strip s = s ->
  let t := fold_left truncate_at todo s in
  strip t = t
  /\ rstrip (first_segment t) = rstrip (first_segment s)
  /\ (forall other, contains other s = false -> contains other t = false)
  /\ (forall separator, In separator todo -> contains separator t = false).
Proof.
  revert s. induction todo as [|separator rest IH]; intros s Hsub Hs; simpl.
  - repeat split; auto. intros _ [].
  - assert (In separator separators) as Hin by (apply Hsub; left; reflexivity).
    destruct (IH (truncate_at s separator)) as (H1 & H2 & H3 & H4).
    + intros x Hx. apply Hsub. right. exact Hx.
    + apply truncate_at_stripped, Hs.
    + repeat split.
      * exact H1.
      * rewrite H2. apply truncate_at_first_segment; [exact Hin|].
        rewrite <- Hs. apply lstrip_strip.
      * intros other Ho. apply H3, truncate_at_free_other, Ho.
      * intros x [<-|Hx]; [|apply H4, Hx].
        apply H3, truncate_at_free_self, Hin.
Qed.

(** The loop over the separators cuts a stripped string at the first place
    where any operator starts, and strips the result. *)
Lemma truncation_is_first_segment (s : string) :
  strip s = s ->
  fold_left truncate_at separators s = rstrip (first_segment s).
Proof.
  intros Hs.
  destruct (fold_truncate_at separators s (fun _ H => H) Hs)
    as (H1 & H2 & _ & H4).
  rewrite <- H2. rewrite (first_segment_free _ H4).
  rewrite <- H1 at 1. symmetry. rewrite <- H1 at 1. apply rstrip_strip.
Qed.

Lemma startswith_app (p t : string) : startswith p (p +:+ t) = true.
Proof.
  induction p as [|a p IH]; simpl; [reflexivity|].
  rewrite Ascii.eqb_refl. exact IH.
Qed.

Lemma ends_with_lstrip (a : ascii) (s : string) :
  lstrip s <> EmptyString -> ends_with a (lstrip s) = ends_with a s.
Proof.
  induction s as [|c r IH]; [reflexivity|].
  simpl lstrip. destruct (isspace c); [|reflexivity].
  intros H. rewrite (IH H).
  destruct r; [simpl in H; congruence|reflexivity].
Qed.

(** Text appended after an operator does not reach the first segment. *)
Lemma first_segment_app (x separator trailing : string) :
  In separator separators ->
  (separator = "&&" -> ends_with "&" x = false) ->
  first_segment (x +:+ separator +:+ trailing) = first_segment x.
Proof.
  intros Hin. induction x as [|c r IH]; intros Hamp.
  - change (EmptyString +:+ separator +:+ trailing)
      with (separator +:+ trailing).
    destruct (separator +:+ trailing) eqn:E; [reflexivity|].
    rewrite first_segment_cons, <- E.
    rewrite (separator_starts_operator separator _ Hin (startswith_app _ _)).
    reflexivity.
  - change (String c r +:+ separator +:+ trailing)
      with (String c (r +:+ separator +:+ trailing)).
    rewrite !first_segment_cons, !starts_operator_cons.
    assert (Ascii.eqb "&" c && startswith "&" (r +:+ separator +:+ trailing)
            = Ascii.eqb "&" c && startswith "&" r) as ->.
    { destruct r as [|d r]; [|reflexivity].
      destruct (Ascii.eqb_spec "&"%char c) as [<-|]; [|reflexivity].
      simpl in Hin.
      destruct Hin as [<-|[<-|[<-|[<-|[<-|[]]]]]]; try reflexivity.
      specialize (Hamp eq_refl). discriminate. }
    rewrite IH; [reflexivity|].
    intros E. specialize (Hamp E). destruct r; [reflexivity|exact Hamp].
Qed.

(** C5. For a command that is not blank, the executable picked by the
    pre-flight check stays the same when an operator out of [&&], [||],
    [|], [;] and newline and any further text are appended (an appended
    [&&] must not merge with an ampersand the command ends with); the
    document's example yields [dpkg-buildpackage]. *)
Theorem extract_primary_command_ignores_trailing_segments :
  (forall command separator trailing : string,
     In separator separators ->
     strip command <> EmptyString ->
     (separator = "&&" -> ends_with "&" command = false) ->
     _extract_primary_command (command +:+ separator +:+ trailing)
     = _extract_primary_command command)
  /\ _extract_primary_command "FOO=1 dpkg-buildpackage -us -uc && echo done"
     = Some "dpkg-buildpackage".
Proof.
  split; [|reflexivity].
  intros command separator trailing Hin Hne Hamp.
  assert (lstrip command <> EmptyString) as Hl
    by (intros E; apply Hne, strip_empty_iff, E).
  assert (rstrip (first_segment (strip (command +:+ separator +:+ trailing)))
          = rstrip (first_segment (strip command))) as Hseg.
  { unfold strip. rewrite !rstrip_first_segment_rstrip.
    rewrite (lstrip_app _ _ Hl).
    apply f_equal, first_segment_app; [exact Hin|].
    intros E. rewrite (ends_with_lstrip _ _ Hl). exact (Hamp E). }
  assert (strip (command +:+ separator +:+ trailing) <> EmptyString) as Hne'.
  { intros E. apply strip_empty_iff in E.
    rewrite (lstrip_app _ _ Hl) in E.
    destruct (lstrip command); [congruence|discriminate]. }
  assert (forall s, s <> EmptyString -> is_empty s = false) as Hempty
    by (intros [|? ?]; [congruence|reflexivity]).
  unfold _extract_primary_command.
  rewrite (Hempty _ Hne), (Hempty _ Hne').
  rewrite !truncation_is_first_segment by apply strip_idem.
  rewrite Hseg. reflexivity.
Qed.

Lemma extract_primary_command_ignores_trailing_segments_witness :
  _extract_primary_command ("make -j4 " +:+ "&&" +:+ " make install")
  = _extract_primary_command "make -j4 ".
Proof.
  apply (proj1 extract_primary_command_ignores_trailing_segments).
  - simpl. left. reflexivity.
  - discriminate.
  - intros _. reflexivity.
Defined.

End PreflightFacts.

(** ** Facts about the walk over the tokens *)

Module TokenFacts.
Import PyStr Preflight.

(** The walk returns the first token that is not passed over, and nothing
    when there is none. *)
Lemma first_command_find (tokens : list string) :
  first_command tokens = List.find (fun token => negb (is_assignment token)) tokens.
Proof.
  induction tokens as [|token rest IH]; [reflexivity|].
  cbn [first_command List.find]. unfold is_assignment.
  destruct (contains "=" token && negb (starts_with_quote token));
    [|reflexivity].
  cbn [andb]. destruct (negb (is_empty (split_head "=" token)));
    [exact IH|reflexivity].
Qed.

(** A token that begins with a quote character is never passed over. *)
Lemma first_command_quote_char (token : string) (rest : list string) :
  starts_with_quote token = true -> first_command (token :: rest) = Some token.
Proof.
  intros H. cbn [first_command]. rewrite H, andb_false_r. reflexivity.
Qed.

(** C6. On a command whose first word is a quoted [A=1], the lexer hands
    the walk the token without its quotes, so the walk passes over the
    quoted word as if it were an environment assignment and reports the
    next word, [ls], as the executable. *)
Theorem quoted_assignment_is_skipped :
  Shlex.split quoted_assignment_command = Some ["A=1"; "ls"]
  /\ _extract_primary_command quoted_assignment_command = Some "ls".
Proof. split; reflexivity. Qed.

End TokenFacts.

(** ** Facts about the task runner *)

Module AppFacts.
Import PyStr Tasks Preflight App.

(** While the task [self._running_task] refers to is not done,
    [_start_task] only emits a warning. *)
Lemma start_task_while_running (host : Host) (app : DebIDEApp)
    (task : TaskSpec) (handle : nat) :
  _running_task app = Some handle -> done app handle = false ->
  _start_task host app task = notify "A task is already running" warning app.
Proof.
  intros Hr Hd. unfold _start_task. rewrite Hr, Hd. reflexivity.
Qed.

(** C2. A second task is started after the first has ended but before the
    loop has run the first one's done callback; the callback then clears
    the handle of the second task, and a third task is started while the
    second is still running: two tasks are in flight and no warning was
    emitted. *)
Theorem stale_done_callback_admits_second_task :
  let build := sample_task "build" "make" in
  let test := sample_task "test" "make check" in
  let lint := sample_task "lint" "make lint" in
  let before :=
    run host_with_all
      [StartTask build; TaskEnds 0 (Finished None); StartTask test;
       RunDoneCallback]
      (new_app sample_config) in
  let app := _start_task host_with_all before lint in
  in_flight before = [test]
  /\ _running_task before = None
  /\ in_flight app = [test; lint]
  /\ notifications app = [].
Proof. repeat split; reflexivity. Qed.

(** The autosave leaves the runner's handle and the loop alone and emits
    at most one notification, of an autosave failure. *)
Lemma autosave_first_runner (host : Host) (app : DebIDEApp) :
  let app' := autosave_first host app in
  _running_task app' = _running_task app
  /\ loop_tasks app' = loop_tasks app
  /\ loop_ready app' = loop_ready app
  /\ console_view app' = console_view app
  /\ (notifications app' = notifications app
      \/ exists failure,
           notifications app'
           = notifications app ++ [("Autosave failed: " +:+ failure, error)]).
Proof.
  unfold autosave_first.
  destruct (autosave (config app) && is_dirty (editor app)
            && bool_decide (current_path (editor app) <> None));
    [|repeat split; left; reflexivity].
  destruct (save host (editor app)) as [[failure]|saved]; cbn.
  - repeat split. right. exists failure. reflexivity.
  - repeat split. left. reflexivity.
Qed.

(** With no task running, a first word that is not empty and is not found
    on the search path makes [_start_task] refuse: one log line and one
    error notification name the word, and no task is made. *)
Lemma start_task_refuses_missing (host : Host) (app : DebIDEApp)
    (task : TaskSpec) (missing : string) :
  match _running_task app with
  | Some handle => done app handle = true
  | None => True
  end ->
  _detect_missing_executable host (command task) = Some missing ->
  missing <> EmptyString ->
  _start_task host app task
  = notify (missing_message missing) error
      (_log ("[red]" +:+ missing_message missing +:+ "[/red]")
         (autosave_first host app)).
Proof.
  intros Hidle Hmiss Hne. unfold _start_task.
  assert (match _running_task app with
          | Some handle => negb (done app handle)
          | None => false
          end = false) as ->.
  { destruct (_running_task app); [rewrite Hidle|]; reflexivity. }
  cbv zeta. rewrite Hmiss.
  destruct missing; [congruence|reflexivity].
Qed.

Lemma start_task_tracked (host : Host) (app : DebIDEApp) (task : TaskSpec) :
  loop_ready app = [] -> tracked app -> tracked (_start_task host app task).
Proof.
  intros Hready Htracked. unfold _start_task.
  destruct (match _running_task app with
            | Some handle => negb (done app handle)
            | None => false
            end) eqn:Hguard; [exact Htracked|].
  destruct (autosave_first_runner host app) as (Hr & Ht & Hq & _).
  cbv zeta.
  destruct (truthy (_detect_missing_executable host (command task))).
  - intros handle running Hl Hp. cbn in Hl |- *.
    rewrite Ht in Hl. rewrite Hr, Hq. exact (Htracked handle running Hl Hp).
  - intros handle running Hl Hp. cbn in Hl |- *.
    rewrite Ht in Hl |- *. rewrite Hq.
    apply lookup_app_Some in Hl as [Hl|[Hlen Hl]].
    + exfalso. destruct (Htracked handle running Hl Hp) as [Hrun _].
      rewrite Hrun in Hguard. unfold done in Hguard.
      rewrite Hl, Hp in Hguard. discriminate.
    + apply list_lookup_singleton_Some in Hl as [Hz _].
      split; [f_equal; lia|exact Hready].
Qed.

(** The last lines of [_execute_task] touch the console and the
    notifications only. *)
Lemma report_exit_runner (host : Host) (handle : nat) (task : TaskSpec)
    (app : DebIDEApp) :
  let app' := report_exit host handle task app in
  config app' = config app /\ editor app' = editor app
  /\ _running_task app' = _running_task app
  /\ loop_tasks app' = loop_tasks app /\ loop_ready app' = loop_ready app.
Proof.
  cbv zeta. unfold report_exit.
  destruct (return_code host handle =? 0)%Z; repeat split; reflexivity.
Qed.

Lemma end_task_tracked (host : Host) (handle : nat) (outcome : TaskStatus)
    (app : DebIDEApp) :
  tracked app -> tracked (end_task host handle outcome app).
Proof.
  intros Htracked. unfold end_task.
  destruct (loop_tasks app !! handle) as [ending|] eqn:Hl; [|exact Htracked].
  destruct outcome as [|exception|]; [exact Htracked| |].
  all: unfold done; rewrite Hl.
  all: destruct (task_done ending) eqn:Hp; [exact Htracked|].
  all: intros other running Ho Hq; cbn [loop_tasks _running_task] in Ho |- *.
  1: destruct exception as [exception|].
  2: destruct (report_exit_runner host handle (coro ending) app)
       as (_ & _ & Er & El & _); rewrite El in Ho; rewrite Er.
  all: exfalso.
  all: destruct (Htracked handle ending Hl Hp) as [Hrun _].
  all: apply list_lookup_insert_Some in Ho as [(Heq & Hnew & _)|(Hne & Ho)].
  all: try (rewrite <- Hnew in Hq; discriminate Hq).
  all: destruct (Htracked other running Ho Hq) as [Hrun' _].
  all: rewrite Hrun in Hrun'; injection Hrun' as Hsame; contradiction.
Qed.

Lemma run_done_callback_tracked (app : DebIDEApp) :
  tracked app -> tracked (run_done_callback app).
Proof.
  intros Htracked. unfold run_done_callback.
  destruct (loop_ready app) as [|handle rest] eqn:Hready; [exact Htracked|].
  assert (forall other running,
            loop_tasks app !! other = Some running ->
            task_done running = true) as Hnone.
  { intros other running Ho. destruct (task_done running) eqn:Hq;
      [reflexivity|].
    destruct (Htracked other running Ho Hq) as [_ E]. congruence. }
  intros other running Ho Hq. exfalso.
  assert (loop_tasks app !! other = Some running) as Ho'.
  { unfold _handle_task_completion in Ho. cbn in Ho.
    destruct (status <$> loop_tasks app !! handle)
      as [[|[exception|]|]|]; exact Ho. }
  rewrite (Hnone other running Ho') in Hq. discriminate.
Qed.

(** X14. As long as every start is handled while no done callback is
    waiting, a task in flight is the one the handle refers to, so it is the
    only one, and any further start is turned down with the warning. *)
Lemma single_flight_when_callbacks_run_first (host : Host)
    (config : DebIDEConfig) (events : list Event) :
  prompt host events (new_app config) ->
  let app := run host events (new_app config) in
  forall (handle : nat) (running : AsyncTask),
    loop_tasks app !! handle = Some running -> task_done running = false ->
    _running_task app = Some handle
    /\ forall task,
         _start_task host app task
         = notify "A task is already running" warning app.
Proof.
  intros Hprompt. cbv zeta.
  assert (tracked (run host events (new_app config))) as Htracked.
  { assert (tracked (new_app config)) as H0.
    { intros handle task Hl. destruct handle; discriminate Hl. }
    revert Hprompt H0. generalize (new_app config).
    unfold run. induction events as [|event rest IH]; intros app Hp H0;
      [exact H0|].
    cbn [fold_left]. destruct Hp as [Hnow Hrest]. apply IH; [exact Hrest|].
    destruct event as [task|handle outcome|]; cbn [step].
    - apply start_task_tracked; assumption.
    - apply end_task_tracked, H0.
    - apply run_done_callback_tracked, H0. }
  intros handle running Hl Hp.
  destruct (Htracked handle running Hl Hp) as [Hrun _].
  split; [exact Hrun|]. intros task.
  apply (start_task_while_running host _ task handle Hrun).
  unfold done. rewrite Hl. exact Hp.
Qed.

(** The document's example: the tool is not found, so no task is made,
    and one log line and one error notification name it. *)
Example missing_tool_is_refused :
  let task := sample_task "odd" "nonexistent-tool-xyz --flag" in
  let app := _start_task host_with_none (new_app sample_config) task in
  in_flight app = []
  /\ _running_task app = None
  /\ notifications app
     = [("Command 'nonexistent-tool-xyz' is not available on PATH. "
         +:+ "Check that required packages are installed.", error)]
  /\ length (console_view app) = S (length (console_view (new_app sample_config))).
Proof. repeat split; reflexivity. Qed.

(** C3. A command whose first word is the empty string: the word is not
    found on the search path, yet [_start_task] starts the task and reports
    nothing. *)
Theorem empty_executable_is_started :
  let task := sample_task "odd" "'' --flag" in
  let app := _start_task host_with_none (new_app sample_config) task in
  _extract_primary_command (command task) = Some ""
  /\ _detect_missing_executable host_with_none (command task) = Some ""
  /\ in_flight app = [task]
  /\ notifications app = []
  /\ console_view app = console_view (new_app sample_config).
Proof. repeat split; reflexivity. Qed.

End AppFacts.

(** ** Facts about [coerce_tasks] *)

Module TasksFacts.
Import PyStr Py Tasks.

Lemma is_empty_false (s : string) : s <> EmptyString -> is_empty s = false.
Proof. destruct s; [congruence|reflexivity]. Qed.

Lemma is_empty_true (s : string) : is_empty s = true -> s = EmptyString.
Proof. destruct s; [reflexivity|discriminate]. Qed.

(** The body of the loop accepts an item exactly when the item passes and
    its name is new. *)
Lemma coerce_item_accepts (item : Mapping) (seen : gset string) :
  item_ok item -> item_name item ∉ seen ->
  exists task,
    coerce_item item seen = inr (task, {[item_name item]} ∪ seen)
    /\ name task = item_name item /\ command task = item_command item.
Proof.
  intros (Hn & Hc & He) Hs. unfold coerce_item.
  fold (item_name item) (item_command item) (item_env item).
  rewrite (is_empty_false _ Hn), (is_empty_false _ Hc).
  rewrite bool_decide_eq_false_2 by exact Hs.
  assert (exists shown content,
            or_else (item_env item) empty_dict = PyMapping shown content)
    as (shown & content & ->).
  { unfold or_else. destruct (truth (item_env item)) eqn:Et.
    - specialize (He eq_refl).
      destruct (item_env item); try discriminate. eauto.
    - unfold empty_dict. eauto. }
  eexists. split; [reflexivity|]. split; reflexivity.
Qed.

Lemma coerce_item_accepted (item : Mapping) (seen : gset string)
    (task : TaskSpec) (seen' : gset string) :
  coerce_item item seen = inr (task, seen') ->
  item_ok item /\ (item_name item ∉ seen)
  /\ seen' = {[item_name item]} ∪ seen.
Proof.
  unfold coerce_item.
  fold (item_name item) (item_command item) (item_env item).
  destruct (is_empty (item_name item)) eqn:En; [discriminate|].
  destruct (is_empty (item_command item)) eqn:Ec; [discriminate|].
  destruct (bool_decide (item_name item ∈ seen)) eqn:Es; [discriminate|].
  apply bool_decide_eq_false in Es.
  assert (item_name item <> EmptyString)
    by (intros E; rewrite E in En; discriminate).
  assert (item_command item <> EmptyString)
    by (intros E; rewrite E in Ec; discriminate).
  destruct (or_else (item_env item) empty_dict) eqn:Eo; try discriminate.
  intros [= <- <-]. repeat split; auto.
  intros Et. unfold or_else in Eo. rewrite Et in Eo. rewrite Eo. reflexivity.
Qed.

Lemma acceptable_cons (item : Mapping) (rest : list Mapping)
    (seen : gset string) :
  acceptable (item :: rest) seen
  <-> item_ok item /\ (item_name item ∉ seen)
      /\ acceptable rest ({[item_name item]} ∪ seen).
Proof.
  unfold acceptable. rewrite Forall_cons, fmap_cons, NoDup_cons.
  split.
  - intros ((Hi & Hr) & (Hn & Hd) & Hs).
    split; [exact Hi|]. split; [apply Hs; left|].
    split; [exact Hr|]. split; [exact Hd|].
    intros other Ho. rewrite elem_of_union, elem_of_singleton.
    intros [E|E].
    + apply Hn. rewrite <- E. apply list_elem_of_fmap. eauto.
    + apply (Hs other); [right; exact Ho|exact E].
  - intros (Hi & Hn & Hr & Hd & Hs).
    split; [split; assumption|]. split; [split; [|exact Hd]|].
    + intros Hin. apply list_elem_of_fmap in Hin as (other & E & Ho).
      apply (Hs other Ho). rewrite elem_of_union, elem_of_singleton. left.
      symmetry. exact E.
    + intros other Ho. apply elem_of_cons in Ho as [->|Ho]; [exact Hn|].
      intros E. apply (Hs other Ho). rewrite elem_of_union. right. exact E.
Qed.

Lemma coerce_loop_accepts (items : list Mapping) (tasks : list TaskSpec)
    (seen : gset string) :
  acceptable items seen ->
  exists new,
    coerce_loop items tasks seen = inr (tasks ++ new)
    /\ name <$> new = item_name <$> items
    /\ command <$> new = item_command <$> items.
Proof.
  revert tasks seen. induction items as [|item rest IH]; intros tasks seen H.
  - exists []. rewrite app_nil_r. repeat split.
  - apply acceptable_cons in H as (Hi & Hn & Hr).
    destruct (coerce_item_accepts item seen Hi Hn) as (task & E & En & Ec).
    destruct (IH (tasks ++ [task]) _ Hr) as (new & El & Hnames & Hcommands).
    exists (task :: new). cbn [coerce_loop]. rewrite E, El.
    rewrite <- app_assoc. repeat split.
    + rewrite !fmap_cons. congruence.
    + rewrite !fmap_cons. congruence.
Qed.

Lemma coerce_loop_rejects (items : list Mapping) (tasks : list TaskSpec)
    (seen : gset string) :
  ~ acceptable items seen ->
  exists failure, coerce_loop items tasks seen = inl failure.
Proof.
  revert tasks seen. induction items as [|item rest IH]; intros tasks seen H.
  - exfalso. apply H. repeat split.
    + constructor.
    + constructor.
    + intros item Hin. inversion Hin.
  - cbn [coerce_loop].
    destruct (coerce_item item seen) as [failure|[task seen']] eqn:E; [eauto|].
    apply coerce_item_accepted in E as (Hi & Hn & ->).
    apply IH. intros Hr. apply H, acceptable_cons. auto.
Qed.

(** An [env] that is an empty list is not a mapping, and is accepted. *)
Lemma empty_list_env_is_accepted : ~ rejects_every_non_mapping_env.
Proof.
  intros H.
  destruct (H [[(PyString "name", PyString "build");
                (PyString "command", PyString "make");
                (PyString "env", PyOther "[]" false)]]) as (failure & E).
  - eexists. split; [left|]. split; [discriminate|reflexivity].
  - discriminate.
Qed.

(** A name made of spaces is not empty, yet it is stripped before the
    test and the item is turned down; two names that differ only in
    surrounding spaces count as one. *)
Example blank_name_is_rejected :
  coerce_tasks
    [[(PyString "name", PyString "  "); (PyString "command", PyString "make")]]
  = inl (MkTaskConfigurationError "Task definition missing 'name'")
  /\ coerce_tasks
       [[(PyString "name", PyString "build");
         (PyString "command", PyString "make")];
        [(PyString "name", PyString " build ");
         (PyString "command", PyString "make all")]]
     = inl (MkTaskConfigurationError "Duplicate task name 'build' detected").
Proof. split; reflexivity. Qed.

(** A name given as [None] is not turned down: [str()] makes the text
    [None] of it, and the item becomes a task of that name. *)
Example none_name_becomes_a_task :
  exists task,
    coerce_tasks
      [[(PyString "name", PyNone); (PyString "command", PyString "make")]]
    = inr [task]
    /\ name task = "None".
Proof. eexists. split; reflexivity. Qed.

(** C4. For items none of which gives its name or its command as [None],
    [coerce_tasks] returns tasks exactly when every item has a name and a
    command that are not blank after [strip()], no stripped name occurs
    twice, and every [env] that counts as true in a condition is a
    mapping; it then returns one task per item, in order, under these
    names and commands, all names distinct. In every other case it raises
    a [TaskConfigurationError] and returns no task. Nothing is said of a
    list in which a name or a command is [None]. *)
Theorem coerce_tasks_fails_closed (items : list Mapping) :
  Forall without_none items ->
  (items_ok items ->
   exists tasks,
     coerce_tasks items = inr tasks
     /\ length tasks = length items
     /\ name <$> tasks = item_name <$> items
     /\ command <$> tasks = item_command <$> items
     /\ NoDup (name <$> tasks)
     /\ Forall (fun task => name task <> "" /\ command task <> "") tasks)
  /\ (~ items_ok items -> exists failure, coerce_tasks items = inl failure).
Proof.
  intros _. split.
  - intros (Hall & Hdup).
    destruct (coerce_loop_accepts items [] ∅) as (tasks & E & Hn & Hc).
    { repeat split; auto. intros item _. apply not_elem_of_empty. }
    exists tasks. repeat split; auto.
    + rewrite <- (length_fmap name), Hn, length_fmap. reflexivity.
    + rewrite Hn. exact Hdup.
    + apply Forall_forall. intros task Hin.
      assert (name task ∈ item_name <$> items) as H1
        by (rewrite <- Hn; apply list_elem_of_fmap; eauto).
      assert (exists i, tasks !! i = Some task) as (i & Hi)
        by (apply list_elem_of_lookup; exact Hin).
      assert ((name <$> tasks) !! i = Some (name task)) as Hni
        by (rewrite list_lookup_fmap, Hi; reflexivity).
      assert ((command <$> tasks) !! i = Some (command task)) as Hci
        by (rewrite list_lookup_fmap, Hi; reflexivity).
      rewrite Hn, list_lookup_fmap in Hni.
      rewrite Hc, list_lookup_fmap in Hci.
      destruct (items !! i) as [item|] eqn:Ei; [|discriminate].
      cbn in Hni, Hci. injection Hni as <-. injection Hci as <-.
      assert (item_ok item) as (? & ? & _); [|split; assumption].
      exact (Forall_lookup_1 _ _ _ _ Hall Ei).
  - intros H. apply coerce_loop_rejects. intros (Hall & Hdup & _).
    apply H. split; assumption.
Qed.

Lemma coerce_tasks_fails_closed_witness :
  exists tasks,
    coerce_tasks sample_items = inr tasks
    /\ length tasks = length sample_items
    /\ name <$> tasks = item_name <$> sample_items
    /\ command <$> tasks = item_command <$> sample_items
    /\ NoDup (name <$> tasks)
    /\ Forall (fun task => name task <> "" /\ command task <> "") tasks.
Proof.
  apply (proj1 (coerce_tasks_fails_closed sample_items
                  ltac:(repeat constructor; discriminate))).
  split.
  - apply Forall_cons; split.
    + split; [discriminate|]. split; [discriminate|].
      intros H. discriminate H.
    + apply Forall_cons; split; [|constructor].
      split; [discriminate|]. split; [discriminate|].
      intros _. reflexivity.
  - apply NoDup_cons_2; [|apply NoDup_cons_2; [|apply NoDup_nil_2]].
    + intros H. apply list_elem_of_singleton in H.
      vm_compute in H. discriminate H.
    + apply not_elem_of_nil.
Defined.

End TasksFacts.

(** ** Facts about the message queue of the plugin manager *)

Module MessageFacts.
Import PyStr Py Plugins.

Lemma stored_level_valid (level : string) : stored_level level ∈ levels.
Proof.
  unfold stored_level. destruct (bool_decide (lower level ∈ levels)) eqn:E.
  - apply bool_decide_eq_true in E. exact E.
  - unfold levels. apply elem_of_cons. left. reflexivity.
Qed.

Lemma add_message_messages (m : PluginManager) (source text level : string) :
  _messages (_add_message m source text level)
  = _messages m ++ [message source text level].
Proof. reflexivity. Qed.

Lemma extends_refl (m : PluginManager) : extends m m.
Proof. exists []. rewrite app_nil_r. split; [reflexivity|constructor]. Qed.

Lemma extends_trans (m1 m2 m3 : PluginManager) :
  extends m1 m2 -> extends m2 m3 -> extends m1 m3.
Proof.
  intros (new1 & E1 & H1) (new2 & E2 & H2). exists (new1 ++ new2).
  rewrite E2, E1, app_assoc. split; [reflexivity|].
  apply Forall_app. split; assumption.
Qed.

Lemma extends_same (m m' : PluginManager) :
  _messages m' = _messages m -> extends m m'.
Proof.
  intros E. exists []. rewrite app_nil_r. split; [exact E|constructor].
Qed.

Lemma extends_add_message (m : PluginManager) (source text level : string) :
  extends m (_add_message m source text level).
Proof.
  exists [message source text level]. split; [reflexivity|].
  constructor; [apply stored_level_valid|constructor].
Qed.

Lemma extends_api_call (source : string) (call : ApiCall)
    (m m' : PluginManager) :
  api_call source call m = inr m' -> extends m m'.
Proof.
  destruct call as [mapping|provider|callback|text level]; cbn.
  - destruct mapping; try discriminate. intros [= <-].
    apply extends_same. reflexivity.
  - destruct provider; try discriminate. intros [= <-].
    apply extends_same. reflexivity.
  - destruct callback; try discriminate. intros [= <-].
    apply extends_same. reflexivity.
  - intros [= <-]. apply extends_add_message.
Qed.

Lemma extends_run_calls (source : string) (todo : list ApiCall)
    (m : PluginManager) :
  extends m (fst (run_calls source todo m)).
Proof.
  revert m. induction todo as [|call rest IH]; intros m; cbn.
  - apply extends_refl.
  - destruct (api_call source call m) as [failure|m'] eqn:E.
    + apply extends_refl.
    + eapply extends_trans; [eapply extends_api_call, E|apply IH].
Qed.

Lemma extends_invoke {Result : Type} (source : string)
    (run : Run ApiCall Result) (m : PluginManager) :
  extends m (fst (invoke source run m)).
Proof.
  unfold invoke. pose proof (extends_run_calls source (calls run) m) as H.
  destruct (run_calls source (calls run) m) as [m' [failure|]]; exact H.
Qed.

Lemma extends_activate_plugin (m : PluginManager) (plugin_obj : PluginObject)
    (source : string) :
  extends m (_activate_plugin m plugin_obj source).
Proof.
  unfold _activate_plugin.
  destruct (register_callable plugin_obj) as [register|];
    [|apply extends_add_message].
  pose proof (extends_invoke source register m) as H.
  destruct (invoke source register m) as [m' [failure|[]]]; cbn in H.
  - eapply extends_trans; [exact H|apply extends_add_message].
  - eapply extends_trans; [exact H|].
    eapply extends_trans; [|apply extends_add_message].
    apply extends_same. reflexivity.
Qed.

Lemma extends_discover (entry_points : list EntryPoint) (m : PluginManager) :
  extends m (discover m entry_points).
Proof.
  revert m. induction entry_points as [|[name [failure|plugin_obj]] rest IH];
    intros m; cbn.
  - apply extends_refl.
  - eapply extends_trans; [apply extends_add_message|apply IH].
  - eapply extends_trans; [apply extends_activate_plugin|apply IH].
Qed.

Lemma extends_collect_items (source : string) (items : list PyValue)
    (tasks : list Mapping) (m : PluginManager) :
  extends m (snd (collect_items source items tasks m)).
Proof.
  revert tasks m. induction items as [|item rest IH]; intros tasks m; cbn.
  - apply extends_refl.
  - destruct item; try apply IH;
      (eapply extends_trans; [apply extends_add_message|apply IH]).
Qed.

Lemma extends_collect_loop (providers : list (string * TaskProvider))
    (workspace : string) (tasks : list Mapping) (m : PluginManager)
    (seen : list string) :
  extends m (after (collect_loop providers workspace tasks m seen)).
Proof.
  revert tasks m seen.
  induction providers as [|[source provider] rest IH]; intros tasks m seen;
    cbn [collect_loop].
  - apply extends_refl.
  - pose proof (extends_invoke source (provider workspace) m) as H.
    destruct (invoke source (provider workspace) m)
      as [m' [failure|[|failure|items failure]]]; cbn in H.
    + eapply extends_trans; [exact H|].
      eapply extends_trans; [apply extends_add_message|apply IH].
    + eapply extends_trans; [exact H|apply IH].
    + exact H.
    + pose proof (extends_collect_items source items tasks m') as H'.
      destruct (collect_items source items tasks m') as [tasks' m''].
      cbn in H'. pose proof (extends_trans _ _ _ H H') as H''.
      destruct failure; [exact H''|].
      eapply extends_trans; [exact H''|apply IH].
Qed.

Lemma extends_dispatch_loop (hooks : list (string * AppHook))
    (app : App.DebIDEApp) (m : PluginManager) (seen : list string) :
  extends m (fst (dispatch_loop hooks app m seen)).
Proof.
  revert m seen. induction hooks as [|[source hook] rest IH]; intros m seen;
    cbn [dispatch_loop].
  - apply extends_refl.
  - pose proof (extends_invoke source (hook app) m) as H.
    destruct (invoke source (hook app) m) as [m' [failure|[]]]; cbn in H.
    + eapply extends_trans; [exact H|].
      eapply extends_trans; [apply extends_add_message|apply IH].
    + eapply extends_trans; [exact H|apply IH].
Qed.

Lemma extends_dispatch_app_ready (m : PluginManager) (app : App.DebIDEApp) :
  extends m (fst (dispatch_app_ready m app)).
Proof.
  unfold dispatch_app_ready.
  destruct (_app_hooks_dispatched m); [apply extends_refl|].
  eapply extends_trans; [|apply extends_dispatch_loop].
  apply extends_same. reflexivity.
Qed.

Lemma extends_valid (m m' : PluginManager) :
  extends m m' -> valid_levels m -> valid_levels m'.
Proof.
  intros (new & E & H) Hm. unfold valid_levels. rewrite E.
  apply Forall_app. split; assumption.
Qed.

Lemma perform_valid (m : PluginManager) (operation : Operation) :
  valid_levels m -> valid_levels (perform m operation).
Proof.
  destruct operation as [entry_points|workspace|app|]; cbn [perform].
  - apply extends_valid, extends_discover.
  - apply extends_valid, extends_collect_loop.
  - apply extends_valid, extends_dispatch_app_ready.
  - intros _. constructor.
Qed.

(** C10. [_add_message] appends one message whose level is the lowercased
    level given when that is one of info, warning and error, and info
    otherwise; and the queue of every manager reached from a new one by the
    operations of the manager holds only messages of these three levels. *)
Theorem message_levels_are_valid :
  (forall (m : PluginManager) (source text level : string),
     _messages (_add_message m source text level)
     = _messages m
       ++ [{| source := source;
              level := if bool_decide (lower level ∈ levels)
                       then lower level else "info";
              text := text |}])
  /\ (forall m : PluginManager,
        reachable m ->
        Forall (fun msg => level msg ∈ levels) (_messages m)).
Proof.
  split; [reflexivity|].
  intros m (operations & ->).
  change (valid_levels (fold_left perform operations new_manager)).
  assert (valid_levels new_manager) as H by constructor.
  revert H. generalize new_manager.
  induction operations as [|operation rest IH]; intros m H; [exact H|].
  cbn [fold_left]. apply IH, perform_valid, H.
Qed.

Lemma message_levels_are_valid_witness :
  Forall (fun msg => level msg ∈ levels)
    (_messages (fold_left perform noisy_operations new_manager)).
Proof.
  apply (proj2 message_levels_are_valid).
  exists noisy_operations. reflexivity.
Defined.

Example noisy_levels :
  level <$> _messages (fold_left perform noisy_operations new_manager)
  = ["info"; "warning"; "info"; "error"].
Proof. reflexivity. Qed.

(** *** The queue is only ever appended to

  [prefixed queue m] is [m] with [queue] put in front of its messages. No
  operation but [consume_messages] looks at the queue, so each of them
  does to [prefixed queue m] what it does to [m]. *)

Lemma prefixed_add_message (queue : list PluginMessage) (m : PluginManager)
    (source text level : string) :
  _add_message (prefixed queue m) source text level
  = prefixed queue (_add_message m source text level).
Proof.
  unfold _add_message, prefixed, set_messages. cbn.
  rewrite app_assoc. reflexivity.
Qed.

Lemma prefixed_api_call (queue : list PluginMessage) (source : string)
    (call : ApiCall) (m : PluginManager) :
  api_call source call (prefixed queue m)
  = prefixed_result queue (api_call source call m).
Proof.
  destruct call as [mapping|provider|callback|text level]; cbn.
  - destruct mapping; reflexivity.
  - destruct provider; reflexivity.
  - destruct callback; reflexivity.
  - rewrite prefixed_add_message. reflexivity.
Qed.

Lemma prefixed_run_calls (queue : list PluginMessage) (source : string)
    (todo : list ApiCall) (m : PluginManager) :
  run_calls source todo (prefixed queue m)
  = (prefixed queue (fst (run_calls source todo m)),
     snd (run_calls source todo m)).
Proof.
  revert m. induction todo as [|call rest IH]; intros m; cbn [run_calls].
  - reflexivity.
  - rewrite prefixed_api_call.
    destruct (api_call source call m) as [failure|m']; cbn; [reflexivity|].
    apply IH.
Qed.

Lemma prefixed_invoke {Result : Type} (queue : list PluginMessage)
    (source : string) (run : Run ApiCall Result) (m : PluginManager) :
  invoke source run (prefixed queue m)
  = (prefixed queue (fst (invoke source run m)),
     snd (invoke source run m)).
Proof.
  unfold invoke. rewrite prefixed_run_calls.
  destruct (run_calls source (calls run) m) as [m' [failure|]]; reflexivity.
Qed.

Lemma prefixed_activate_plugin (queue : list PluginMessage)
    (m : PluginManager) (plugin_obj : PluginObject) (source : string) :
  _activate_plugin (prefixed queue m) plugin_obj source
  = prefixed queue (_activate_plugin m plugin_obj source).
Proof.
  unfold _activate_plugin.
  destruct (register_callable plugin_obj) as [register|];
    [|apply prefixed_add_message].
  rewrite prefixed_invoke.
  destruct (invoke source register m) as [m' [failure|[]]]; cbn [fst snd].
  - apply prefixed_add_message.
  - rewrite <- prefixed_add_message. reflexivity.
Qed.

Lemma prefixed_discover (queue : list PluginMessage)
    (entry_points : list EntryPoint) (m : PluginManager) :
  discover (prefixed queue m) entry_points
  = prefixed queue (discover m entry_points).
Proof.
  revert m. induction entry_points as [|[name [failure|plugin_obj]] rest IH];
    intros m; cbn [discover].
  - reflexivity.
  - rewrite prefixed_add_message. apply IH.
  - rewrite prefixed_activate_plugin. apply IH.
Qed.

Lemma prefixed_collect_items (queue : list PluginMessage) (source : string)
    (items : list PyValue) (tasks : list Mapping) (m : PluginManager) :
  collect_items source items tasks (prefixed queue m)
  = (fst (collect_items source items tasks m),
     prefixed queue (snd (collect_items source items tasks m))).
Proof.
  revert tasks m. induction items as [|item rest IH]; intros tasks m;
    cbn [collect_items].
  - reflexivity.
  - destruct item; try apply IH; rewrite prefixed_add_message; apply IH.
Qed.

Lemma prefixed_collect_loop (queue : list PluginMessage)
    (providers : list (string * TaskProvider)) (workspace : string)
    (tasks : list Mapping) (m : PluginManager) (seen : list string) :
  after (collect_loop providers workspace tasks (prefixed queue m) seen)
  = prefixed queue (after (collect_loop providers workspace tasks m seen)).
Proof.
  revert tasks m seen.
  induction providers as [|[source provider] rest IH]; intros tasks m seen;
    cbn [collect_loop].
  - reflexivity.
  - rewrite prefixed_invoke.
    destruct (invoke source (provider workspace) m)
      as [m' [failure|[|failure|items failure]]]; cbn [fst snd].
    + rewrite prefixed_add_message. apply IH.
    + apply IH.
    + reflexivity.
    + rewrite prefixed_collect_items.
      destruct (collect_items source items tasks m') as [tasks' m''].
      cbn [fst snd]. destruct failure; [reflexivity|apply IH].
Qed.

Lemma prefixed_dispatch_loop (queue : list PluginMessage)
    (hooks : list (string * AppHook)) (app : App.DebIDEApp)
    (m : PluginManager) (seen : list string) :
  fst (dispatch_loop hooks app (prefixed queue m) seen)
  = prefixed queue (fst (dispatch_loop hooks app m seen)).
Proof.
  revert m seen. induction hooks as [|[source hook] rest IH]; intros m seen;
    cbn [dispatch_loop].
  - reflexivity.
  - rewrite prefixed_invoke.
    destruct (invoke source (hook app) m) as [m' [failure|[]]];
      cbn [fst snd].
    + rewrite prefixed_add_message. apply IH.
    + apply IH.
Qed.

Lemma prefixed_perform (queue : list PluginMessage) (m : PluginManager)
    (operation : Operation) :
  is_consume operation = false ->
  perform (prefixed queue m) operation = prefixed queue (perform m operation).
Proof.
  destruct operation as [entry_points|workspace|app|]; intros H;
    cbn [perform]; try discriminate.
  - apply prefixed_discover.
  - apply prefixed_collect_loop.
  - unfold dispatch_app_ready.
    change (_app_hooks_dispatched (prefixed queue m))
      with (_app_hooks_dispatched m).
    destruct (_app_hooks_dispatched m); [reflexivity|].
    apply (prefixed_dispatch_loop queue (_app_hooks m) app
             {| _loaded_plugins := _loaded_plugins m;
                _messages := _messages m;
                _static_tasks := _static_tasks m;
                _task_providers := _task_providers m;
                _app_hooks := _app_hooks m;
                _app_hooks_dispatched := true |}).
Qed.

Lemma prefixed_fold_perform (queue : list PluginMessage)
    (operations : list Operation) (m : PluginManager) :
  forallb (fun operation => negb (is_consume operation)) operations = true ->
  fold_left perform operations (prefixed queue m)
  = prefixed queue (fold_left perform operations m).
Proof.
  revert m. induction operations as [|operation rest IH]; intros m H;
    [reflexivity|].
  cbn [forallb] in H. apply andb_true_iff in H as [Ho Hr].
  cbn [fold_left]. rewrite prefixed_perform by (destruct (is_consume operation); [discriminate|reflexivity]).
  apply IH, Hr.
Qed.

Lemma prefixed_drained (m : PluginManager) :
  prefixed (_messages m) (set_messages [] m) = m.
Proof.
  unfold prefixed, set_messages. cbn. rewrite app_nil_r.
  destruct m; reflexivity.
Qed.

(** C9. [consume_messages] returns the whole queue, in order, and leaves
    it empty, so a second call right after returns nothing. When other
    operations of the manager run between two calls, the second call
    returns exactly what has been recorded since the first, and the two
    results together are the queue that would have built up without the
    first call: nothing is lost and nothing is handed out twice. *)
Theorem consume_messages_drains_once (m : PluginManager)
    (operations : list Operation) :
  forallb (fun operation => negb (is_consume operation)) operations = true ->
  let first := fst (consume_messages m) in
  let m1 := snd (consume_messages m) in
  let m2 := fold_left perform operations m1 in
  let second := fst (consume_messages m2) in
  first = _messages m
  /\ _messages m1 = []
  /\ fst (consume_messages m1) = []
  /\ second = _messages m2
  /\ _messages (snd (consume_messages m2)) = []
  /\ first ++ second = _messages (fold_left perform operations m).
Proof.
  intros H. cbn zeta. repeat split.
  cbn [consume_messages fst snd].
  rewrite <- (prefixed_drained m) at 3.
  rewrite (prefixed_fold_perform _ _ _ H). reflexivity.
Qed.

Lemma consume_messages_drains_once_witness :
  let m := fold_left perform noisy_operations new_manager in
  fst (consume_messages m) ++
    fst (consume_messages
           (fold_left perform noisy_operations (snd (consume_messages m))))
  = _messages (fold_left perform noisy_operations m).
Proof.
  apply (consume_messages_drains_once
           (fold_left perform noisy_operations new_manager) noisy_operations).
  reflexivity.
Defined.

End MessageFacts.

(** ** Facts about plugin activation *)

Module ActivationFacts.
Import PyStr Py Plugins.

Lemma contribute_nil (source : string) (m : PluginManager) :
  contribute source [] m = m.
Proof.
  unfold contribute. cbn. rewrite !app_nil_r. destruct m; reflexivity.
Qed.

Lemma contribute_app (source : string) (first second : list ApiCall)
    (m : PluginManager) :
  contribute source (first ++ second) m
  = contribute source second (contribute source first m).
Proof.
  unfold contribute, logged, added_tasks, added_providers, added_hooks.
  cbn. rewrite !flat_map_app, !app_assoc. reflexivity.
Qed.

Lemma api_call_spec (source : string) (call : ApiCall) (m : PluginManager) :
  api_call source call m
  = match rejection call with
    | Some error => inl error
    | None => inr (contribute source [call] m)
    end.
Proof.
  destruct m.
  unfold contribute, logged, added_tasks, added_providers, added_hooks.
  destruct call as [mapping|provider|callback|text level]; cbn.
  - destruct mapping; cbn; rewrite ?app_nil_r; reflexivity.
  - destruct provider; cbn; rewrite ?app_nil_r; reflexivity.
  - destruct callback; cbn; rewrite ?app_nil_r; reflexivity.
  - unfold _add_message, set_messages. cbn.
    rewrite ?app_nil_r. reflexivity.
Qed.

(** Running the calls leaves what the carried-out calls add, and ends
    with the first rejection. *)
Lemma run_calls_spec (source : string) (todo : list ApiCall)
    (m : PluginManager) :
  run_calls source todo m
  = (contribute source (executed todo) m, failure todo).
Proof.
  revert m. induction todo as [|call rest IH]; intros m;
    cbn [run_calls executed failure].
  - rewrite contribute_nil. reflexivity.
  - rewrite api_call_spec. destruct (rejection call) as [error|].
    + rewrite contribute_nil. reflexivity.
    + rewrite IH. change (call :: executed rest) with ([call] ++ executed rest).
      rewrite contribute_app. reflexivity.
Qed.

Lemma invoke_spec {Result : Type} (source : string)
    (run : Run ApiCall Result) (m : PluginManager) :
  invoke source run m
  = (contribute source (executed (calls run)) m, ending run).
Proof.
  unfold invoke, ending. rewrite run_calls_spec.
  destruct (failure (calls run)); reflexivity.
Qed.

(** C7. Activating a plugin whose registration callable raises leaves the
    list of loaded plugins as it was and records, after whatever the
    plugin logged itself, one error message under its source; activating
    one whose callable returns appends the source to the loaded plugins
    and records one info message. Either way the tasks, providers and
    hooks the callable registered before it ended stay registered, and
    [discover] goes on with the next entry point. *)
Theorem activate_plugin_is_not_transactional (m : PluginManager)
    (plugin_obj : PluginObject) (register : Run ApiCall unit)
    (source : string) (rest : list EntryPoint) :
  register_callable plugin_obj = Some register ->
  let made := executed (calls register) in
  let m' := _activate_plugin m plugin_obj source in
  _static_tasks m' = _static_tasks m ++ added_tasks source made
  /\ _task_providers m' = _task_providers m ++ added_providers source made
  /\ _app_hooks m' = _app_hooks m ++ added_hooks source made
  /\ match ending register with
     | inl error =>
         _loaded_plugins m' = _loaded_plugins m
         /\ _messages m'
            = _messages m ++ logged source made
              ++ [{| source := source; level := "error";
                     text := "Plugin raised " +:+ repr_of error
                             +:+ " during registration" |}]
     | inr _ =>
         _loaded_plugins m' = _loaded_plugins m ++ [source]
         /\ _messages m'
            = _messages m ++ logged source made
              ++ [{| source := source; level := "info";
                     text := "Registered plugin" |}]
     end
  /\ discover m ((source, inr plugin_obj) :: rest) = discover m' rest.
Proof.
  intros Hreg. cbn zeta.
  change (discover m ((source, inr plugin_obj) :: rest))
    with (discover (_activate_plugin m plugin_obj source) rest).
  assert (_activate_plugin m plugin_obj source
          = match ending register with
            | inl error =>
                _add_message
                  (contribute source (executed (calls register)) m) source
                  ("Plugin raised " +:+ repr_of error
                   +:+ " during registration") "error"
            | inr _ =>
                _add_message
                  {| _loaded_plugins := _loaded_plugins m ++ [source];
                     _messages :=
                       _messages m
                       ++ logged source (executed (calls register));
                     _static_tasks :=
                       _static_tasks m
                       ++ added_tasks source (executed (calls register));
                     _task_providers :=
                       _task_providers m
                       ++ added_providers source (executed (calls register));
                     _app_hooks :=
                       _app_hooks m
                       ++ added_hooks source (executed (calls register));
                     _app_hooks_dispatched := _app_hooks_dispatched m |}
                  source "Registered plugin" "info"
            end) as ->.
  { unfold _activate_plugin. rewrite Hreg, invoke_spec.
    destruct (ending register) as [error|[]]; reflexivity. }
  destruct (ending register) as [error|[]]; cbn; rewrite <- ?app_assoc;
    repeat split; reflexivity.
Qed.

Lemma activate_plugin_is_not_transactional_witness :
  let m' := _activate_plugin new_manager half_done_plugin "half" in
  _static_tasks m' = added_tasks "half" (calls half_done_register)
  /\ _task_providers m' = [("half", lint_provider)]
  /\ _loaded_plugins m' = []
  /\ length (_messages m') = 2.
Proof.
  destruct (activate_plugin_is_not_transactional new_manager half_done_plugin
              half_done_register "half" [] eq_refl)
    as (H1 & H2 & _ & (H4 & H5) & _).
  split; [exact H1|]. split; [exact H2|]. split; [exact H4|].
  rewrite H5. reflexivity.
Defined.

End ActivationFacts.

(** ** Facts about the callbacks of plugins *)

Module CallbackFacts.
Import PyStr Py Plugins ActivationFacts.

Lemma messages_add_message (m : PluginManager) (name text level : string) :
  _messages (_add_message m name text level)
  = _messages m ++ [message name text level].
Proof. reflexivity. Qed.

Lemma messages_contribute (name : string) (todo : list ApiCall)
    (m : PluginManager) :
  _messages (contribute name todo m) = _messages m ++ logged name todo.
Proof. reflexivity. Qed.

Lemma dispatch_loop_spec (hooks : list (string * AppHook))
    (app : App.DebIDEApp) (m : PluginManager) (seen : list string) :
  snd (dispatch_loop hooks app m seen) = seen ++ map fst hooks
  /\ _messages (fst (dispatch_loop hooks app m seen))
     = _messages m ++ flat_map (hook_messages app) hooks
  /\ _app_hooks_dispatched (fst (dispatch_loop hooks app m seen))
     = _app_hooks_dispatched m.
Proof.
  revert m seen. induction hooks as [|[name hook] rest IH]; intros m seen;
    cbn [dispatch_loop].
  - cbn [map flat_map fst snd]. rewrite !app_nil_r. repeat split.
  - rewrite invoke_spec. cbn [map flat_map fst]. unfold hook_messages at 1.
    cbn [fst snd].
    destruct (ending (hook app)) as [error|[]].
    + destruct (IH (_add_message
                      (contribute name (executed (calls (hook app))) m) name
                      ("App hook raised " +:+ repr_of error) "error")
                   (seen ++ [name])) as (H1 & H2 & H3).
      rewrite H1, H2, H3, messages_add_message, messages_contribute.
      rewrite <- !app_assoc. repeat split.
    + destruct (IH (contribute name (executed (calls (hook app))) m)
                   (seen ++ [name])) as (H1 & H2 & H3).
      rewrite H1, H2, H3, messages_contribute.
      rewrite <- !app_assoc. repeat split.
Qed.

(** C8. The first call of [dispatch_app_ready] calls every registered
    hook once, in registration order, whether or not earlier hooks
    raised, and records one error message for each hook that raised;
    any later call changes nothing and calls no hook. *)
Theorem dispatch_app_ready_runs_hooks_once (m : PluginManager)
    (app again : App.DebIDEApp) :
  let first := dispatch_app_ready m app in
  (_app_hooks_dispatched m = false ->
   snd first = map fst (_app_hooks m)
   /\ _messages (fst first)
      = _messages m ++ flat_map (hook_messages app) (_app_hooks m))
  /\ (_app_hooks_dispatched m = true -> first = (m, []))
  /\ dispatch_app_ready (fst first) again = (fst first, []).
Proof.
  cbn zeta. destruct (_app_hooks_dispatched m) eqn:E.
  - assert (dispatch_app_ready m app = (m, [])) as ->
      by (unfold dispatch_app_ready; rewrite E; reflexivity).
    split; [discriminate|]. split; [reflexivity|].
    cbn [fst]. unfold dispatch_app_ready. rewrite E. reflexivity.
  - set (started :=
           {| _loaded_plugins := _loaded_plugins m;
              _messages := _messages m; _static_tasks := _static_tasks m;
              _task_providers := _task_providers m;
              _app_hooks := _app_hooks m; _app_hooks_dispatched := true |}).
    assert (dispatch_app_ready m app
            = dispatch_loop (_app_hooks m) app started []) as ->
      by (unfold dispatch_app_ready; rewrite E; reflexivity).
    destruct (dispatch_loop_spec (_app_hooks m) app started [])
      as (H1 & H2 & H3).
    split; [intros _; split; [exact H1|exact H2]|].
    split; [discriminate|].
    unfold dispatch_app_ready. rewrite H3. reflexivity.
Qed.

Lemma dispatch_app_ready_runs_hooks_once_witness :
  snd (dispatch_app_ready two_hooks sample_app) = ["bad"; "good"]
  /\ _messages (fst (dispatch_app_ready two_hooks sample_app))
     = [{| source := "bad"; level := "error";
           text := "App hook raised RuntimeError('boom')" |};
        {| source := "good"; level := "info"; text := "ready" |}].
Proof.
  apply (proj1 (dispatch_app_ready_runs_hooks_once two_hooks sample_app
                  sample_app)).
  reflexivity.
Defined.

Lemma collect_items_spec (name : string) (items : list PyValue)
    (tasks : list Mapping) (m : PluginManager) :
  collect_items name items tasks m
  = (tasks ++ mappings_of items,
     set_messages (_messages m ++ item_errors name items) m).
Proof.
  revert tasks m. induction items as [|item rest IH]; intros tasks m.
  - cbn [collect_items mappings_of item_errors flat_map].
    rewrite !app_nil_r. destruct m; reflexivity.
  - destruct item; cbn [collect_items]; rewrite IH;
      unfold mappings_of, item_errors; cbn [flat_map];
      rewrite ?messages_add_message; unfold _add_message, set_messages;
      cbn [_loaded_plugins _messages _static_tasks _task_providers
           _app_hooks _app_hooks_dispatched app];
      rewrite <- ?app_assoc; reflexivity.
Qed.

Lemma collect_loop_spec (providers : list (string * TaskProvider))
    (workspace : string) (tasks : list Mapping) (m : PluginManager)
    (seen : list string) :
  Forall (fun entry => iterates (ending (snd entry workspace))) providers ->
  let collected := collect_loop providers workspace tasks m seen in
  outcome collected
  = inr (tasks ++ flat_map (provider_tasks workspace) providers)
  /\ called collected = seen ++ map fst providers
  /\ _messages (after collected)
     = _messages m ++ flat_map (provider_messages workspace) providers.
Proof.
  cbn zeta. revert tasks m seen.
  induction providers as [|[name provider] rest IH]; intros tasks m seen Hall.
  - cbn [collect_loop outcome called after map flat_map].
    rewrite !app_nil_r. repeat split.
  - apply Forall_cons in Hall as [Hfirst Hrest]. cbn [snd] in Hfirst.
    cbn [collect_loop]. rewrite invoke_spec.
    cbn [map flat_map fst]. unfold provider_tasks at 1.
    unfold provider_messages at 1. cbn [fst snd].
    destruct (ending (provider workspace))
      as [error|[|error|items [error|]]]; cbn [iterates] in Hfirst;
      try contradiction.
    + destruct (IH tasks
                  (_add_message
                     (contribute name (executed (calls (provider workspace))) m)
                     name ("Task provider raised " +:+ repr_of error) "error")
                  (seen ++ [name]) Hrest) as (H1 & H2 & H3).
      rewrite H1, H2, H3, messages_add_message, messages_contribute.
      rewrite <- !app_assoc. repeat split.
    + destruct (IH tasks
                  (contribute name (executed (calls (provider workspace))) m)
                  (seen ++ [name]) Hrest) as (H1 & H2 & H3).
      rewrite H1, H2, H3, messages_contribute.
      rewrite <- !app_assoc. repeat split.
    + rewrite collect_items_spec.
      destruct (IH (tasks ++ mappings_of items)
                  (set_messages
                     (_messages
                        (contribute name
                           (executed (calls (provider workspace))) m)
                      ++ item_errors name items)
                     (contribute name (executed (calls (provider workspace))) m))
                  (seen ++ [name]) Hrest) as (H1 & H2 & H3).
      rewrite H1, H2, H3.
      change (_messages (set_messages ?q ?x)) with q.
      rewrite messages_contribute.
      rewrite <- !app_assoc. repeat split.
Qed.

(** The provider above fails, yet its mapping is returned and two error
    messages are recorded. *)
Lemma mixed_items_are_not_bounded_as_stated : ~ failure_bounded_as_stated.
Proof.
  intros H.
  destruct (H "mixed" mixed_provider "/work") as (Hout & Hcount).
  - cbn. apply Exists_cons_tl, Exists_cons_hd. reflexivity.
  - discriminate Hout.
Qed.

(** A provider that hands back something that cannot be iterated: the
    exception of the [for] statement leaves [collect_tasks], and nothing is
    recorded. *)
Lemma non_iterable_return_escapes (name workspace : string)
    (error : PyException) :
  let provider : TaskProvider :=
    fun _ => {| calls := []; result := inr (NotIterable error) |} in
  let collected := collect_tasks (with_provider name provider) workspace in
  outcome collected = inl error /\ _messages (after collected) = [].
Proof. split; reflexivity. Qed.

(** C1. When every registered provider either raises, returns [None], or
    returns something that can be iterated to its end, [collect_tasks]
    returns normally and calls every provider in registration order. The
    list returned is the static tasks followed, provider by provider, by
    the mappings that provider yielded: nothing for a provider that raised
    or returned [None], and for the others every yielded mapping, the
    items that are not mappings being left out. The messages recorded
    are, provider by provider, what the provider logged itself, then one
    error message under its source if it raised, or one error message
    under its source for each yielded item that is not a mapping. *)
Theorem collect_tasks_bounds_provider_failures (m : PluginManager)
    (workspace : string) :
  Forall (fun entry => iterates (ending (snd entry workspace)))
    (_task_providers m) ->
  let collected := collect_tasks m workspace in
  outcome collected
  = inr (map snd (_static_tasks m)
         ++ flat_map (provider_tasks workspace) (_task_providers m))
  /\ called collected = map fst (_task_providers m)
  /\ _messages (after collected)
     = _messages m
       ++ flat_map (provider_messages workspace) (_task_providers m).
Proof.
  intros Hall. apply (collect_loop_spec _ _ _ _ [] Hall).
Qed.

Lemma collect_tasks_bounds_provider_failures_witness :
  let collected := collect_tasks two_providers "/work" in
  outcome collected
  = inr [build_items;
         [(PyString "name", PyString "lint");
          (PyString "command", PyString "flake8")]]
  /\ called collected = ["bad"; "good"]
  /\ _messages (after collected)
     = [{| source := "bad"; level := "error";
           text := "Task provider raised RuntimeError('boom')" |}].
Proof.
  apply (collect_tasks_bounds_provider_failures two_providers "/work").
  apply Forall_cons. split; [exact I|].
  apply Forall_cons. split; [exact I|]. constructor.
Defined.

End CallbackFacts.

(** ** Discovery and registrations *)

Module RegistryFacts.
Import PyStr Py Plugins Registry ActivationFacts CallbackFacts.

Lemma activate_plugin_spec (m : PluginManager) (plugin_obj : PluginObject)
    (name : string) :
  let entry : EntryPoint := (name, inr plugin_obj) in
  let m' := _activate_plugin m plugin_obj name in
  _loaded_plugins m'
  = _loaded_plugins m ++ (if activates entry then [name] else [])
  /\ _messages m' = _messages m ++ entry_messages entry
  /\ _static_tasks m' = _static_tasks m ++ added_tasks name (registered entry)
  /\ _task_providers m'
     = _task_providers m ++ added_providers name (registered entry)
  /\ _app_hooks m' = _app_hooks m ++ added_hooks name (registered entry)
  /\ _app_hooks_dispatched m' = _app_hooks_dispatched m.
Proof.
  unfold _activate_plugin, activates, entry_messages, verdict, registered.
  cbn [fst snd].
  destruct (register_callable plugin_obj) as [register|].
  - rewrite invoke_spec. destruct (ending register) as [failure|[]].
    + rewrite messages_add_message. cbn.
      rewrite !app_nil_r, <- app_assoc. repeat split; reflexivity.
    + rewrite messages_add_message. cbn.
      rewrite <- app_assoc. repeat split; reflexivity.
  - rewrite messages_add_message. cbn. rewrite !app_nil_r.
    repeat split; reflexivity.
Qed.


(** X1. [discover] takes the entry points one by one, and one that fails
    does not stop the others. The loaded plugins grow by the names of the
    entry points that load, have a callable to register with and whose
    registration returns, in order; the queue grows, for each entry point in
    turn, by what its plugin logged and then by one message of the manager
    about it; tasks, providers and hooks grow by what each registration
    added before it ended; the dispatch flag stays as it was. *)
Theorem discover_isolates_entry_points (m : PluginManager)
    (entry_points : list EntryPoint) :
  let m' := discover m entry_points in
  _loaded_plugins m'
  = _loaded_plugins m ++ map fst (List.filter activates entry_points)
  /\ _messages m' = _messages m ++ flat_map entry_messages entry_points
  /\ _static_tasks m'
     = _static_tasks m
       ++ flat_map (fun entry => added_tasks (fst entry) (registered entry))
            entry_points
  /\ _task_providers m'
     = _task_providers m
       ++ flat_map (fun entry => added_providers (fst entry) (registered entry))
            entry_points
  /\ _app_hooks m'
     = _app_hooks m
       ++ flat_map (fun entry => added_hooks (fst entry) (registered entry))
            entry_points
  /\ _app_hooks_dispatched m' = _app_hooks_dispatched m.
Proof.
  revert m. induction entry_points as [|[name load] rest IH]; intros m.
  - cbn. rewrite !app_nil_r. repeat split; reflexivity.
  - destruct load as [failure|plugin_obj].
    + cbn [discover]. cbn zeta in IH.
      destruct (IH (_add_message m name
                      ("Failed to import plugin: " +:+ repr_of failure) "error"))
        as (H1 & H2 & H3 & H4 & H5 & H6).
      cbn zeta. rewrite H1, H2, H3, H4, H5, H6, messages_add_message.
      cbn [List.filter activates snd fst flat_map entry_messages registered
           logged added_tasks added_providers added_hooks verdict app].
      rewrite <- !app_assoc. repeat split; reflexivity.
    + cbn [discover]. cbn zeta in IH.
      destruct (IH (_activate_plugin m plugin_obj name))
        as (H1 & H2 & H3 & H4 & H5 & H6).
      destruct (activate_plugin_spec m plugin_obj name)
        as (A1 & A2 & A3 & A4 & A5 & A6).
      cbn zeta. rewrite H1, H2, H3, H4, H5, H6, A1, A2, A3, A4, A5, A6.
      cbn [List.filter flat_map fst].
      rewrite <- !app_assoc.
      destruct (activates (name, inr plugin_obj)); repeat split; reflexivity.
Qed.

Lemma keeps_refl (m : PluginManager) : keeps m m.
Proof. unfold keeps. repeat split; auto. Qed.

Lemma keeps_trans (m1 m2 m3 : PluginManager) :
  keeps m1 m2 -> keeps m2 m3 -> keeps m1 m3.
Proof.
  intros (A1 & A2 & A3 & A4 & A5) (B1 & B2 & B3 & B4 & B5).
  unfold keeps. repeat split; try (etrans; eassumption). auto.
Qed.

Lemma keeps_add_message (m : PluginManager) (name text level : string) :
  keeps m (_add_message m name text level).
Proof. unfold keeps. cbn. repeat split; auto. Qed.

Lemma keeps_contribute (name : string) (todo : list ApiCall)
    (m : PluginManager) :
  keeps m (contribute name todo m).
Proof.
  unfold keeps. cbn. repeat split; auto; apply prefix_app_r; reflexivity.
Qed.

Lemma keeps_invoke {Result : Type} (name : string)
    (run : Run ApiCall Result) (m : PluginManager) :
  keeps m (fst (invoke name run m)).
Proof. rewrite invoke_spec. apply keeps_contribute. Qed.

Lemma keeps_activate_plugin (m : PluginManager) (plugin_obj : PluginObject)
    (name : string) :
  keeps m (_activate_plugin m plugin_obj name).
Proof.
  destruct (activate_plugin_spec m plugin_obj name)
    as (A1 & A2 & A3 & A4 & A5 & A6).
  unfold keeps. rewrite A1, A3, A4, A5, A6.
  repeat split; auto; apply prefix_app_r; reflexivity.
Qed.

Lemma keeps_discover (entry_points : list EntryPoint) (m : PluginManager) :
  keeps m (discover m entry_points).
Proof.
  revert m. induction entry_points as [|[name [failure|plugin_obj]] rest IH];
    intros m; cbn [discover].
  - apply keeps_refl.
  - eapply keeps_trans; [apply keeps_add_message | apply IH].
  - eapply keeps_trans; [apply keeps_activate_plugin | apply IH].
Qed.

Lemma keeps_set_messages (queue : list PluginMessage) (m : PluginManager) :
  keeps m (set_messages queue m).
Proof. unfold keeps. cbn. repeat split; auto. Qed.

Lemma keeps_collect_loop (providers : list (string * TaskProvider))
    (workspace : string) (tasks : list Mapping) (m : PluginManager)
    (seen : list string) :
  keeps m (after (collect_loop providers workspace tasks m seen)).
Proof.
  revert tasks m seen.
  induction providers as [|[name provider] rest IH]; intros tasks m seen.
  - apply keeps_refl.
  - cbn [collect_loop]. rewrite invoke_spec.
    pose proof (keeps_contribute name (executed (calls (provider workspace))) m)
      as Hc.
    destruct (ending (provider workspace)) as [failure|[|failure|items failure]].
    + eapply keeps_trans; [exact Hc|].
      eapply keeps_trans; [apply keeps_add_message | apply IH].
    + eapply keeps_trans; [exact Hc | apply IH].
    + exact Hc.
    + rewrite collect_items_spec.
      destruct failure as [failure|]; cbn [after].
      * eapply keeps_trans; [exact Hc | apply keeps_set_messages].
      * eapply keeps_trans; [exact Hc|].
        eapply keeps_trans; [apply keeps_set_messages | apply IH].
Qed.

Lemma keeps_dispatch_loop (hooks : list (string * AppHook))
    (app : App.DebIDEApp) (m : PluginManager) (seen : list string) :
  keeps m (fst (dispatch_loop hooks app m seen)).
Proof.
  revert m seen. induction hooks as [|[name hook] rest IH]; intros m seen.
  - apply keeps_refl.
  - cbn [dispatch_loop]. rewrite invoke_spec.
    pose proof (keeps_contribute name (executed (calls (hook app))) m) as Hc.
    destruct (ending (hook app)) as [failure|[]].
    + eapply keeps_trans; [exact Hc|].
      eapply keeps_trans; [apply keeps_add_message | apply IH].
    + eapply keeps_trans; [exact Hc | apply IH].
Qed.

Lemma keeps_perform (m : PluginManager) (operation : Operation) :
  keeps m (perform m operation).
Proof.
  destruct operation as [entry_points|workspace|app|]; cbn [perform].
  - apply keeps_discover.
  - apply keeps_collect_loop.
  - unfold dispatch_app_ready.
    destruct (_app_hooks_dispatched m) eqn:E; [apply keeps_refl|].
    eapply keeps_trans; [|apply keeps_dispatch_loop].
    unfold keeps. cbn. repeat split; auto.
  - apply keeps_set_messages.
Qed.

Lemma keeps_fold_perform (operations : list Operation) (m : PluginManager) :
  keeps m (fold_left perform operations m).
Proof.
  revert m. induction operations as [|operation rest IH]; intros m.
  - apply keeps_refl.
  - cbn [fold_left]. eapply keeps_trans; [apply keeps_perform | apply IH].
Qed.

Lemma dispatched_after_dispatch (m : PluginManager) (app : App.DebIDEApp) :
  _app_hooks_dispatched (fst (dispatch_app_ready m app)) = true.
Proof.
  unfold dispatch_app_ready.
  destruct (_app_hooks_dispatched m) eqn:E; [exact E|].
  match goal with
  | |- context [dispatch_loop ?h ?a ?m0 ?s] =>
      destruct (dispatch_loop_spec h a m0 s) as (_ & _ & ->)
  end.
  reflexivity.
Qed.

(** X2. No public operation of the manager drops or reorders a
    registration: after any sequence of [discover], [collect_tasks],
    [dispatch_app_ready] and [consume_messages], the loaded plugins, the
    static tasks, the task providers and the app hooks each begin with what
    they held before. *)
Theorem registrations_are_never_dropped (m : PluginManager)
    (operations : list Operation) :
  let m' := fold_left perform operations m in
  _loaded_plugins m `prefix_of` _loaded_plugins m'
  /\ _static_tasks m `prefix_of` _static_tasks m'
  /\ _task_providers m `prefix_of` _task_providers m'
  /\ _app_hooks m `prefix_of` _app_hooks m'.
Proof.
  destruct (keeps_fold_perform operations m) as (H1 & H2 & H3 & H4 & _).
  repeat split; assumption.
Qed.

(** X3. Once [dispatch_app_ready] has been called, no later call runs a
    hook, whatever operations come in between: the flag it sets is never
    cleared. A hook registered by a plugin that is discovered after the
    first dispatch is stored and never called. *)
Theorem hooks_registered_after_dispatch_never_run :
  (forall (m : PluginManager) (app : App.DebIDEApp)
          (operations : list Operation) (later : App.DebIDEApp),
     let m' :=
       fold_left perform operations (fst (dispatch_app_ready m app)) in
     dispatch_app_ready m' later = (m', []))
  /\ (let m' :=
        fold_left perform [Discover [("late", inr late_plugin)]]
          (fst (dispatch_app_ready new_manager sample_app)) in
      map fst (_app_hooks m') = ["late"]
      /\ snd (dispatch_app_ready m' sample_app) = []).
Proof.
  split.
  - intros m app operations later m'.
    assert (_app_hooks_dispatched m' = true) as E.
    { apply (keeps_fold_perform operations (fst (dispatch_app_ready m app))).
      apply dispatched_after_dispatch. }
    unfold dispatch_app_ready. rewrite E. reflexivity.
  - vm_compute. split; reflexivity.
Qed.

(** X4. Whatever calls a callable of a plugin makes on its [PluginAPI],
    they only append to the manager, and every message, static task, task
    provider and app hook they append carries the source the API was made
    for; the loaded plugins and the dispatch flag are not touched. *)
Theorem api_contributions_carry_the_source {Result : Type} (name : string)
    (run : Run ApiCall Result) (m : PluginManager) :
  let m' := fst (invoke name run m) in
  exists messages tasks providers hooks,
    _messages m' = _messages m ++ messages
    /\ _static_tasks m' = _static_tasks m ++ tasks
    /\ _task_providers m' = _task_providers m ++ providers
    /\ _app_hooks m' = _app_hooks m ++ hooks
    /\ Forall (fun msg => source msg = name) messages
    /\ Forall (fun entry => fst entry = name) tasks
    /\ Forall (fun entry => fst entry = name) providers
    /\ Forall (fun entry => fst entry = name) hooks
    /\ _loaded_plugins m' = _loaded_plugins m
    /\ _app_hooks_dispatched m' = _app_hooks_dispatched m.
Proof.
  cbn zeta. rewrite invoke_spec. cbn [fst].
  set (made := executed (calls run)).
  exists (logged name made), (added_tasks name made),
    (added_providers name made), (added_hooks name made).
  repeat split; try reflexivity.
  - induction made as [|[mapping|provider|callback|text level] rest IH];
      cbn; auto.
  - induction made as [|[[]|provider|callback|text level] rest IH];
      cbn; auto.
  - induction made as [|[mapping|[provider|]|callback|text level] rest IH];
      cbn; auto.
  - induction made as [|[mapping|provider|[callback|]|text level] rest IH];
      cbn; auto.
Qed.

End RegistryFacts.

(** ** More on [coerce_tasks] *)

Module ValidationFacts.
Import PyStr PyStrFacts Py Tasks TasksFacts Validation.

Lemma coerce_item_fields (item : Mapping) (seen : gset string)
    (task : TaskSpec) (seen' : gset string) :
  coerce_item item seen = inr (task, seen') ->
  name task = item_name item /\ command task = item_command item
  /\ seen' = {[item_name item]} ∪ seen
  /\ description task
     = strip (str (or_else (get item "description" (PyString ""))
                     (PyString "")))
  /\ exists shown content,
       or_else (item_env item) empty_dict = PyMapping shown content
       /\ env task = coerce_env content.
Proof.
  unfold coerce_item.
  fold (item_name item) (item_command item) (item_env item).
  destruct (is_empty (item_name item)); [discriminate|].
  destruct (is_empty (item_command item)); [discriminate|].
  destruct (bool_decide (item_name item ∈ seen)); [discriminate|].
  destruct (or_else (item_env item) empty_dict) eqn:Eo; try discriminate.
  intros [= <- <-]. cbn. repeat split; eauto.
Qed.

Lemma coerce_loop_app_raises (first rest : list Mapping)
    (tasks : list TaskSpec) (seen : gset string)
    (failure : TaskConfigurationError) :
  coerce_loop first tasks seen = inl failure ->
  coerce_loop (first ++ rest) tasks seen = inl failure.
Proof.
  revert tasks seen. induction first as [|item more IH]; intros tasks seen.
  - discriminate.
  - cbn [coerce_loop app].
    destruct (coerce_item item seen) as [e|[task seen']]; [trivial|]. apply IH.
Qed.

Lemma coerce_loop_grows (items : list Mapping) (tasks : list TaskSpec)
    (seen : gset string) (result : list TaskSpec) :
  coerce_loop items tasks seen = inr result ->
  exists new, result = tasks ++ new /\ length new = length items.
Proof.
  revert tasks seen. induction items as [|item more IH]; intros tasks seen.
  - intros [= <-]. exists []. rewrite app_nil_r. auto.
  - cbn [coerce_loop].
    destruct (coerce_item item seen) as [e|[task seen']]; [discriminate|].
    intros H. apply IH in H as (new & -> & Hl).
    exists (task :: new). rewrite <- app_assoc. cbn. auto.
Qed.

Lemma coerce_loop_app_returns (first rest : list Mapping)
    (tasks : list TaskSpec) (seen : gset string) (result : list TaskSpec) :
  coerce_loop (first ++ rest) tasks seen = inr result ->
  coerce_loop first tasks seen
  = inr (take (length tasks + length first) result).
Proof.
  revert tasks seen. induction first as [|item more IH]; intros tasks seen.
  - cbn [app coerce_loop]. intros H.
    apply coerce_loop_grows in H as (new & -> & _).
    rewrite Nat.add_0_r, take_app_length. reflexivity.
  - cbn [coerce_loop app].
    destruct (coerce_item item seen) as [e|[task seen']]; [discriminate|].
    intros H. rewrite (IH _ _ H). rewrite length_app. cbn [length].
    do 2 f_equal. lia.
Qed.

Lemma coerce_loop_continues (first rest : list Mapping)
    (tasks : list TaskSpec) (seen : gset string) (result : list TaskSpec) :
  seen = list_to_set (name <$> tasks) ->
  coerce_loop first tasks seen = inr result ->
  coerce_loop (first ++ rest) tasks seen
  = coerce_loop rest result (list_to_set (name <$> result)).
Proof.
  revert tasks seen. induction first as [|item more IH]; intros tasks seen Hs.
  - intros [= <-]. rewrite Hs. reflexivity.
  - cbn [coerce_loop app].
    destruct (coerce_item item seen) as [e|[task seen']] eqn:E; [discriminate|].
    apply coerce_item_fields in E as (En & _ & -> & _).
    apply IH. rewrite fmap_app, list_to_set_app_L, Hs. cbn. rewrite En.
    rewrite union_empty_r_L. apply union_comm_L.
Qed.

(** X5. [coerce_tasks] stops at the first item it rejects: an error
    raised for a list is raised, unchanged, for that list followed by any
    further items, and when a longer list is accepted, the tasks returned
    for a front part of it are the front part of the tasks returned for the
    whole. *)
Theorem coerce_tasks_stops_at_first_failure (first rest : list Mapping) :
  (forall failure,
     coerce_tasks first = inl failure ->
     coerce_tasks (first ++ rest) = inl failure)
  /\ (forall tasks,
        coerce_tasks (first ++ rest) = inr tasks ->
        coerce_tasks first = inr (take (length first) tasks)).
Proof.
  unfold coerce_tasks. split.
  - intros failure. apply coerce_loop_app_raises.
  - intros tasks H. apply coerce_loop_app_returns in H. exact H.
Qed.

Lemma coerce_tasks_stops_at_first_failure_witness :
  coerce_tasks ([[(PyString "name", PyString "  ")]] ++ sample_items)
  = inl (MkTaskConfigurationError "Task definition missing 'name'")
  /\ coerce_tasks (take 1 sample_items)
     = inr (take 1 (accepted_tasks sample_items)).
Proof.
  split.
  - apply (proj1 (coerce_tasks_stops_at_first_failure
                    [[(PyString "name", PyString "  ")]] sample_items)).
    reflexivity.
  - apply (proj2 (coerce_tasks_stops_at_first_failure
                    (take 1 sample_items) (drop 1 sample_items))).
    vm_compute. reflexivity.
Defined.

(** X6. The error [coerce_tasks] raises for the first item it rejects,
    after items it accepted: a blank name is reported before anything else,
    then a blank command, then a name (compared after [str()] and
    [strip()]) that an accepted task already has, then an [env] that is
    true in a condition and not a mapping. *)
Theorem coerce_tasks_error_precedence (accepted : list Mapping)
    (item : Mapping) (rest : list Mapping) (tasks : list TaskSpec) :
  coerce_tasks accepted = inr tasks ->
  let outcome := coerce_tasks (accepted ++ item :: rest) in
  let raises text := outcome = inl (MkTaskConfigurationError text) in
  (item_name item = "" -> raises "Task definition missing 'name'")
  /\ (item_name item <> "" -> item_command item = "" ->
      raises ("Task '" +:+ item_name item +:+ "' missing 'command'"))
  /\ (item_name item <> "" -> item_command item <> "" ->
      item_name item ∈ name <$> tasks ->
      raises ("Duplicate task name '" +:+ item_name item +:+ "' detected"))
  /\ (item_name item <> "" -> item_command item <> "" ->
      item_name item ∉ name <$> tasks ->
      truth (item_env item) = true -> is_mapping (item_env item) = false ->
      raises ("Task '" +:+ item_name item
              +:+ "' provided 'env' but it is not a mapping")).
Proof.
  intros Ha outcome raises. subst raises outcome. cbv beta.
  unfold coerce_tasks in *.
  rewrite (coerce_loop_continues accepted (item :: rest) [] ∅ tasks)
    by (reflexivity || exact Ha).
  cbn [coerce_loop]. unfold coerce_item.
  fold (item_name item) (item_command item) (item_env item).
  split; [|split; [|split]].
  - intros ->. reflexivity.
  - intros Hn ->. rewrite (is_empty_false _ Hn). reflexivity.
  - intros Hn Hc Hd. rewrite (is_empty_false _ Hn), (is_empty_false _ Hc).
    rewrite bool_decide_eq_true_2 by (apply elem_of_list_to_set; exact Hd).
    reflexivity.
  - intros Hn Hc Hd Ht Hm.
    rewrite (is_empty_false _ Hn), (is_empty_false _ Hc).
    rewrite bool_decide_eq_false_2
      by (intros Hin; apply Hd; apply elem_of_list_to_set in Hin; exact Hin).
    unfold or_else. rewrite Ht.
    destruct (item_env item); try discriminate; reflexivity.
Qed.

Lemma coerce_tasks_error_precedence_witness :
  coerce_tasks
    (sample_items
     ++ [(PyString "name", PyString " test ");
         (PyString "command", PyString "true")] :: [])
  = inl (MkTaskConfigurationError "Duplicate task name 'test' detected").
Proof.
  refine (proj1 (proj2 (proj2
            (coerce_tasks_error_precedence sample_items
               [(PyString "name", PyString " test ");
                (PyString "command", PyString "true")] []
               (accepted_tasks sample_items) _))) _ _ _).
  - vm_compute. reflexivity.
  - vm_compute. discriminate.
  - vm_compute. discriminate.
  - vm_compute. constructor. constructor.
Defined.

Lemma coerce_loop_forall (P : TaskSpec -> Prop) (items : list Mapping)
    (tasks : list TaskSpec) (seen : gset string) (result : list TaskSpec) :
  (forall item seen task seen',
     coerce_item item seen = inr (task, seen') -> P task) ->
  Forall P tasks ->
  coerce_loop items tasks seen = inr result -> Forall P result.
Proof.
  intros HP. revert tasks seen.
  induction items as [|item more IH]; intros tasks seen Ht.
  - intros [= <-]. exact Ht.
  - cbn [coerce_loop].
    destruct (coerce_item item seen) as [e|[task seen']] eqn:E; [discriminate|].
    apply IH. apply Forall_app. split; [exact Ht|].
    constructor; [|constructor]. eapply HP, E.
Qed.

(** X7. The name, the command and the description of every task that
    [coerce_tasks] returns have no white space at either end. *)
Theorem coerce_tasks_trims_text_fields (items : list Mapping)
    (tasks : list TaskSpec) :
  coerce_tasks items = inr tasks ->
  Forall (fun task => trimmed (name task) /\ trimmed (command task)
                      /\ trimmed (description task)) tasks.
Proof.
  apply coerce_loop_forall; [|constructor].
  intros item seen task seen' E.
  apply coerce_item_fields in E as (-> & -> & _ & -> & _).
  unfold trimmed, item_name, item_command. rewrite !strip_idem. auto.
Qed.

Lemma coerce_tasks_trims_text_fields_witness :
  Forall (fun task => trimmed (name task) /\ trimmed (command task)
                      /\ trimmed (description task))
    (accepted_tasks sample_items).
Proof.
  apply (coerce_tasks_trims_text_fields sample_items). vm_compute. reflexivity.
Defined.

Lemma coerce_env_snoc (items : Mapping) (kv : PyValue * PyValue) :
  coerce_env (items ++ [kv])
  = <[str (fst kv) := str (snd kv)]> (coerce_env items).
Proof. unfold coerce_env. rewrite fold_left_app. reflexivity. Qed.

Lemma coerce_env_binding (items : Mapping) (key : string) :
  coerce_env items !! key = binding key items.
Proof.
  induction items as [|kv items IH] using rev_ind.
  - reflexivity.
  - rewrite coerce_env_snoc. unfold binding. rewrite rev_app_distr.
    cbn [rev app List.find].
    destruct (String.eqb (str (fst kv)) key) eqn:E.
    + apply String.eqb_eq in E. rewrite E, lookup_insert_eq. reflexivity.
    + apply String.eqb_neq in E. rewrite lookup_insert_ne by exact E.
      exact IH.
Qed.

Lemma coerce_loop_pointwise (items : list Mapping) (tasks : list TaskSpec)
    (seen : gset string) (result : list TaskSpec) (position : nat)
    (item : Mapping) :
  coerce_loop items tasks seen = inr result ->
  items !! position = Some item ->
  exists task before after,
    result !! (length tasks + position) = Some task
    /\ coerce_item item before = inr (task, after).
Proof.
  revert tasks seen position.
  induction items as [|first more IH]; intros tasks seen position.
  - intros _ H. discriminate H.
  - cbn [coerce_loop].
    destruct (coerce_item first seen) as [e|[task seen']] eqn:E; [discriminate|].
    intros Hl Hi. destruct position as [|position].
    + injection Hi as ->. exists task, seen, seen'. split; [|exact E].
      apply coerce_loop_grows in Hl as (new & -> & _).
      rewrite Nat.add_0_r, <- app_assoc.
      rewrite lookup_app_r by lia. rewrite Nat.sub_diag. reflexivity.
    + cbn in Hi. destruct (IH _ _ _ Hl Hi) as (found & b & a & Hf & Hc).
      exists found, b, a. split; [|exact Hc].
      rewrite length_app in Hf. cbn [length] in Hf.
      replace (length tasks + S position) with (length tasks + 1 + position)
        by lia.
      exact Hf.
Qed.

(** X8. The environment of a task that [coerce_tasks] returns holds,
    under each key, the text of the last [env] entry whose key reads the
    same under [str()], and nothing under any other key: entries whose keys
    differ only in type collapse into one. *)
Theorem coerce_tasks_env_keeps_last_binding (items : list Mapping)
    (tasks : list TaskSpec) (position : nat) (item : Mapping)
    (task : TaskSpec) (shown : string) (content : Mapping) :
  coerce_tasks items = inr tasks ->
  items !! position = Some item -> tasks !! position = Some task ->
  item_env item = PyMapping shown content ->
  forall key, env task !! key = binding key content.
Proof.
  intros Hl Hi Ht He key.
  destruct (coerce_loop_pointwise _ _ _ _ _ _ Hl Hi)
    as (found & before & after & Hf & Hc).
  cbn [length Nat.add] in Hf. rewrite Ht in Hf. injection Hf as <-.
  apply coerce_item_fields in Hc
    as (_ & _ & _ & _ & shown' & content' & Ho & ->).
  rewrite coerce_env_binding.
  unfold or_else in Ho. rewrite He in Ho. cbn [truth] in Ho.
  destruct content as [|kv content].
  - injection Ho as _ <-. reflexivity.
  - injection Ho as _ <-. reflexivity.
Qed.

Lemma coerce_tasks_env_keeps_last_binding_witness :
  env colliding_task !! "1" = Some "text".
Proof.
  apply (coerce_tasks_env_keeps_last_binding [colliding_item]
           [colliding_task] 0 colliding_item colliding_task
           "{1: 'number', '1': 'text'}" colliding_env);
    reflexivity.
Defined.

End ValidationFacts.

(** ** More on the pre-flight check *)

Module WordsFacts.
Import PyStr PyStrFacts Preflight PreflightFacts TokenFacts App Words.

Local Arguments Ascii.eqb : simpl never.

Lemma append_nil (t : string) : EmptyString +:+ t = t.
Proof. reflexivity. Qed.

Lemma append_cons (a : ascii) (s t : string) :
  String a s +:+ t = String a (s +:+ t).
Proof. reflexivity. Qed.

Lemma every_app (test : ascii -> bool) (s t : string) :
  every test (s +:+ t) = every test s && every test t.
Proof.
  induction s as [|a s IH]; [reflexivity|].
  rewrite append_cons. cbn [every]. rewrite IH, andb_assoc. reflexivity.
Qed.

Lemma every_snoc (test : ascii -> bool) (s : string) (c : ascii) :
  every test (snoc s c) = every test s && test c.
Proof.
  unfold snoc. rewrite every_app. cbn [every]. rewrite andb_true_r.
  reflexivity.
Qed.

Lemma every_rstrip (test : ascii -> bool) (s : string) :
  every test s = true -> every test (rstrip s) = true.
Proof.
  induction s as [|c r IH]; [reflexivity|].
  cbn [every rstrip]. intros H. apply andb_true_iff in H as [Hc Hr].
  destruct (isspace c && is_empty (rstrip r)); [reflexivity|].
  cbn [every]. rewrite Hc, (IH Hr). reflexivity.
Qed.

Lemma every_first_segment (s : string) :
  every (fun c => negb (operator_char c)) (first_segment s) = true.
Proof.
  induction s as [|c r IH]; [reflexivity|].
  rewrite first_segment_cons, starts_operator_cons.
  destruct (operator_char c) eqn:Ec; [reflexivity|].
  cbn [orb]. destruct (Ascii.eqb "&" c && startswith "&" r); [reflexivity|].
  cbn [every]. rewrite Ec, IH. reflexivity.
Qed.

(** The lexer makes its tokens of the characters it reads, and of the
    backslash. *)
Lemma lex_every (test : ascii -> bool) :
  test backslash = true ->
  forall (input : string) (st : Shlex.state) (token : string) (quoted : bool)
         (tokens : list string),
    every test token = true -> every test input = true ->
    Shlex.lex st token quoted input = Some tokens ->
    Forall (fun word => every test word = true) tokens.
Proof.
  intros Hb. induction input as [|c rest IH]; intros st token quoted tokens Ht Hi.
  - destruct st; cbn [Shlex.lex]; try discriminate.
    + intros [= <-]. constructor.
    + intros [= <-]. unfold Shlex.emit.
      destruct (negb quoted && is_empty token); constructor; [exact Ht|constructor].
  - cbn [every] in Hi. apply andb_true_iff in Hi as [Hc Hr].
    assert (forall tok, every test tok = true -> every test (snoc tok c) = true)
      as Hsnoc by (intros tok H; rewrite every_snoc, H, Hc; reflexivity).
    destruct st as [| |q|escaped]; cbn [Shlex.lex].
    + destruct (Shlex.is_whitespace c); [apply IH; assumption|].
      destruct (Shlex.is_escape c); [apply IH; assumption|].
      destruct (Shlex.is_quote c); [apply IH; assumption|].
      apply IH; [|assumption]. cbn [every]. rewrite Hc. reflexivity.
    + destruct (Shlex.is_whitespace c).
      * destruct (negb (is_empty token) || quoted); [|apply IH; assumption].
        destruct (Shlex.lex Shlex.InWhitespace EmptyString false rest)
          as [more|] eqn:E; [|discriminate].
        cbn [option_map]. intros [= <-]. constructor; [exact Ht|].
        apply (IH Shlex.InWhitespace EmptyString false more eq_refl Hr E).
      * destruct (Shlex.is_quote c); [apply IH; assumption|].
        destruct (Shlex.is_escape c); [apply IH; assumption|].
        apply IH; auto.
    + destruct (Ascii.eqb c q); [apply IH; assumption|].
      destruct (Shlex.is_escape c && Shlex.is_escapedquote q);
        [apply IH; assumption|].
      apply IH; auto.
    + apply IH; [|assumption]. apply Hsnoc.
      destruct escaped as [| |q|inner]; try exact Ht.
      destruct (negb (Ascii.eqb c backslash) && negb (Ascii.eqb c q));
        [|exact Ht].
      rewrite every_snoc, Ht, Hb. reflexivity.
Qed.

Lemma extract_primary_command_tokens (command : string) :
  _extract_primary_command command
  = if is_empty (strip command) then None
    else match Shlex.split (rstrip (first_segment (strip command))) with
         | None => None
         | Some tokens => first_command tokens
         end.
Proof.
  unfold _extract_primary_command.
  rewrite truncation_is_first_segment by apply strip_idem. reflexivity.
Qed.

(** X9. An executable that [_extract_primary_command] returns is never a
    word the walk over the tokens passes over as an assignment, and holds
    none of the characters [|], [;] and newline. *)
Theorem extracted_command_is_a_word_of_the_first_segment (command exe : string) :
  _extract_primary_command command = Some exe ->
  is_assignment exe = false
  /\ every (fun c => negb (operator_char c)) exe = true.
Proof.
  rewrite extract_primary_command_tokens.
  destruct (is_empty (strip command)); [discriminate|].
  destruct (Shlex.split (rstrip (first_segment (strip command))))
    as [tokens|] eqn:E; [|discriminate].
  rewrite first_command_find. intros H.
  apply List.find_some in H as [Hin Hna].
  split; [apply negb_true_iff, Hna|].
  unfold Shlex.split in E.
  apply (lex_every (fun c => negb (operator_char c)) eq_refl) in E.
  - rewrite List.Forall_forall in E. apply E, Hin.
  - reflexivity.
  - apply every_rstrip, every_first_segment.
Qed.

Lemma extracted_command_is_a_word_of_the_first_segment_witness :
  is_assignment "make" = false
  /\ every (fun c => negb (operator_char c)) "make" = true.
Proof.
  apply (extracted_command_is_a_word_of_the_first_segment
           "CC=gcc make -j4 | tee log").
  reflexivity.
Defined.

Lemma first_segment_operator (s : string) :
  starts_operator s = true -> first_segment s = EmptyString.
Proof.
  intros H. destruct s as [|c r]; [reflexivity|].
  rewrite first_segment_cons, H. reflexivity.
Qed.

(** X10. For a command that begins, after [strip()], with one of the
    operators [&&], [||], [|], [;] and newline, [_extract_primary_command]
    returns [None]; with no task running, [_start_task] then starts the task
    without any check of an executable, whatever the host has installed. *)
Theorem command_starting_with_operator_is_not_checked (host : Host)
    (app : DebIDEApp) (task : Tasks.TaskSpec) :
  starts_operator (strip (Tasks.command task)) = true ->
  idle app ->
  _extract_primary_command (Tasks.command task) = None
  /\ _start_task host app task = create_task task (autosave_first host app).
Proof.
  intros Hop Hidle.
  assert (_extract_primary_command (Tasks.command task) = None) as E.
  { rewrite extract_primary_command_tokens.
    rewrite (first_segment_operator _ Hop).
    destruct (is_empty (strip (Tasks.command task))); reflexivity. }
  split; [exact E|].
  unfold _start_task, _detect_missing_executable. rewrite E.
  unfold idle in Hidle.
  destruct (_running_task app) as [handle|]; [rewrite Hidle|]; reflexivity.
Qed.

Lemma command_starting_with_operator_is_not_checked_witness :
  let task := sample_task "pipe" "| nonexistent-tool-xyz" in
  in_flight (_start_task host_with_none (new_app sample_config) task) = [task].
Proof.
  intros task.
  rewrite (proj2 (command_starting_with_operator_is_not_checked
                    host_with_none (new_app sample_config) task
                    eq_refl I)).
  reflexivity.
Defined.


Lemma append_assoc (s t u : string) : (s +:+ t) +:+ u = s +:+ t +:+ u.
Proof.
  induction s as [|a s IH]; [reflexivity|].
  rewrite !append_cons, IH. reflexivity.
Qed.

Lemma is_empty_app (s t : string) :
  is_empty (s +:+ t) = is_empty s && is_empty t.
Proof. destruct s; reflexivity. Qed.

Lemma rstrip_app (s t : string) :
  rstrip (s +:+ t)
  = if is_empty (rstrip t) then rstrip s else s +:+ rstrip t.
Proof.
  induction s as [|a s IH].
  - rewrite !append_nil. destruct (rstrip t); reflexivity.
  - rewrite append_cons. cbn [rstrip]. rewrite IH.
    destruct (is_empty (rstrip t)) eqn:E; [reflexivity|].
    rewrite is_empty_app, E, !andb_false_r, append_cons. reflexivity.
Qed.

Lemma rstrip_no_space (s : string) :
  every (fun c => negb (isspace c)) s = true -> rstrip s = s.
Proof.
  induction s as [|a s IH]; [reflexivity|].
  cbn [every rstrip]. intros H. apply andb_true_iff in H as [Ha Hs].
  apply negb_true_iff in Ha. rewrite Ha, (IH Hs). reflexivity.
Qed.

Lemma every_weaken (strong weak : ascii -> bool) (s : string) :
  (forall c, strong c = true -> weak c = true) ->
  every strong s = true -> every weak s = true.
Proof.
  intros Hw. induction s as [|a s IH]; [reflexivity|].
  cbn [every]. intros H. apply andb_true_iff in H as [Ha Hs].
  rewrite (Hw _ Ha), (IH Hs). reflexivity.
Qed.

Lemma plain_spec (c : ascii) :
  plain c = true ->
  isspace c = false /\ Shlex.is_quote c = false /\ Shlex.is_escape c = false
  /\ operator_char c = false /\ Ascii.eqb "&" c = false.
Proof.
  unfold plain. rewrite !andb_true_iff, !negb_true_iff. tauto.
Qed.

Lemma plain_not_whitespace (c : ascii) :
  isspace c = false -> Shlex.is_whitespace c = false.
Proof.
  unfold isspace, Shlex.is_whitespace.
  destruct (Nat.eqb_spec (nat_of_ascii c) 32) as [->|]; [discriminate|].
  destruct (Nat.eqb_spec (nat_of_ascii c) 9) as [->|]; [discriminate|].
  destruct (Nat.eqb_spec (nat_of_ascii c) 13) as [->|]; [discriminate|].
  destruct (Nat.eqb_spec (nat_of_ascii c) 10) as [->|]; [discriminate|].
  reflexivity.
Qed.

(** Text without operator characters and ampersands belongs to the first
    segment. *)
Lemma first_segment_inert (s t : string) :
  every (fun c => negb (operator_char c) && negb (Ascii.eqb "&" c)) s = true ->
  first_segment (s +:+ t) = s +:+ first_segment t.
Proof.
  induction s as [|a s IH]; [reflexivity|].
  cbn [every]. intros H. apply andb_true_iff in H as [Ha Hs].
  apply andb_true_iff in Ha as [Ho Hamp].
  apply negb_true_iff in Ho, Hamp.
  rewrite !append_cons, first_segment_cons, starts_operator_cons.
  rewrite Ho, Hamp, (IH Hs). reflexivity.
Qed.

(** The lexer reads plain characters into the word in progress. *)
Lemma lex_plain (word : string) :
  every plain word = true ->
  forall (token rest : string) (quoted : bool),
    Shlex.lex Shlex.InWord token quoted (word +:+ rest)
    = Shlex.lex Shlex.InWord (token +:+ word) quoted rest.
Proof.
  induction word as [|a word IH]; intros H token rest quoted.
  - rewrite append_nil. f_equal.
    induction token as [|b token IHt]; [reflexivity|].
    rewrite append_cons, <- IHt. reflexivity.
  - cbn [every] in H. apply andb_true_iff in H as [Ha Hw].
    apply plain_spec in Ha as (Hs & Hq & He & _ & _).
    rewrite append_cons. cbn [Shlex.lex].
    rewrite (plain_not_whitespace _ Hs), Hq, He.
    rewrite (IH Hw). unfold snoc. rewrite append_assoc. reflexivity.
Qed.

Lemma split_plain_word (a : ascii) (word rest : string) :
  every plain (String a word) = true ->
  Shlex.split (String a word +:+ " " +:+ rest)
  = option_map (cons (String a word)) (Shlex.split rest)
  /\ Shlex.split (String a word) = Some [String a word].
Proof.
  intros H. pose proof H as Hall.
  cbn [every] in H. apply andb_true_iff in H as [Ha Hw].
  apply plain_spec in Ha as (Hs & Hq & He & _ & _).
  unfold Shlex.split. split.
  - rewrite append_cons. cbn [Shlex.lex].
    rewrite (plain_not_whitespace _ Hs), Hq, He.
    rewrite (lex_plain _ Hw). reflexivity.
  - cbn [Shlex.lex].
    rewrite (plain_not_whitespace _ Hs), Hq, He.
    replace word with (word +:+ EmptyString) at 1
      by (clear; induction word as [|b w IHw];
          [reflexivity | rewrite append_cons, IHw; reflexivity]).
    rewrite (lex_plain _ Hw). reflexivity.
Qed.

Lemma split_head_key (key rest : string) :
  every key_char key = true ->
  split_head "=" (key +:+ "=" +:+ rest) = key
  /\ contains "=" (key +:+ "=" +:+ rest) = true.
Proof.
  induction key as [|a key IH]; [split; reflexivity|].
  cbn [every]. intros H. apply andb_true_iff in H as [Ha Hk].
  unfold key_char in Ha. apply andb_true_iff in Ha as [_ Ha].
  apply negb_true_iff in Ha. destruct (IH Hk) as [IH1 IH2].
  rewrite append_cons. cbn [split_head contains].
  rewrite startswith_cons_cons, Ha, IH1, IH2. split; reflexivity.
Qed.

Lemma assignment_word (key value : string) :
  key <> EmptyString -> every key_char key = true ->
  is_assignment (key +:+ "=" +:+ value) = true.
Proof.
  intros Hne Hk. unfold is_assignment.
  destruct (split_head_key key value Hk) as [-> ->].
  destruct key as [|a key]; [congruence|].
  cbn [every] in Hk. apply andb_true_iff in Hk as [Ha _].
  unfold key_char in Ha. apply andb_true_iff in Ha as [Ha _].
  apply plain_spec in Ha as (_ & Hq & _).
  unfold starts_with_quote. rewrite append_cons, !startswith_cons_cons.
  unfold Shlex.is_quote in Hq. apply orb_false_iff in Hq as [H1 H2].
  rewrite (Ascii.eqb_sym squote a), (Ascii.eqb_sym dquote a), H1, H2.
  reflexivity.
Qed.

Lemma first_command_cons (token : string) (rest : list string) :
  first_command (token :: rest)
  = if is_assignment token then first_command rest else Some token.
Proof.
  cbn [first_command]. unfold is_assignment.
  destruct (contains "=" token && negb (starts_with_quote token));
    [|reflexivity].
  cbn [andb]. destruct (is_empty (split_head "=" token)); reflexivity.
Qed.

(** X11. A leading environment assignment is transparent to the
    pre-flight check: for a key that is not empty and a value, both made of
    characters that are no white space, quote, backslash, operator character
    or ampersand (the key without [=]), and a command that does not begin
    with white space, [_extract_primary_command] returns for
    [key=value command] what it returns for [command]. *)
Theorem leading_assignment_is_skipped (key value command : string) :
  key <> EmptyString ->
  every key_char key = true -> every plain value = true ->
  lstrip command = command ->
  _extract_primary_command (key +:+ "=" +:+ value +:+ " " +:+ command)
  = _extract_primary_command command.
Proof.
  intros Hne Hk Hv Hl.
  remember (key +:+ "=" +:+ value) as word eqn:Eword.
  assert (key +:+ "=" +:+ value +:+ " " +:+ command = word +:+ " " +:+ command)
    as -> by (rewrite Eword, !append_assoc; reflexivity).
  assert (every plain word = true) as Hw.
  { rewrite Eword, !every_app. rewrite Hv.
    rewrite (every_weaken key_char plain key); [reflexivity| |exact Hk].
    intros c H. unfold key_char in H. apply andb_true_iff in H. tauto. }
  assert (is_assignment word = true) as Ha
    by (rewrite Eword; apply assignment_word; assumption).
  destruct word as [|a word].
  { destruct key; [congruence|discriminate]. }
  clear Eword.
  assert (isspace a = false) as Hsp.
  { cbn [every] in Hw. apply andb_true_iff in Hw as [Hw _].
    apply plain_spec in Hw. tauto. }
  assert (rstrip (String a word) = String a word) as Hrw.
  { apply rstrip_no_space, (every_weaken plain); [|exact Hw].
    intros c H. apply plain_spec in H as (-> & _). reflexivity. }
  rewrite !extract_primary_command_tokens.
  unfold strip. rewrite Hl.
  assert (lstrip (String a word +:+ " " +:+ command)
          = String a word +:+ " " +:+ command) as ->
    by (rewrite append_cons; cbn [lstrip]; rewrite Hsp; reflexivity).
  rewrite !rstrip_first_segment_rstrip.
  rewrite first_segment_inert.
  2:{ apply (every_weaken plain); [|exact Hw].
      intros c H. apply plain_spec in H as (_ & _ & _ & -> & ->). reflexivity. }
  rewrite (first_segment_inert " " command eq_refl).
  assert (is_empty (rstrip (String a word +:+ " " +:+ command)) = false) as ->.
  { rewrite rstrip_app. destruct (is_empty (rstrip (" " +:+ command)));
      [rewrite Hrw|]; reflexivity. }
  destruct (split_plain_word a word (rstrip (first_segment command)) Hw)
    as [Hsplit Hone].
  rewrite (rstrip_app (String a word)), (rstrip_app " ").
  change (rstrip " ") with EmptyString.
  destruct (rstrip (first_segment command)) as [|b segment] eqn:Eseg.
  - cbn [is_empty]. rewrite Hrw, Hone, first_command_cons, Ha.
    destruct (is_empty (rstrip command)); reflexivity.
  - cbn [is_empty].
    change (is_empty (" " +:+ String b segment)) with false. cbv iota.
    rewrite Hsplit.
    assert (is_empty (rstrip command) = false) as ->.
    { destruct (rstrip command) eqn:E; [|reflexivity].
      rewrite <- rstrip_first_segment_rstrip, E in Eseg. discriminate. }
    destruct (Shlex.split (String b segment)) as [tokens|]; [|reflexivity].
    cbn [option_map]. rewrite first_command_cons, Ha. reflexivity.
Qed.

Lemma leading_assignment_is_skipped_witness :
  _extract_primary_command ("DEB_BUILD_OPTIONS" +:+ "=" +:+ "nocheck" +:+ " "
                            +:+ "dpkg-buildpackage -us -uc")
  = _extract_primary_command "dpkg-buildpackage -us -uc".
Proof.
  apply leading_assignment_is_skipped; [discriminate|reflexivity..].
Defined.

End WordsFacts.

(** ** More on the task runner *)

Module RunnerFacts.
Import PyStr Preflight Tasks App AppFacts Words Runner.

Lemma start_task_when_idle (host : Host) (app : DebIDEApp) (task : TaskSpec) :
  idle app ->
  _detect_missing_executable host (command task) = None ->
  _start_task host app task = create_task task (autosave_first host app).
Proof.
  intros Hidle Hfound. unfold _start_task. rewrite Hfound.
  unfold idle in Hidle.
  destruct (_running_task app) as [handle|]; [rewrite Hidle|]; reflexivity.
Qed.



(** The three other ways for a task to end. *)
Example completion_lines :
  let app := _start_task host_with_all (new_app sample_config)
               (sample_task "build" "make") in
  let ended outcome :=
    run host_with_all [TaskEnds 0 outcome; RunDoneCallback] app in
  console_view (ended (Finished None))
  = console_view app ++ ["[green]✔[/green] build finished in 0.25s"]
  /\ notifications (ended (Finished None)) = notifications app
  /\ console_view (ended (Finished (Some "boom")))
     = console_view app ++ ["[red]Task failed: boom[/red]"]
  /\ notifications (ended (Finished (Some "boom")))
     = notifications app ++ [("boom", error)]
  /\ console_view (ended Cancelled)
     = console_view app ++ ["[yellow]Task cancelled[/yellow]"]
  /\ notifications (ended Cancelled) = notifications app.
Proof. repeat split; reflexivity. Qed.

(** X13. With autosave on, unsaved text and a current path, and no task
    running, [_start_task] starts a task whose executable is found whether
    or not the save succeeds: after a successful write the editor is clean,
    with the same text and path, and nothing is notified; after a failed
    write the editor is as before and one error notification reports the
    failure. *)
Theorem start_task_saves_or_reports (host : Host) (app : DebIDEApp)
    (task : TaskSpec) (target : string) :
  idle app ->
  autosave (config app) = true -> is_dirty (editor app) = true ->
  current_path (editor app) = Some target ->
  _detect_missing_executable host (command task) = None ->
  let app' := _start_task host app task in
  loop_tasks app' = loop_tasks app ++ [{| coro := task; status := Pending |}]
  /\ match write_text host target (text (editor app)) with
     | None =>
         is_dirty (editor app') = false
         /\ text (editor app') = text (editor app)
         /\ current_path (editor app') = Some target
         /\ notifications app' = notifications app
     | Some failure =>
         editor app' = editor app
         /\ notifications app'
            = notifications app
              ++ [("Autosave failed: Unable to save file " +:+ target
                   +:+ ": " +:+ failure, error)]
     end.
Proof.
  intros Hidle Hauto Hdirty Hpath Hfound. cbv zeta.
  rewrite start_task_when_idle by assumption.
  unfold autosave_first, save. rewrite Hauto, Hdirty, Hpath.
  rewrite bool_decide_eq_true_2 by discriminate. cbn [andb].
  destruct (write_text host target (text (editor app))) as [failure|]; cbn.
  - repeat split; reflexivity.
  - unfold is_dirty. cbn. rewrite String.eqb_refl. repeat split; reflexivity.
Qed.

Lemma start_task_saves_or_reports_witness :
  let app' := _start_task read_only_host edited_app (sample_task "build" "make") in
  in_flight app' = [sample_task "build" "make"]
  /\ is_dirty (editor app') = true
  /\ notifications app'
     = [("Autosave failed: Unable to save file /work/notes.txt: "
         +:+ "[Errno 30] Read-only file system", error)].
Proof.
  intros app'.
  destruct (start_task_saves_or_reports read_only_host edited_app
              (sample_task "build" "make") "/work/notes.txt"
              I eq_refl eq_refl eq_refl eq_refl)
    as (H1 & H2 & H3).
  fold app' in H1, H2, H3.
  split; [unfold in_flight; rewrite H1; reflexivity|].
  split; [rewrite H2; reflexivity | exact H3].
Defined.

Lemma single_flight_when_callbacks_run_first_witness :
  let app :=
    run host_with_all
      [StartTask (sample_task "build" "make"); TaskEnds 0 (Finished None);
       RunDoneCallback; StartTask (sample_task "test" "make check")]
      (new_app sample_config) in
  _running_task app = Some 1
  /\ _start_task host_with_all app (sample_task "lint" "make lint")
     = notify "A task is already running" warning app.
Proof.
  intros app.
  destruct (single_flight_when_callbacks_run_first host_with_all sample_config
              [StartTask (sample_task "build" "make");
               TaskEnds 0 (Finished None); RunDoneCallback;
               StartTask (sample_task "test" "make check")]
              ltac:(repeat split; reflexivity)
              1 {| coro := sample_task "test" "make check"; status := Pending |}
              eq_refl eq_refl)
    as [H1 H2].
  split; [exact H1 | apply H2].
Defined.

End RunnerFacts.

(** ** [load_config] *)

Module ConfigFacts.
Import PyStr PyStrFacts Py Tasks TasksFacts App Paths Validation
  ValidationFacts Config.

Lemma coerce_loop_nodup (items : list Mapping) (tasks : list TaskSpec)
    (seen : gset string) (result : list TaskSpec) :
  seen = list_to_set (name <$> tasks) ->
  NoDup (name <$> tasks) ->
  coerce_loop items tasks seen = inr result ->
  NoDup (name <$> result).
Proof.
  revert tasks seen. induction items as [|item more IH]; intros tasks seen Hs Hd.
  - intros [= <-]. exact Hd.
  - cbn [coerce_loop].
    destruct (coerce_item item seen) as [e|[task seen']] eqn:E; [discriminate|].
    pose proof (coerce_item_accepted _ _ _ _ E) as (_ & Hnew & _).
    apply coerce_item_fields in E as (En & _ & -> & _).
    apply IH.
    + rewrite fmap_app, list_to_set_app_L, Hs. cbn. rewrite En.
      rewrite union_empty_r_L. apply union_comm_L.
    + rewrite fmap_app. apply NoDup_app. split; [exact Hd|].
      split; [|cbn; apply NoDup_singleton].
      intros x Hx Hin. cbn in Hin. apply list_elem_of_singleton in Hin.
      apply Hnew. rewrite Hs. apply elem_of_list_to_set.
      rewrite <- En, <- Hin. exact Hx.
Qed.

Lemma coerce_tasks_names (items : list Mapping) (tasks : list TaskSpec) :
  coerce_tasks items = inr tasks ->
  NoDup (name <$> tasks)
  /\ Forall (fun task => name task <> "" /\ command task <> "") tasks.
Proof.
  intros H. split.
  - apply (coerce_loop_nodup items [] ∅ tasks); [reflexivity|constructor|exact H].
  - revert H. apply coerce_loop_forall; [|constructor].
    intros item seen task seen' E.
    pose proof (coerce_item_accepted _ _ _ _ E) as ((Hn & Hc & _) & _).
    apply coerce_item_fields in E as (-> & -> & _). auto.
Qed.

Lemma load_config_returns (files : Files) (defaults : list PyValue)
    (workspace : Path) (override_config : option Path)
    (loaded : DebIDEConfig) :
  load_config files defaults workspace override_config = inr loaded ->
  (exists mappings, coerce_tasks mappings = inr (tasks loaded))
  /\ (truthy (default_task loaded) = true ->
      default "" (default_task loaded) ∈ name <$> tasks loaded).
Proof.
  unfold load_config.
  destruct (choose_config files workspace override_config)
    as [e|config_path]; [discriminate|].
  destruct (read_config files config_path)
    as [e|[[user_tasks autosaved] chosen]]; [discriminate|].
  unfold coerce_raw.
  destruct (mappings_before (defaults ++ user_tasks)) as [mappings all].
  destruct (coerce_tasks mappings) as [e|found] eqn:E; [discriminate|].
  destruct all; [|discriminate].
  destruct (truthy chosen
            && negb (bool_decide (default "" chosen ∈ name <$> found)))
    eqn:Hd; [discriminate|].
  intros [= <-]. cbn. split; [eauto|].
  intros Ht. rewrite Ht in Hd. cbn in Hd.
  apply negb_false_iff, bool_decide_eq_true in Hd. exact Hd.
Qed.

Lemma find_by_name (wanted : string) (candidates : list TaskSpec) :
  wanted ∈ name <$> candidates ->
  exists task,
    List.find (fun candidate => String.eqb (name candidate) wanted) candidates
    = Some task
    /\ task ∈ candidates /\ name task = wanted.
Proof.
  induction candidates as [|first rest IH]; intros H.
  - inversion H.
  - cbn [List.find]. destruct (String.eqb (name first) wanted) eqn:E.
    + exists first. split; [reflexivity|].
      split; [left|apply String.eqb_eq, E].
    + rewrite fmap_cons in H. apply elem_of_cons in H as [H|H].
      * apply String.eqb_neq in E. congruence.
      * destruct (IH H) as (task & Hf & Hin & Hn).
        exists task. split; [exact Hf|]. split; [right; exact Hin|exact Hn].
Qed.

(** X15. A configuration that [load_config] returns is consistent: the
    task names are pairwise different, no task has an empty name or
    command, and a [default_task] that is not the empty string is the name
    of one of the tasks. *)
Theorem load_config_result_is_consistent (files : Files)
    (defaults : list PyValue) (workspace : Path)
    (override_config : option Path) (loaded : DebIDEConfig) :
  load_config files defaults workspace override_config = inr loaded ->
  NoDup (name <$> tasks loaded)
  /\ Forall (fun task => name task <> "" /\ command task <> "") (tasks loaded)
  /\ forall chosen,
       default_task loaded = Some chosen -> chosen <> "" ->
       chosen ∈ name <$> tasks loaded.
Proof.
  intros H. apply load_config_returns in H as ((mappings & Hm) & Hd).
  destruct (coerce_tasks_names _ _ Hm) as (H1 & H2).
  split; [exact H1|]. split; [exact H2|].
  intros chosen Hc Hne. rewrite Hc in Hd. apply Hd. cbn.
  rewrite (is_empty_false _ Hne). reflexivity.
Qed.

Lemma load_config_result_is_consistent_witness :
  NoDup (name <$> tasks sample_loaded)
  /\ Forall (fun task => name task <> "" /\ command task <> "")
       (tasks sample_loaded)
  /\ forall chosen,
       default_task sample_loaded = Some chosen -> chosen <> "" ->
       chosen ∈ name <$> tasks sample_loaded.
Proof.
  apply (load_config_result_is_consistent sample_files packaged_defaults work
           None sample_loaded).
  vm_compute. reflexivity.
Defined.

(** X16. With a configuration returned by [load_config] whose
    [default_task] is not the empty string, [action_run_task] with no task
    selected in the list never answers that no task is selected: it hands
    the task of that name to [_start_task]. *)
Theorem configured_default_task_is_run (files : Files)
    (defaults : list PyValue) (workspace : Path)
    (override_config : option Path) (loaded : DebIDEConfig)
    (chosen : string) (host : Host) (app : DebIDEApp) :
  load_config files defaults workspace override_config = inr loaded ->
  default_task loaded = Some chosen -> chosen <> "" ->
  config app = loaded ->
  exists task,
    task ∈ tasks loaded /\ name task = chosen
    /\ _get_selected_task None app = Some task
    /\ action_run_task host None app = _start_task host app task.
Proof.
  intros H Hc Hne Happ. apply load_config_returns in H as (_ & Hd).
  rewrite Hc in Hd. cbn in Hd. rewrite (is_empty_false _ Hne) in Hd.
  destruct (find_by_name chosen (tasks loaded) (Hd eq_refl))
    as (task & Hf & Hin & Hn).
  exists task. split; [exact Hin|]. split; [exact Hn|].
  assert (_get_selected_task None app = Some task) as Hs.
  { unfold _get_selected_task. rewrite Happ, Hc. cbn.
    rewrite (is_empty_false _ Hne). exact Hf. }
  split; [exact Hs|]. unfold action_run_task. rewrite Hs. reflexivity.
Qed.

Lemma configured_default_task_is_run_witness :
  exists task,
    task ∈ tasks sample_loaded /\ name task = "build"
    /\ _get_selected_task None (new_app sample_loaded) = Some task
    /\ action_run_task host_with_all None (new_app sample_loaded)
       = _start_task host_with_all (new_app sample_loaded) task.
Proof.
  apply (configured_default_task_is_run sample_files packaged_defaults work
           None sample_loaded "build" host_with_all (new_app sample_loaded)).
  - vm_compute. reflexivity.
  - reflexivity.
  - discriminate.
  - reflexivity.
Defined.

Lemma mappings_before_app (first rest : list PyValue)
    (mappings : list Mapping) :
  mappings_before first = (mappings, true) ->
  mappings_before (first ++ rest)
  = (mappings ++ fst (mappings_before rest), snd (mappings_before rest)).
Proof.
  revert mappings. induction first as [|item more IH]; intros mappings.
  - intros [= <-]. cbn. destruct (mappings_before rest). reflexivity.
  - cbn [mappings_before List.app].
    destruct item as [|s|shown content|shown truthy]; try discriminate.
    destruct (mappings_before more) as [found all] eqn:E.
    intros [= <- ->]. rewrite (IH found eq_refl). reflexivity.
Qed.

Lemma coerce_tasks_rejects_duplicate (accepted : list Mapping)
    (item : Mapping) (rest : list Mapping) (tasks : list TaskSpec) :
  coerce_tasks accepted = inr tasks ->
  item_command item <> "" ->
  item_name item ∈ name <$> tasks ->
  coerce_tasks (accepted ++ item :: rest)
  = inl (MkTaskConfigurationError
           ("Duplicate task name '" +:+ item_name item +:+ "' detected")).
Proof.
  intros Ha Hc Hd.
  assert (item_name item <> "") as Hn.
  { destruct (coerce_tasks_names _ _ Ha) as (_ & Hall).
    apply list_elem_of_fmap in Hd as (task & E & Hin).
    rewrite Forall_forall in Hall. rewrite E. apply (Hall task Hin). }
  unfold coerce_tasks in *.
  rewrite (coerce_loop_continues accepted (item :: rest) [] ∅ tasks)
    by (reflexivity || exact Ha).
  cbn [coerce_loop]. unfold coerce_item.
  fold (item_name item) (item_command item).
  rewrite (is_empty_false _ Hn), (is_empty_false _ Hc).
  rewrite bool_decide_eq_true_2 by (apply elem_of_list_to_set; exact Hd).
  reflexivity.
Qed.

(** X17. The tasks of the user's file are validated after the packaged
    ones, in one list: a first user task that has a command and whose name,
    after [strip()], is that of a packaged task makes [load_config] raise
    the duplicate-name error, so a user file cannot redefine a packaged
    task. *)
Theorem user_task_cannot_redefine_a_packaged_task (files : Files)
    (defaults : list PyValue) (workspace : Path)
    (override_config : option Path) (config_path : Path)
    (entries : list (PyValue * Loaded)) (shown item_shown : string)
    (item : Mapping) (rest : list PyValue) (packaged : list Mapping)
    (packaged_tasks : list TaskSpec) :
  choose_config files workspace override_config = inr (Some config_path) ->
  safe_load files config_path = inr (DocMapping entries) ->
  lookup entries "tasks"
  = Some (Sequence shown (PyMapping item_shown item :: rest)) ->
  mappings_before defaults = (packaged, true) ->
  coerce_tasks packaged = inr packaged_tasks ->
  item_name item ∈ name <$> packaged_tasks ->
  item_command item <> "" ->
  load_config files defaults workspace override_config
  = inl (Configuration
           (MkTaskConfigurationError
              ("Duplicate task name '" +:+ item_name item +:+ "' detected"))).
Proof.
  intros Hchoose Hload Htasks Hdefaults Hpackaged Hdup Hcommand.
  unfold load_config. rewrite Hchoose.
  unfold read_config, _load_yaml_file, _load_user_tasks.
  rewrite Hload, Htasks. unfold coerce_raw.
  rewrite (mappings_before_app _ _ _ Hdefaults).
  cbn [mappings_before].
  destruct (mappings_before rest) as [more all]. cbn [fst snd].
  pose proof (coerce_tasks_rejects_duplicate packaged item more
                packaged_tasks Hpackaged Hcommand Hdup) as Hrej.
  unfold Mapping in *. rewrite Hrej. reflexivity.
Qed.

Lemma user_task_cannot_redefine_a_packaged_task_witness :
  load_config clashing_files packaged_defaults work None
  = inl (Configuration
           (MkTaskConfigurationError "Duplicate task name 'build' detected")).
Proof.
  apply (user_task_cannot_redefine_a_packaged_task clashing_files
           packaged_defaults work None (child work ".debide.yaml")
           [(PyString "tasks",
             Sequence "[{'name': ' build', 'command': 'ninja'}]"
               [PyMapping "{'name': ' build', 'command': 'ninja'}"
                  [(PyString "name", PyString " build");
                   (PyString "command", PyString "ninja")]])]
           "[{'name': ' build', 'command': 'ninja'}]"
           "{'name': ' build', 'command': 'ninja'}"
           [(PyString "name", PyString " build");
            (PyString "command", PyString "ninja")]
           []
           [[(PyString "name", PyString "build");
             (PyString "command", PyString "make")]]
           [sample_task "build" "make"]).
  - reflexivity.
  - reflexivity.
  - reflexivity.
  - reflexivity.
  - vm_compute. reflexivity.
  - vm_compute. constructor.
  - vm_compute. discriminate.
Defined.

(** X18. [load_config] reads [default_task] through [str()]: a value of
    [None] becomes the text [None], and the load fails unless a task has
    that name; an empty string is kept, matches no task and is not checked,
    and [action_run_task] then treats it as no default at all. *)
Theorem default_task_is_read_as_text (files : Files)
    (defaults : list PyValue) (workspace : Path)
    (override_config : option Path) (config_path : Path)
    (entries : list (PyValue * Loaded)) (user_tasks : list PyValue)
    (found : list TaskSpec) :
  choose_config files workspace override_config = inr (Some config_path) ->
  safe_load files config_path = inr (DocMapping entries) ->
  _load_user_tasks entries = inr user_tasks ->
  coerce_raw (defaults ++ user_tasks) = inr found ->
  (lookup entries "default_task" = Some (Scalar PyNone) ->
   "None" ∉ name <$> found ->
   load_config files defaults workspace override_config
   = inl (Configuration
            (MkTaskConfigurationError
               "default_task 'None' is not defined in tasks list")))
  /\ (lookup entries "default_task" = Some (Scalar (PyString "")) ->
      exists loaded,
        load_config files defaults workspace override_config = inr loaded
        /\ default_task loaded = Some ""
        /\ forall host app,
             config app = loaded ->
             action_run_task host None app
             = notify "No task selected" warning app).
Proof.
  intros Hchoose Hload Huser Hraw.
  assert (forall value,
            lookup entries "default_task" = Some value ->
            read_config files (Some config_path)
            = inr (user_tasks,
                   match lookup entries "autosave" with
                   | Some flag => loaded_truth flag
                   | None => false
                   end,
                   Some (loaded_str value))) as Hread.
  { intros value Hv. unfold read_config, _load_yaml_file.
    rewrite Hload, Huser, Hv. reflexivity. }
  split.
  - intros Hnull Hmissing. unfold load_config.
    rewrite Hchoose, (Hread _ Hnull), Hraw. cbn [loaded_str str truthy].
    cbn [is_empty negb andb default].
    rewrite bool_decide_eq_false_2 by exact Hmissing. reflexivity.
  - intros Hempty. eexists. split; [|split].
    + unfold load_config.
      rewrite Hchoose, (Hread _ Hempty), Hraw. cbn [loaded_str str truthy].
      cbn [is_empty negb andb]. reflexivity.
    + reflexivity.
    + intros host app Happ. unfold action_run_task, _get_selected_task.
      rewrite Happ. reflexivity.
Qed.

Lemma default_task_is_read_as_text_witness :
  load_config null_default_files packaged_defaults work None
  = inl (Configuration
           (MkTaskConfigurationError
              "default_task 'None' is not defined in tasks list")).
Proof.
  apply (proj1 (default_task_is_read_as_text null_default_files
                  packaged_defaults work None (child work ".debide.yaml")
                  [(PyString "default_task", Scalar PyNone)] []
                  [sample_task "build" "make"]
                  eq_refl eq_refl eq_refl ltac:(vm_compute; reflexivity))).
  - reflexivity.
  - vm_compute. intros H. inversion H as [|? ? ? H']. inversion H'.
Defined.

End ConfigFacts.

(** ** [scaffold_debian_packaging] *)

Module ScaffoldFacts.
Import PyStr Paths Scaffold.

Lemma mkdir_untouched (path : Path) (fs fs' : FileSystem) (other : Path) :
  length path < length other ->
  mkdir path fs = inr fs' -> fs' !! other = fs !! other.
Proof.
  revert fs fs'. induction path as [|name above IH]; intros fs fs' Hlen.
  - intros [= <-]. reflexivity.
  - cbn [mkdir]. cbn [length] in Hlen.
    assert (name :: above <> other) as Hne by (intros <-; cbn in Hlen; lia).
    destruct (fs !! (name :: above)) as [[content mode|]|].
    + discriminate.
    + intros [= <-]. reflexivity.
    + destruct (node_at fs above) as [[content mode|]|].
      * discriminate.
      * intros [= <-]. apply lookup_insert_ne. exact Hne.
      * destruct (mkdir above fs) as [failure|fs1] eqn:E; [discriminate|].
        intros [= <-]. rewrite lookup_insert_ne by exact Hne.
        apply (IH _ _ ltac:(lia) E).
Qed.

Lemma mkdir_makes (path : Path) (fs fs' : FileSystem) :
  mkdir path fs = inr fs' ->
  fs ⊆ fs' /\ node_at fs' path = Some Directory.
Proof.
  revert fs fs'. induction path as [|name above IH]; intros fs fs'.
  - intros [= <-]. split; reflexivity.
  - cbn [mkdir node_at].
    destruct (fs !! (name :: above)) as [[content mode|]|] eqn:Hp.
    + discriminate.
    + intros [= <-]. split; [reflexivity|exact Hp].
    + destruct (node_at fs above) as [[content mode|]|].
      * discriminate.
      * intros [= <-]. split; [apply insert_subseteq, Hp|].
        apply lookup_insert_eq.
      * destruct (mkdir above fs) as [failure|fs1] eqn:E; [discriminate|].
        intros [= <-]. destruct (IH _ _ E) as [Hsub _].
        split; [|apply lookup_insert_eq].
        etrans; [exact Hsub|]. apply insert_subseteq.
        rewrite (mkdir_untouched above fs fs1 (name :: above)
                   ltac:(cbn; lia) E).
        exact Hp.
Qed.

Lemma mkdir_existing (path : Path) (fs : FileSystem) :
  node_at fs path = Some Directory -> mkdir path fs = inr fs.
Proof.
  destruct path as [|name above]; [reflexivity|].
  cbn [node_at mkdir]. intros ->. reflexivity.
Qed.

(** What [_write_file] without [overwrite] leaves: on success, the file is
    new, in a directory; in any case nothing that existed has changed. *)
Lemma write_file_new (path : Path) (content : string) (fs : FileSystem) :
  let ended := _write_file path content false fs in
  fs ⊆ snd ended
  /\ forall written,
       fst ended = inr written ->
       path <> [] /\ fs !! path = None
       /\ exists fs1,
            fs ⊆ fs1 /\ fs1 !! path = None
            /\ node_at fs1 (parent path) = Some Directory
            /\ snd ended = <[path := File content None]> fs1.
Proof.
  cbv zeta. unfold _write_file, bind, attempt, raise.
  destruct (mkdir (parent path) fs) as [failure|fs1] eqn:Em.
  - cbn. split; [reflexivity|]. intros written H. discriminate H.
  - apply mkdir_makes in Em as [Hsub Hdir].
    unfold exists_. rewrite andb_true_r.
    destruct (node_at fs1 path) as [node|] eqn:Hn.
    + cbn. split; [exact Hsub|]. intros written H. discriminate H.
    + destruct path as [|name above]; [discriminate Hn|].
      cbn [node_at] in Hn. cbn [parent] in Hdir.
      unfold write_text. cbn [node_at parent]. rewrite Hn, Hdir. cbn.
      split; [etrans; [exact Hsub|apply insert_subseteq, Hn]|].
      intros written _. split; [discriminate|]. split.
      * destruct (fs !! (name :: above)) as [node|] eqn:Ho; [|reflexivity].
        rewrite (lookup_weaken _ _ _ _ Ho Hsub) in Hn. discriminate.
      * exists fs1. split; [exact Hsub|]. split; [exact Hn|].
        split; [exact Hdir|reflexivity].
Qed.

Lemma grows_ret {A : Type} (value : A) : grows (ret value).
Proof. intros fs. reflexivity. Qed.

Lemma grows_bind {A B : Type} (step : IO A) (next : A -> IO B) :
  grows step -> (forall value, grows (next value)) -> grows (bind step next).
Proof.
  intros Hs Hn fs. unfold bind. specialize (Hs fs).
  destruct (step fs) as [[failure|value] fs1]; cbn in Hs |- *; [exact Hs|].
  etrans; [exact Hs|apply Hn].
Qed.

Lemma grows_write_file (path : Path) (content : string) :
  grows (_write_file path content false).
Proof. intros fs. apply write_file_new. Qed.

Lemma chmod_new (path : Path) (content : string) (mode : nat)
    (fs : FileSystem) :
  path <> [] ->
  chmod path mode (<[path := File content None]> fs)
  = inr (<[path := File content (Some mode)]> fs).
Proof.
  intros Hne. unfold chmod. destruct path as [|name above]; [congruence|].
  cbn [node_at]. rewrite lookup_insert_eq, insert_insert_eq. reflexivity.
Qed.

(** Changing the mode of a file right after writing it as new. *)
Lemma grows_write_file_chmod {B : Type} (path : Path) (content : string)
    (mode : nat) (next : Path -> IO B) :
  (forall value, grows (next value)) ->
  grows (bind (_write_file path content false)
           (fun written => bind (attempt tt (chmod path mode))
                             (fun _ => next written))).
Proof.
  intros Hn fs. unfold bind at 1.
  destruct (write_file_new path content fs) as [Hsub Hnew].
  destruct (_write_file path content false fs) as [[failure|written] fs1];
    cbn in Hsub, Hnew |- *; [exact Hsub|].
  destruct (Hnew written eq_refl)
    as (Hne & Hfresh & fs0 & Hsub0 & Hnone & _ & ->).
  unfold bind, attempt. rewrite (chmod_new _ _ _ _ Hne).
  etrans; [|apply Hn]. etrans; [exact Hsub0|].
  apply insert_subseteq, Hnone.
Qed.

Ltac grows_chain :=
  repeat first
    [ apply grows_ret
    | apply grows_write_file_chmod; intros
    | apply grows_bind; [apply grows_write_file | intros] ].

Lemma scaffold_grows (render : Renderers) (workspace : Path)
    (metadata : PackageMetadata) :
  grows (scaffold_debian_packaging render workspace metadata).
Proof. unfold scaffold_debian_packaging. cbv zeta. grows_chain. Qed.

Lemma write_file_in_directory (name : string) (above : Path)
    (content : string) (fs : FileSystem) :
  node_at fs above = Some Directory -> fs !! (name :: above) = None ->
  _write_file (name :: above) content false fs
  = (inr (name :: above), <[name :: above := File content None]> fs).
Proof.
  intros Hdir Hnone. unfold _write_file, bind, attempt. cbn [parent].
  rewrite (mkdir_existing _ _ Hdir). unfold exists_, write_text.
  cbn [node_at parent]. rewrite Hnone, Hdir. reflexivity.
Qed.

Lemma write_file_makes_directory (name inner : string) (above : Path)
    (content : string) (fs : FileSystem) :
  node_at fs above = Some Directory -> fs !! (inner :: above) = None ->
  fs !! (name :: inner :: above) = None ->
  _write_file (name :: inner :: above) content false fs
  = (inr (name :: inner :: above),
     <[name :: inner :: above := File content None]>
       (<[inner :: above := Directory]> fs)).
Proof.
  intros Hdir Hinner Hnone. unfold _write_file, bind, attempt.
  cbn [parent mkdir]. rewrite Hinner, Hdir.
  unfold exists_, write_text. cbn [node_at parent].
  rewrite lookup_insert_ne by (intros E; apply (f_equal length) in E;
                               cbn in E; lia).
  rewrite Hnone, lookup_insert_eq. reflexivity.
Qed.

Lemma write_file_exists (name : string) (above : Path) (content : string)
    (fs : FileSystem) (node : Node) :
  node_at fs above = Some Directory -> fs !! (name :: above) = Some node ->
  _write_file (name :: above) content false fs
  = (inl (FileExistsError (path_text (name :: above) +:+ " already exists")),
     fs).
Proof.
  intros Hdir Hnode. unfold _write_file, bind, attempt. cbn [parent].
  rewrite (mkdir_existing _ _ Hdir). unfold exists_. cbn [node_at].
  rewrite Hnode. reflexivity.
Qed.

(** X19. [scaffold_debian_packaging] never overwrites: whether it
    returns or raises, every file and directory that existed before is
    still there afterwards with the same content and mode. *)
Theorem scaffold_never_overwrites (render : Renderers) (workspace : Path)
    (metadata : PackageMetadata) (fs : FileSystem) (path : Path)
    (node : Node) :
  fs !! path = Some node ->
  snd (scaffold_debian_packaging render workspace metadata fs) !! path
  = Some node.
Proof.
  intros H. eapply lookup_weaken; [exact H|]. apply scaffold_grows.
Qed.

Lemma scaffold_never_overwrites_witness :
  snd (scaffold_debian_packaging sample_render work sample_metadata
         with_changelog)
  !! child (child work "debian") "changelog"
  = Some (File "kept" None).
Proof.
  apply scaffold_never_overwrites. reflexivity.
Defined.

Ltac lookups :=
  repeat first
    [ rewrite lookup_insert_eq
    | rewrite lookup_insert_ne by discriminate ].

(** X20. In a workspace directory with nothing at or below [debian],
    [scaffold_debian_packaging] returns the six paths in the order
    [control], [changelog], [rules], [watch], [source/format],
    [README.Debian], and leaves exactly these additions: the directories
    [debian] and [debian/source] and the six files with their texts, of
    which [rules] has mode 0o755. *)
Theorem scaffold_fills_a_fresh_workspace (render : Renderers)
    (workspace : Path) (metadata : PackageMetadata) (fs : FileSystem) :
  node_at fs workspace = Some Directory ->
  vacant fs (child workspace "debian") ->
  let debian_dir := child workspace "debian" in
  scaffold_debian_packaging render workspace metadata fs
  = (inr [child debian_dir "control"; child debian_dir "changelog";
          child debian_dir "rules"; child debian_dir "watch";
          child (child debian_dir "source") "format";
          child debian_dir "README.Debian"],
     <[child debian_dir "README.Debian" := File (readme metadata) None]>
       (<[child (child debian_dir "source") "format"
          := File (line "3.0 (quilt)") None]>
          (<[child debian_dir "source" := Directory]>
             (<[child debian_dir "watch"
                := File (_render_watch render metadata) None]>
                (<[child debian_dir "rules"
                   := File (_render_rules render metadata) (Some 493)]>
                   (<[child debian_dir "changelog"
                      := File (_render_changelog render metadata) None]>
                      (<[child debian_dir "control"
                         := File (_render_control render metadata) None]>
                         (<[debian_dir := Directory]> fs)))))))).
Proof.
  intros Hws Hvacant. cbv zeta. unfold child in *.
  pose proof (Hvacant []) as H0.
  pose proof (Hvacant ["control"]) as H1.
  pose proof (Hvacant ["changelog"]) as H2.
  pose proof (Hvacant ["rules"]) as H3.
  pose proof (Hvacant ["watch"]) as H4.
  pose proof (Hvacant ["source"]) as H5.
  pose proof (Hvacant ["format"; "source"]) as H6.
  pose proof (Hvacant ["README.Debian"]) as H7.
  cbn [List.app] in H0, H1, H2, H3, H4, H5, H6, H7.
  unfold scaffold_debian_packaging, child. cbv zeta.
  unfold bind at 1.
  rewrite (write_file_makes_directory _ _ _ _ _ Hws H0 H1).
  unfold bind at 1.
  rewrite write_file_in_directory by (cbn [node_at]; lookups; trivial).
  unfold bind at 1.
  rewrite write_file_in_directory by (cbn [node_at]; lookups; trivial).
  unfold bind at 1. unfold attempt at 1.
  rewrite chmod_new by discriminate.
  unfold bind at 1.
  rewrite write_file_in_directory by (cbn [node_at]; lookups; trivial).
  unfold bind at 1.
  rewrite write_file_makes_directory by (cbn [node_at]; lookups; trivial).
  unfold bind at 1.
  rewrite write_file_in_directory by (cbn [node_at]; lookups; trivial).
  reflexivity.
Qed.

Lemma scaffold_fills_a_fresh_workspace_witness :
  fst (scaffold_debian_packaging sample_render work sample_metadata
         empty_workspace)
  = inr [["control"; "debian"; "work"]; ["changelog"; "debian"; "work"];
         ["rules"; "debian"; "work"]; ["watch"; "debian"; "work"];
         ["format"; "source"; "debian"; "work"];
         ["README.Debian"; "debian"; "work"]].
Proof.
  rewrite (scaffold_fills_a_fresh_workspace sample_render work
             sample_metadata empty_workspace).
  - reflexivity.
  - reflexivity.
  - intros below. unfold empty_workspace. apply lookup_singleton_None.
    intros E. apply (f_equal (@length string)) in E.
    rewrite length_app in E. cbn in E. lia.
Defined.

(** X21. [scaffold_debian_packaging] is not atomic: when [debian] is a
    directory without [control] and something exists at [changelog], it
    raises [FileExistsError] for [changelog] and the [control] file it has
    just written stays. *)
Theorem scaffold_is_not_atomic (render : Renderers) (workspace : Path)
    (metadata : PackageMetadata) (fs : FileSystem) (node : Node) :
  let debian_dir := child workspace "debian" in
  fs !! debian_dir = Some Directory ->
  fs !! child debian_dir "control" = None ->
  fs !! child debian_dir "changelog" = Some node ->
  scaffold_debian_packaging render workspace metadata fs
  = (inl (FileExistsError
            (path_text (child debian_dir "changelog") +:+ " already exists")),
     <[child debian_dir "control"
       := File (_render_control render metadata) None]> fs).
Proof.
  cbv zeta. unfold child. intros Hdir Hcontrol Hchangelog.
  unfold scaffold_debian_packaging, child. cbv zeta.
  unfold bind at 1.
  rewrite write_file_in_directory by assumption.
  unfold bind at 1.
  rewrite (write_file_exists _ _ _ _ node)
    by (cbn [node_at]; lookups; trivial).
  reflexivity.
Qed.

Lemma scaffold_is_not_atomic_witness :
  scaffold_debian_packaging sample_render work sample_metadata with_changelog
  = (inl (FileExistsError "/work/debian/changelog already exists"),
     <[["control"; "debian"; "work"] := File (line "Source: hello") None]>
       with_changelog).
Proof.
  apply (scaffold_is_not_atomic sample_render work sample_metadata
           with_changelog (File "kept" None));
    reflexivity.
Defined.

Lemma scaffold_blocked (render : Renderers) (workspace : Path)
    (metadata : PackageMetadata) (fs : FileSystem) (node : Node) :
  fs !! ("debian" :: workspace) = Some Directory ->
  fs !! ("control" :: "debian" :: workspace) = Some node ->
  scaffold_debian_packaging render workspace metadata fs
  = (inl (FileExistsError
            (path_text ("control" :: "debian" :: workspace)
             +:+ " already exists")),
     fs).
Proof.
  intros Hdir Hcontrol.
  unfold scaffold_debian_packaging, child. cbv zeta.
  unfold bind at 1.
  rewrite (write_file_exists _ _ _ _ node) by assumption.
  reflexivity.
Qed.

(** X22. After [scaffold_debian_packaging] has returned, calling it
    again for the same workspace raises [FileExistsError] for
    [debian/control] and changes nothing. *)
Theorem scaffold_twice_fails_and_changes_nothing (render : Renderers)
    (workspace : Path) (metadata : PackageMetadata) (fs fs' : FileSystem)
    (created : list Path) :
  scaffold_debian_packaging render workspace metadata fs = (inr created, fs') ->
  scaffold_debian_packaging render workspace metadata fs'
  = (inl (FileExistsError
            (path_text (child (child workspace "debian") "control")
             +:+ " already exists")),
     fs').
Proof.
  unfold child. intros H.
  assert (fs' !! ("debian" :: workspace) = Some Directory
          /\ exists node, fs' !! ("control" :: "debian" :: workspace)
                          = Some node) as (Hdir & node & Hcontrol).
  { revert H. unfold scaffold_debian_packaging, child. cbv zeta.
    unfold bind at 1.
    destruct (write_file_new ("control" :: "debian" :: workspace)
                (_render_control render metadata) fs) as [_ Hnew].
    destruct (_write_file ("control" :: "debian" :: workspace)
                (_render_control render metadata) false fs)
      as [[failure|written] fs1]; [discriminate|].
    cbn in Hnew.
    destruct (Hnew written eq_refl)
      as (_ & _ & fs0 & _ & _ & Hparent & ->).
    cbn [parent node_at] in Hparent.
    intros H.
    match type of H with
    | ?rest _ = _ =>
        assert (grows rest) as Hgrows by grows_chain
    end.
    specialize (Hgrows (<[("control" :: "debian" :: workspace)
                          := File (_render_control render metadata) None]>
                          fs0)).
    rewrite H in Hgrows. cbn [snd] in Hgrows.
    split.
    - eapply lookup_weaken; [|exact Hgrows].
      rewrite lookup_insert_ne by discriminate. exact Hparent.
    - eexists. eapply lookup_weaken; [|exact Hgrows].
      apply lookup_insert_eq. }
  apply (scaffold_blocked render workspace metadata fs' node Hdir Hcontrol).
Qed.

Lemma scaffold_twice_fails_and_changes_nothing_witness :
  let first :=
    scaffold_debian_packaging sample_render work sample_metadata
      empty_workspace in
  scaffold_debian_packaging sample_render work sample_metadata (snd first)
  = (inl (FileExistsError "/work/debian/control already exists"), snd first).
Proof.
  intros first.
  apply (scaffold_twice_fails_and_changes_nothing sample_render work
           sample_metadata empty_workspace (snd first)
           [["control"; "debian"; "work"]; ["changelog"; "debian"; "work"];
            ["rules"; "debian"; "work"]; ["watch"; "debian"; "work"];
            ["format"; "source"; "debian"; "work"];
            ["README.Debian"; "debian"; "work"]]).
  vm_compute. reflexivity.
Defined.

End ScaffoldFacts.

(** ** [action_save_all] *)

Module SavingFacts.
Import PyStr App Saving.

Lemma save_one_tally (host : Host) (answer : option string)
    (editor : EditorPane) (tally : Tally) :
  let after := snd (save_one host answer editor tally) in
  saved after + skipped after + length (errors after)
  = saved tally + skipped tally + length (errors tally)
    + (if is_dirty editor then 1 else 0).
Proof.
  cbv zeta. unfold save_one.
  destruct (is_dirty editor); cbn [negb]; [|cbn; lia].
  destruct (match current_path editor with
            | Some target_path => Some target_path
            | None => answer
            end) as [target_path|]; [|cbn; lia].
  destruct (save host (Some target_path) editor) as [[message]|written]; cbn.
  - rewrite length_app. cbn. lia.
  - lia.
Qed.

Lemma save_one_editor (host : Host) (answer : option string)
    (editor : EditorPane) (tally : Tally) :
  let after := fst (save_one host answer editor tally) in
  text after = text editor
  /\ (is_dirty after = true -> after = editor).
Proof.
  cbv zeta. unfold save_one.
  destruct (is_dirty editor) eqn:Hd; cbn [negb]; [|split; reflexivity].
  destruct (match current_path editor with
            | Some target_path => Some target_path
            | None => answer
            end) as [target_path|]; [|split; reflexivity].
  unfold save.
  destruct (write_text host target_path (text editor)) as [failure|]; cbn.
  - split; reflexivity.
  - split; [reflexivity|]. unfold is_dirty. cbn.
    rewrite String.eqb_refl. discriminate.
Qed.

Lemma save_each_tally (host : Host) (prompt : nat -> option string)
    (editors : list EditorPane) (position : nat) (tally : Tally) :
  let ended := save_each host prompt position editors tally in
  saved (snd ended) + skipped (snd ended) + length (errors (snd ended))
  = saved tally + skipped tally + length (errors tally)
    + length (unsaved editors)
  /\ text <$> fst ended = text <$> editors
  /\ Forall2 (fun before after => is_dirty after = true -> after = before)
       editors (fst ended).
Proof.
  cbv zeta. revert position tally.
  induction editors as [|editor rest IH]; intros position tally.
  - cbn. split; [lia|]. split; [reflexivity|constructor].
  - cbn [save_each].
    pose proof (save_one_tally host (prompt position) editor tally) as H1.
    pose proof (save_one_editor host (prompt position) editor tally) as H2.
    destruct (save_one host (prompt position) editor tally)
      as [editor' tally'].
    cbn [fst snd] in H1, H2. destruct H2 as [Htext Hsame].
    specialize (IH (S position) tally').
    destruct (save_each host prompt (S position) rest tally')
      as [rest' final].
    cbn [fst snd] in IH |- *. destruct IH as (IH1 & IH2 & IH3).
    split; [|split].
    + rewrite IH1, H1. unfold unsaved. cbn [List.filter].
      destruct (is_dirty editor); cbn [length]; lia.
    + rewrite !fmap_cons, Htext, IH2. reflexivity.
    + constructor; assumption.
Qed.

Lemma report_notifications (tally : Tally) (app : DebIDEApp) :
  exists added,
    notifications (report tally app) = notifications app ++ added
    /\ 1 <= length added <= 3
    /\ added <> [("No editors available to save", warning)]
    /\ (added = [("All files already saved", information)]
        <-> saved tally + skipped tally + length (errors tally) = 0).
Proof.
  unfold report. destruct tally as [n k failures]. cbn [saved skipped errors].
  assert (forall (messages : list string) (a : DebIDEApp),
            notifications
              (fold_left
                 (fun app message => _log ("[red]" +:+ message +:+ "[/red]") app)
                 messages a)
            = notifications a) as Hlog.
  { induction messages as [|message more IHm]; intros a; [reflexivity|].
    cbn [fold_left]. rewrite IHm. reflexivity. }
  destruct n as [|n], k as [|k], failures as [|failure more];
    cbn [Nat.ltb Nat.leb orb length]; cbn [notify notifications];
    rewrite ?Hlog; cbn [notify notifications]; rewrite <- ?app_assoc;
    eexists; (split; [reflexivity|]); cbn [List.app length];
    (split; [lia|]);
    (split; [intros H; unfold String.append in H; discriminate H|]);
    (split; [intros H; try discriminate H; reflexivity
            |intros H; try reflexivity; cbn in H; lia]).
Qed.

(** X23. [action_save_all] accounts for every editor with unsaved
    changes exactly once, as saved, skipped or failed; it never changes the
    text of an editor, and an editor still unsaved afterwards is as it was;
    it emits between one and three notifications: the single warning that
    there are no editors exactly when the query returns none, and the
    single notification that all files are saved exactly when there are
    editors and none of them had unsaved changes. *)
Theorem save_all_accounts_for_every_unsaved_editor (host : Host)
    (prompt : nat -> option string) (editors : list EditorPane)
    (app : DebIDEApp) :
  let tally :=
    snd (save_each host prompt 0 editors
           {| saved := 0; skipped := 0; errors := [] |}) in
  let ended := action_save_all host prompt editors app in
  saved tally + skipped tally + length (errors tally)
  = length (unsaved editors)
  /\ text <$> fst ended = text <$> editors
  /\ Forall2 (fun before after => is_dirty after = true -> after = before)
       editors (fst ended)
  /\ exists added,
       notifications (snd ended) = notifications app ++ added
       /\ 1 <= length added <= 3
       /\ (added = [("No editors available to save", warning)]
           <-> editors = [])
       /\ (added = [("All files already saved", information)]
           <-> editors <> [] /\ unsaved editors = []).
Proof.
  cbv zeta. unfold action_save_all.
  destruct editors as [|editor rest].
  { cbn. split; [reflexivity|]. split; [reflexivity|].
    split; [constructor|]. eexists. split; [reflexivity|].
    cbn [length]. split; [lia|]. split; [split; reflexivity|].
    split; [discriminate|]. intros [H _]. congruence. }
  destruct (save_each_tally host prompt (editor :: rest) 0
              {| saved := 0; skipped := 0; errors := [] |})
    as (H1 & H2 & H3).
  destruct (save_each host prompt 0 (editor :: rest)
              {| saved := 0; skipped := 0; errors := [] |})
    as [editors' tally].
  cbn [fst snd saved skipped errors length Nat.add] in H1, H2, H3 |- *.
  split; [exact H1|]. split; [exact H2|]. split; [exact H3|].
  destruct (report_notifications tally app)
    as (added & Ha & Hl & Hno & Hiff).
  exists added. split; [exact Ha|]. split; [exact Hl|].
  split; [split; [intros H; contradiction|discriminate]|].
  rewrite Hiff, H1. split.
  - intros H. split; [discriminate|].
    destruct (unsaved (editor :: rest)); [reflexivity|discriminate].
  - intros [_ ->]. reflexivity.
Qed.

Lemma save_all_accounts_for_every_unsaved_editor_witness :
  let tally :=
    snd (save_each host_with_all (fun _ => None) 0 three_editors
           {| saved := 0; skipped := 0; errors := [] |}) in
  saved tally + skipped tally + length (errors tally) = 2
  /\ text <$> fst (action_save_all host_with_all (fun _ => None)
                     three_editors (new_app sample_config))
     = ["a"; "b2"; "c"].
Proof.
  intros tally.
  destruct (save_all_accounts_for_every_unsaved_editor host_with_all
              (fun _ => None) three_editors (new_app sample_config))
    as (H1 & H2 & _).
  split; [exact H1 | exact H2].
Defined.

Example save_all_reports :
  let ended :=
    action_save_all host_with_all (fun _ => None) three_editors
      (new_app sample_config) in
  is_dirty <$> fst ended = [false; false; true]
  /\ notifications (snd ended)
     = [("Saved 1 file(s)", information);
        ("Skipped 1 buffer(s) without a saved path", warning)]
  /\ notifications
       (snd (action_save_all host_with_all (fun _ => None) []
               (new_app sample_config)))
     = [("No editors available to save", warning)].
Proof. repeat split; reflexivity. Qed.

End SavingFacts.
